(** * LiSA path-tracing renderer: the OptiX device programs

    A shallow embedding of [optixLisa/src/shader.cu] and of its older variant
    [optixLisa/shader2.cu], with the properties their specification states.

    Layout:
    - [FloatOps]: the arithmetic of the [float] type, as an interface.  The
      programs are written once over that interface; the control-flow and
      frame properties hold for every arithmetic, the algebraic ones are
      proved for the exact real numbers ([R_float]), and single precision
      ([B32_float]) shows where rounding makes them fail.
    - the vector helpers of [sutil/vec_math.h] the programs call;
    - the records of [structs.hh] the programs read;
    - the payload registers ([packPointer], [unpackPointer], [getInter]),
      the same in both files;
    - [Shader] for [shader.cu], [Shader2] for [shader2.cu], and [refract],
      which only [shader.cu] has;
    - [Random], the generator of [random.h];
    - the vocabulary of the properties and the scenes they are tried on;
    - the properties.

    A computation that calls [optixTrace] returns its value together with
    the list of the queries it issued ([Traced]); a device buffer is a map
    from indices to cells; the scene behind the traversable handle is an
    oracle ([Scene]). *)

From Stdlib Require Import ZArith List Bool Lia Reals Lra Psatz.
From Stdlib Require SpecFloat.
Import ListNotations.

Set Implicit Arguments.

(** ** Machine integers *)

(** [unsigned int] is 32 bits wide; arithmetic on it wraps. *)
Definition uint : Type := Z.

Definition wrap32 (n : Z) : Z := n mod 2 ^ 32.

(** [int] in two's complement: the value a 32-bit register holds. *)
Definition wrap_int (n : Z) : Z := (n + 2 ^ 31) mod 2 ^ 32 - 2 ^ 31.

(** ** The arithmetic of [float] *)

Class FloatOps (F : Type) : Type := {
  (** [static_cast<float>] of an integer, and the literals [0.0f], [1.0f], [2.0f] *)
  f_of_Z : Z -> F;
  (** a decimal literal [m]e[e], such as [1e-6f] or [0.01f] *)
  f_lit : Z -> Z -> F;
  (** conversion of a [float] argument to an [unsigned int] parameter *)
  f_to_uint : F -> uint;
  fadd : F -> F -> F;
  fsub : F -> F -> F;
  fmul : F -> F -> F;
  fdiv : F -> F -> F;
  fneg : F -> F;
  sqrtf : F -> F;
  fmaxf : F -> F -> F;
  fminf : F -> F -> F;
  copysignf : F -> F -> F
}.

Declare Scope float_scope.
Delimit Scope float_scope with f.
Infix "+" := fadd : float_scope.
Infix "-" := fsub : float_scope.
Infix "*" := fmul : float_scope.
Infix "/" := fdiv : float_scope.
Notation "- a" := (fneg a) : float_scope.

(** The exact real numbers as an arithmetic: no rounding, no infinities, no
    NaN, and no signed zero ([copysignf] looks at the order only). *)
#[export] Instance R_float : FloatOps R := {
  f_of_Z := IZR;
  f_lit := fun m e => (IZR m * powerRZ 10 e)%R;
  f_to_uint := fun r => wrap32 (Int_part r);
  fadd := Rplus;
  fsub := Rminus;
  fmul := Rmult;
  fdiv := Rdiv;
  fneg := Ropp;
  sqrtf := sqrt;
  fmaxf := Rmax;
  fminf := Rmin;
  copysignf := fun a b => if Rlt_dec b 0 then Ropp (Rabs a) else Rabs a
}.

(** ** Single precision

    [binary32] is the IEEE 754 format of [float]: 24 bits of precision,
    exponents up to 2^128.  Every operation is rounded to nearest, ties to
    even, one operation at a time (no fused multiply-add).  The format and
    its operations are those of the Standard Library's [SpecFloat]. *)

Definition binary32 : Type := SpecFloat.spec_float.

Definition b32_prec : Z := 24%Z.
Definition b32_emax : Z := 128%Z.

(** The nearest [binary32] to the integer [n]. *)
Definition b32_of_Z (n : Z) : binary32 :=
  SpecFloat.binary_normalize b32_prec b32_emax n 0%Z false.

Definition b32_add : binary32 -> binary32 -> binary32 :=
  SpecFloat.SFadd b32_prec b32_emax.
Definition b32_sub : binary32 -> binary32 -> binary32 :=
  SpecFloat.SFsub b32_prec b32_emax.
Definition b32_mul : binary32 -> binary32 -> binary32 :=
  SpecFloat.SFmul b32_prec b32_emax.
Definition b32_div : binary32 -> binary32 -> binary32 :=
  SpecFloat.SFdiv b32_prec b32_emax.
Definition b32_sqrt : binary32 -> binary32 :=
  SpecFloat.SFsqrt b32_prec b32_emax.

(** The literal [m]e[e]: for [e >= 0] the nearest [binary32] to [m * 10^e];
    for [e < 0] the quotient of [m] by [10^(-e)], which is the nearest
    [binary32] to the literal when both are [binary32] values, as they are
    for the literals of the programs ([1e-6f], [0.01f]). *)
Definition b32_lit (m e : Z) : binary32 :=
  match e with
  | Zneg k => b32_div (b32_of_Z m) (b32_of_Z (10 ^ Zpos k)%Z)
  | _ => b32_of_Z (m * 10 ^ e)%Z
  end.

(** The conversion to [unsigned int] truncates, and saturates out of range
    as the device's conversion does; a NaN gives 0. *)
Definition b32_to_uint (x : binary32) : uint :=
  match x with
  | SpecFloat.S754_finite false m e =>
      Z.min (2 ^ 32 - 1)%Z
            (match e with
             | Zneg k => Zpos m / 2 ^ Zpos k
             | _ => Zpos m * 2 ^ e
             end)%Z
  | SpecFloat.S754_infinity false => (2 ^ 32 - 1)%Z
  | _ => 0%Z
  end.

(** The sign bit; the NaN of [SpecFloat] carries none. *)
Definition b32_sign (x : binary32) : bool :=
  match x with
  | SpecFloat.S754_zero s => s
  | SpecFloat.S754_infinity s => s
  | SpecFloat.S754_finite s _ _ => s
  | SpecFloat.S754_nan => false
  end.

(** [fmaxf] and [fminf] return the other argument when one is a NaN. *)
Definition b32_max (a b : binary32) : binary32 :=
  match a, b with
  | SpecFloat.S754_nan, _ => b
  | _, SpecFloat.S754_nan => a
  | _, _ => if SpecFloat.SFltb a b then b else a
  end.
Definition b32_min (a b : binary32) : binary32 :=
  match a, b with
  | SpecFloat.S754_nan, _ => b
  | _, SpecFloat.S754_nan => a
  | _, _ => if SpecFloat.SFltb b a then b else a
  end.

Definition b32_copysign (a b : binary32) : binary32 :=
  if b32_sign b then SpecFloat.SFopp (SpecFloat.SFabs a)
  else SpecFloat.SFabs a.

#[export] Instance B32_float : FloatOps binary32 := {
  f_of_Z := b32_of_Z;
  f_lit := b32_lit;
  f_to_uint := b32_to_uint;
  fadd := b32_add;
  fsub := b32_sub;
  fmul := b32_mul;
  fdiv := b32_div;
  fneg := SpecFloat.SFopp;
  sqrtf := b32_sqrt;
  fmaxf := b32_max;
  fminf := b32_min;
  copysignf := b32_copysign
}.

(** ** sutil/vec_math.h

    The vector helpers of the OptiX SDK the shader files call, with the
    bodies that header gives them. *)

Section VecMath.
Context {F : Type} {FO : FloatOps F}.
Local Open Scope float_scope.

Record float2 : Type := make_float2 { x2 : F; y2 : F }.
Record float3 : Type := make_float3 { fx : F; fy : F; fz : F }.
Record float4 : Type := make_float4 { x4 : F; y4 : F; z4 : F; w4 : F }.

(** [make_float3(float s)] *)
Definition make_float3_s (s : F) : float3 := make_float3 s s s.
(** [make_float3(float2 a, float s)] *)
Definition make_float3_2s (a : float2) (s : F) : float3 :=
  make_float3 (x2 a) (y2 a) s.
(** [make_float3(float4 a)] *)
Definition make_float3_4 (a : float4) : float3 :=
  make_float3 (x4 a) (y4 a) (z4 a).
(** [make_float4(float3 a, float w)] *)
Definition make_float4_3s (a : float3) (w : F) : float4 :=
  make_float4 (fx a) (fy a) (fz a) w.

(** [float2] operators *)
Definition add2 (a b : float2) : float2 :=
  make_float2 (x2 a + x2 b) (y2 a + y2 b).
Definition sub2_s (a : float2) (b : F) : float2 :=
  make_float2 (x2 a - b) (y2 a - b).
Definition div2 (a b : float2) : float2 :=
  make_float2 (x2 a / x2 b) (y2 a / y2 b).
Definition smul2 (s : F) (a : float2) : float2 :=
  make_float2 (x2 a * s) (y2 a * s).
Definition mul2_s (a : float2) (s : F) : float2 :=
  make_float2 (x2 a * s) (y2 a * s).

(** [float3] operators *)
Definition add3 (a b : float3) : float3 :=
  make_float3 (fx a + fx b) (fy a + fy b) (fz a + fz b).
Definition sub3 (a b : float3) : float3 :=
  make_float3 (fx a - fx b) (fy a - fy b) (fz a - fz b).
Definition mul3 (a b : float3) : float3 :=
  make_float3 (fx a * fx b) (fy a * fy b) (fz a * fz b).
Definition smul3 (s : F) (a : float3) : float3 :=
  make_float3 (fx a * s) (fy a * s) (fz a * s).
Definition mul3_s (a : float3) (s : F) : float3 :=
  make_float3 (fx a * s) (fy a * s) (fz a * s).
Definition neg3 (a : float3) : float3 :=
  make_float3 (- fx a) (- fy a) (- fz a).
(** [operator/(float3, float)] multiplies by the inverse *)
Definition div3_s (a : float3) (s : F) : float3 :=
  let inv := f_of_Z 1 / s in mul3_s a inv.

Definition dot2 (a b : float2) : F := x2 a * x2 b + y2 a * y2 b.
Definition dot (a b : float3) : F := fx a * fx b + fy a * fy b + fz a * fz b.

Definition cross (a b : float3) : float3 :=
  make_float3 (fy a * fz b - fz a * fy b)
              (fz a * fx b - fx a * fz b)
              (fx a * fy b - fy a * fx b).

Definition normalize2 (v : float2) : float2 :=
  let invLen := f_of_Z 1 / sqrtf (dot2 v v) in mul2_s v invLen.
Definition normalize (v : float3) : float3 :=
  let invLen := f_of_Z 1 / sqrtf (dot v v) in mul3_s v invLen.

Definition clamp (f a b : F) : F := fmaxf a (fminf f b).

(** [lerp(a, b, t)] is [a + t*(b-a)] *)
Definition lerp (a b : float3) (t : F) : float3 :=
  add3 a (smul3 t (sub3 b a)).

(** [faceforward(n, i, nref)] returns [n] when [dot(i, nref)] is positive
    and [-n] otherwise, through [copysignf]. *)
Definition faceforward (n i nref : float3) : float3 :=
  mul3_s n (copysignf (f_of_Z 1) (dot i nref)).
End VecMath.

Arguments float2 F : clear implicits.
Arguments float3 F : clear implicits.
Arguments float4 F : clear implicits.

(** ** structs.hh and the payload record

    The records below have the fields of [structs.hh] that the two shader
    files read and write, with the types they are used at. *)

Section Structs.
Context {F : Type} {FO : FloatOps F}.

Record Material : Type := {
  diffuse_color : float3 F;
  emission_color : float3 F;
  emit : bool
}.

(** [HitGroupData] as [shader.cu] uses it.  A device pointer is a total
    map from indices to elements. *)
Record HitGroupData : Type := {
  rt_material : Material;
  vertices : Z -> float3 F;
  normals : Z -> float3 F
}.

(** [HitGroupData] as [shader2.cu] uses it: vertices go through
    [make_float3], vertex normals are never read. *)
Record HitGroupData2 : Type := {
  rt_material2 : Material;
  vertices2 : Z -> float4 F
}.

Record MissData : Type := { bg_color : float4 F }.

(** [struct Intersection], the payload both ray types share. *)
Record Intersection : Type := {
  material : Material;
  normal : float3 F;
  xyz : float3 F;
  mask_color : float3 F;
  accum_color : float3 F;
  hit : bool;
  done : bool;
  seed : uint
}.

(** [Intersection intersection;]: the members with an initialiser get it,
    the others ([material], [normal], [xyz], [seed]) keep whatever the
    storage held, here the fields of [garbage]. *)
Definition Intersection_new (garbage : Intersection) : Intersection :=
  {| material := material garbage;
     normal := normal garbage;
     xyz := xyz garbage;
     mask_color := make_float3_s (f_of_Z 1);
     accum_color := make_float3_s (f_of_Z 0);
     hit := false;
     done := false;
     seed := seed garbage |}.

Definition set_material (m : Material) (i : Intersection) : Intersection :=
  {| material := m; normal := normal i; xyz := xyz i;
     mask_color := mask_color i; accum_color := accum_color i;
     hit := hit i; done := done i; seed := seed i |}.
Definition set_normal (n : float3 F) (i : Intersection) : Intersection :=
  {| material := material i; normal := n; xyz := xyz i;
     mask_color := mask_color i; accum_color := accum_color i;
     hit := hit i; done := done i; seed := seed i |}.
Definition set_xyz (p : float3 F) (i : Intersection) : Intersection :=
  {| material := material i; normal := normal i; xyz := p;
     mask_color := mask_color i; accum_color := accum_color i;
     hit := hit i; done := done i; seed := seed i |}.
Definition set_mask_color (c : float3 F) (i : Intersection) : Intersection :=
  {| material := material i; normal := normal i; xyz := xyz i;
     mask_color := c; accum_color := accum_color i;
     hit := hit i; done := done i; seed := seed i |}.
Definition set_accum_color (c : float3 F) (i : Intersection) : Intersection :=
  {| material := material i; normal := normal i; xyz := xyz i;
     mask_color := mask_color i; accum_color := c;
     hit := hit i; done := done i; seed := seed i |}.
Definition set_hit (b : bool) (i : Intersection) : Intersection :=
  {| material := material i; normal := normal i; xyz := xyz i;
     mask_color := mask_color i; accum_color := accum_color i;
     hit := b; done := done i; seed := seed i |}.
Definition set_done (b : bool) (i : Intersection) : Intersection :=
  {| material := material i; normal := normal i; xyz := xyz i;
     mask_color := mask_color i; accum_color := accum_color i;
     hit := hit i; done := b; seed := seed i |}.
Definition set_seed (s : uint) (i : Intersection) : Intersection :=
  {| material := material i; normal := normal i; xyz := xyz i;
     mask_color := mask_color i; accum_color := accum_color i;
     hit := hit i; done := done i; seed := s |}.

(** *** The scene behind [OptixTraversableHandle]

    [optixTrace] walks the acceleration structure and runs one program of
    the shader binding table: the closest-hit program of the ray type on a
    hit, its miss program otherwise.  What the walk finds is the scene's
    business; the handle is an oracle for it.  With
    [OPTIX_RAY_FLAG_TERMINATE_ON_FIRST_HIT] the walk stops at the first
    primitive it finds, which need not be the closest. *)
Record HitInfo (Data : Type) : Type := {
  sbt_data : Data;            (* optixGetSbtDataPointer *)
  primitive_index : Z;        (* optixGetPrimitiveIndex *)
  ray_tmax : F                (* optixGetRayTmax at the hit *)
}.

Record Scene (Data : Type) : Type := {
  (** origin, direction, tmin, tmax *)
  closest_hit : float3 F -> float3 F -> F -> F -> option (HitInfo Data);
  first_hit : float3 F -> float3 F -> F -> F -> option (HitInfo Data);
  miss_data : MissData
}.

(** *** Calls to [optixTrace], recorded *)
Inductive Query : Type :=
| QRadiance (origin direction : float3 F) (tmin tmax : F)
| QOcclusion (origin direction : float3 F) (tmin tmax : F).

Definition is_radiance (q : Query) : bool :=
  match q with QRadiance _ _ _ _ => true | QOcclusion _ _ _ _ => false end.
Definition is_occlusion (q : Query) : bool :=
  match q with QRadiance _ _ _ _ => false | QOcclusion _ _ _ _ => true end.

(** A computation that issues queries: its value and the queries, oldest
    first. *)
Definition Traced (A : Type) : Type := (A * list Query)%type.

Definition ret {A : Type} (a : A) : Traced A := (a, []).
Definition bind {A B : Type} (m : Traced A) (k : A -> Traced B) : Traced B :=
  let '(a, l1) := m in let '(b, l2) := k a in (b, l1 ++ l2).
(** one call to [optixTrace] *)
Definition issue (q : Query) : Traced unit := (tt, [q]).
Definition value {A : Type} (m : Traced A) : A := fst m.
Definition queries {A : Type} (m : Traced A) : list Query := snd m.
End Structs.

Arguments Material F : clear implicits.
Arguments HitGroupData F : clear implicits.
Arguments HitGroupData2 F : clear implicits.
Arguments MissData F : clear implicits.
Arguments Intersection F : clear implicits.
Arguments HitInfo F Data : clear implicits.
Arguments Scene F Data : clear implicits.
Arguments Query F : clear implicits.
Arguments Traced F A : clear implicits.

Declare Scope traced_scope.
Delimit Scope traced_scope with traced.
Notation "x <- m ;; k" := (bind m (fun x => k))
  (at level 61, m at next level, right associativity) : traced_scope.
Notation "' p <- m ;; k" := (bind m (fun x => let p := x in k))
  (at level 61, p pattern, m at next level, right associativity) : traced_scope.

(** ** Launch parameters *)

Section LaunchParams.
Context {F : Type} {FO : FloatOps F}.

(** [struct Params]; [uchar4] is the packed colour of the display buffer. *)
Record Params (Data uchar4 : Type) : Type := {
  width : uint;
  height : uint;
  eye : float3 F;
  U : float3 F;
  V : float3 F;
  W : float3 F;
  subframe_index : Z;
  samples_per_launch : Z;
  handle : Scene F Data;
  accum_buffer : Z -> float4 F;
  frame_buffer : Z -> uchar4
}.

(** [buf[i] = v] *)
Definition store {A : Type} (buf : Z -> A) (i : Z) (v : A) : Z -> A :=
  fun j => if Z.eqb j i then v else buf j.

Definition set_buffers {Data uchar4 : Type} (p : Params Data uchar4)
    (a : Z -> float4 F) (f : Z -> uchar4) : Params Data uchar4 :=
  {| width := width p; height := height p; eye := eye p;
     U := U p; V := V p; W := W p;
     subframe_index := subframe_index p;
     samples_per_launch := samples_per_launch p;
     handle := handle p;
     accum_buffer := a; frame_buffer := f |}.

Definition set_subframe_index {Data uchar4 : Type} (p : Params Data uchar4)
    (k : Z) : Params Data uchar4 :=
  {| width := width p; height := height p; eye := eye p;
     U := U p; V := V p; W := W p;
     subframe_index := k;
     samples_per_launch := samples_per_launch p;
     handle := handle p;
     accum_buffer := accum_buffer p; frame_buffer := frame_buffer p |}.
(** The end of [__raygen__rg], the same lines in both shader files: the
    blend of the launch's estimate [accum] into the accumulation buffer
    and the two stores. *)
Definition accumulate {Data uchar4 : Type} (make_color : float3 F -> uchar4)
    (params : Params Data uchar4) (idx_x idx_y : uint) (accum : float3 F)
    : Params Data uchar4 :=
  let image_index := wrap32 (idx_y * width params + idx_x) in
  let accum :=
    if (0 <? subframe_index params)%Z then
      let a :=
        (f_of_Z 1 / f_of_Z (wrap_int (subframe_index params + 1)))%f in
      let accum_color_prev :=
        make_float3_4 (accum_buffer params image_index) in
      lerp accum_color_prev accum a
    else accum in
  set_buffers params
    (store (accum_buffer params) image_index
           (make_float4_3s accum (f_of_Z 1)))
    (store (frame_buffer params) image_index (make_color accum)).
End LaunchParams.

Arguments Params F Data uchar4 : clear implicits.

(** ** The payload registers

    [optixTrace] carries the address of the payload record in two 32-bit
    payload registers.  An address is a 64-bit unsigned integer; both
    shader files have the same three functions. *)

Definition wrap64 (n : Z) : Z := n mod 2 ^ 64.

(** [unpackPointer(i0, i1)] *)
Definition unpackPointer (i0 i1 : uint) : Z :=
  let uptr := Z.lor (wrap64 (Z.shiftl i0 32)) i1 in
  uptr.

(** [packPointer(ptr, i0, i1)]: the two registers it writes *)
Definition packPointer (ptr : Z) : uint * uint :=
  let uptr := ptr in
  let i0 := wrap32 (Z.shiftr uptr 32) in
  let i1 := wrap32 (Z.land uptr 0x00000000ffffffff) in
  (i0, i1).

(** [getInter()], [u0] and [u1] being what [optixGetPayload_0] and
    [optixGetPayload_1] return *)
Definition getInter (u0 u1 : uint) : Z := unpackPointer u0 u1.

(** ** shader.cu *)

Module Shader.
Section Programs.
Context {F : Type} {FO : FloatOps F}.
Local Open Scope float_scope.
Local Open Scope traced_scope.

(** [random.h]: [rnd] advances the seed and returns a scalar; [tea<4>]
    hashes two words into a seed.  Both are parameters here. *)
Variable rnd : uint -> F * uint.
Variable tea4 : uint -> uint -> uint.
(** [cuda/helpers.h]: the display encoding. *)
Variable uchar4 : Type.
Variable make_color : float3 F -> uchar4.
(** [__constant__ Params params] *)
Variable params : Params F (HitGroupData F) uchar4.
(** what the storage of a fresh [Intersection] holds *)
Variable garbage : Intersection F.

Definition rng (seed : uint) : F * uint :=
  let '(r, seed) := rnd seed in (r * f_of_Z 2 - f_of_Z 1, seed).

(** The three draws are taken left to right. *)
Definition shoot_ray_hemisphere (normal : float3 F) (seed : uint)
    : float3 F * uint :=
  let '(a, seed) := rng seed in
  let '(b, seed) := rng seed in
  let '(c, seed) := rng seed in
  let random_dir := normalize (make_float3 a b c) in
  (faceforward random_dir normal random_dir, seed).

(** *** Trace functions and the occlusion programs *)

Definition __miss__occlusion (intersection : Intersection F)
    : Intersection F :=
  set_hit false intersection.

Definition __closesthit__occlusion (rt_data : HitGroupData F)
    (intersection : Intersection F) : Intersection F :=
  if emit (rt_material rt_data)
  then set_hit true (set_material (rt_material rt_data) intersection)
  else intersection.

Definition trace_occlusion (handle : Scene F (HitGroupData F))
    (ray_origin ray_direction : float3 F) (tmin tmax : F)
    (inter : Intersection F) : Traced F (Intersection F) :=
  _ <- issue (QOcclusion ray_origin ray_direction tmin tmax) ;;
  match first_hit handle ray_origin ray_direction tmin tmax with
  | Some h => ret (__closesthit__occlusion (sbt_data h) inter)
  | None => ret (__miss__occlusion inter)
  end.

(** *** Radiance programs *)

Definition __miss__radiance (rt_data : MissData F)
    (intersection : Intersection F) : Intersection F :=
  let intersection := set_done true intersection in
  set_accum_color
    (add3 (accum_color intersection)
          (mul3 (make_float3_4 (bg_color rt_data)) (mask_color intersection)))
    intersection.

(** The loop of [shoot_ray_to_light], [n] probes left.  It returns the
    radiance and the caller's record, whose seed the draws advanced. *)
Fixpoint shoot_ray_to_light_loop (n : nat) (intersection : Intersection F)
    : Traced F (float3 F * Intersection F) :=
  match n with
  | O => ret (make_float3_s (f_of_Z 0), intersection)
  | S n' =>
      let '(dir, s) :=
        shoot_ray_hemisphere (normal intersection) (seed intersection) in
      let intersection := set_seed s intersection in
      temp <- trace_occlusion (handle params) (xyz intersection) dir
                (f_lit 1 (-6)) (f_lit 1 16) (Intersection_new garbage) ;;
      if hit temp then
        let d := clamp (dot (normal intersection) dir) (f_of_Z 0) (f_of_Z 1) in
        ret (smul3 d (emission_color (material temp)), intersection)
      else shoot_ray_to_light_loop n' intersection
  end.

Definition count : nat := 7.

Definition shoot_ray_to_light (intersection : Intersection F)
    : Traced F (float3 F * Intersection F) :=
  shoot_ray_to_light_loop count intersection.

Definition barycentric_normal (hit_point n1 n2 n3 v1 v2 v3 : float3 F)
    : float3 F :=
  let edge1 := sub3 v2 v1 in
  let edge2 := sub3 v3 v1 in
  let i := sub3 hit_point v1 in
  let d00 := dot edge1 edge1 in
  let d01 := dot edge1 edge2 in
  let d11 := dot edge2 edge2 in
  let d20 := dot i edge1 in
  let d21 := dot i edge2 in
  let denom := d00 * d11 - d01 * d01 in
  let w := (d00 * d21 - d01 * d20) / denom in
  let v := (d11 * d20 - d01 * d21) / denom in
  let u := f_of_Z 1 - v - w in
  add3 (add3 (smul3 u n1) (smul3 v n2)) (smul3 w n3).

(** [h] is the hit the walk reported, [ray_origin] and [ray_dir] the ray
    ([optixGetWorldRayOrigin], [optixGetWorldRayDirection]). *)
Definition __closesthit__radiance (h : HitInfo F (HitGroupData F))
    (ray_origin ray_dir : float3 F) (intersection : Intersection F)
    : Traced F (Intersection F) :=
  let rt_data := sbt_data h in
  if emit (rt_material rt_data) then
    let intersection :=
      set_accum_color
        (add3 (accum_color intersection)
              (mul3 (emission_color (rt_material rt_data))
                    (mask_color intersection)))
        intersection in
    ret (set_done true intersection)
  else
    let prim_idx := primitive_index h in
    let vert_idx_offset := wrap_int (prim_idx * 3) in
    let intersection :=
      set_xyz (add3 ray_origin (smul3 (ray_tmax h) ray_dir)) intersection in
    let v1 := vertices rt_data (vert_idx_offset + 0)%Z in
    let v2 := vertices rt_data (vert_idx_offset + 1)%Z in
    let v3 := vertices rt_data (vert_idx_offset + 2)%Z in
    let n1 := normals rt_data (vert_idx_offset + 0)%Z in
    let n2 := normals rt_data (vert_idx_offset + 1)%Z in
    let n3 := normals rt_data (vert_idx_offset + 2)%Z in
    let intersection :=
      set_normal (barycentric_normal (xyz intersection) n1 n2 n3 v1 v2 v3)
                 intersection in
    let intersection :=
      set_mask_color
        (mul3 (mask_color intersection) (diffuse_color (rt_material rt_data)))
        intersection in
    '(light, intersection) <- shoot_ray_to_light intersection ;;
    ret (set_accum_color
           (add3 (accum_color intersection)
                 (mul3 light (mask_color intersection)))
           intersection).

Definition trace_radiance (handle : Scene F (HitGroupData F))
    (ray_origin ray_direction : float3 F) (tmin tmax : F)
    (inter : Intersection F) : Traced F (Intersection F) :=
  _ <- issue (QRadiance ray_origin ray_direction tmin tmax) ;;
  match closest_hit handle ray_origin ray_direction tmin tmax with
  | Some h => __closesthit__radiance h ray_origin ray_direction inter
  | None => ret (__miss__radiance (miss_data handle) inter)
  end.

(** *** Ray generation *)

Definition nb_bounces : nat := 3.

(** The bounce loop, [n] iterations left.  Its variables are the payload,
    the ray and the local [seed]; the payload and the seed outlive it. *)
Fixpoint bounce_loop (n : nat) (intersection : Intersection F)
    (ray_origin ray_direction : float3 F) (s : uint)
    : Traced F (Intersection F * uint) :=
  match n with
  | O => ret (intersection, s)
  | S n' =>
      let intersection := set_done false intersection in
      intersection <- trace_radiance (handle params) ray_origin ray_direction
                        (f_lit 1 (-6)) (f_lit 1 16) intersection ;;
      if done intersection then ret (intersection, s)
      else
        let '(ray_direction, _) :=
          shoot_ray_hemisphere (normal intersection) s in
        let ray_origin := xyz intersection in
        let s := seed intersection in
        bounce_loop n' intersection ray_origin ray_direction s
  end.

(** [antialiasing_jitter] of one sample, and the seed after its two draws *)
Definition antialiasing_jitter (s : uint) : float2 F * uint :=
  let '(a, s) := rng s in
  let '(b, s) := rng s in
  (normalize2 (make_float2 a b), s).

(** The body of the sample loop: one path from the eye.  It returns the
    payload the path ends with and the seed for the next sample. *)
Definition sample (idx2 size : float2 F) (s : uint)
    : Traced F (Intersection F * uint) :=
  let intersection := set_seed s (Intersection_new garbage) in
  let '(jitter, s) := antialiasing_jitter s in
  let d :=
    make_float3_2s
      (sub2_s (div2 (add2 (smul2 (f_of_Z 2) idx2) jitter) size) (f_of_Z 1))
      (f_of_Z 1) in
  let ray_direction :=
    normalize (add3 (add3 (smul3 (fx d) (U params)) (smul3 (fy d) (V params)))
                    (W params)) in
  let ray_origin := eye params in
  bounce_loop nb_bounces intersection ray_origin ray_direction s.

Fixpoint sample_loop (n : nat) (idx2 size : float2 F) (s : uint)
    (accum : float3 F) : Traced F (float3 F * uint) :=
  match n with
  | O => ret (accum, s)
  | S n' =>
      '(intersection, s) <- sample idx2 size s ;;
      sample_loop n' idx2 size s (add3 accum (accum_color intersection))
  end.

(** [__raygen__rg] up to the division by the sample count: the estimate of
    this launch for the pixel [(idx_x, idx_y)], the mean of its samples. *)
Definition pixel_estimate (idx_x idx_y : uint) : Traced F (float3 F) :=
  let size := make_float2 (f_of_Z (width params)) (f_of_Z (height params)) in
  let idx2 := make_float2 (f_of_Z idx_x) (f_of_Z idx_y) in
  let s :=
    tea4 (f_to_uint (f_of_Z idx_y * x2 size + f_of_Z idx_x))
         (wrap32 (subframe_index params)) in
  '(accum, _) <- sample_loop (Z.to_nat (samples_per_launch params)) idx2 size
                   s (make_float3_s (f_of_Z 0)) ;;
  ret (div3_s accum (f_of_Z (samples_per_launch params))).

Definition __raygen__rg (idx_x idx_y : uint)
    : Traced F (Params F (HitGroupData F) uchar4) :=
  accum <- pixel_estimate idx_x idx_y ;;
  ret (accumulate make_color params idx_x idx_y accum).
End Programs.
End Shader.

(** [refract] of [shader.cu].  [abs] and the comparison [>] of [float]
    are parameters; the comparison gives the [bool] that [make_float3]
    receives as 0 or 1. *)
Section Refraction.
Context {F : Type} {FO : FloatOps F}.
Local Open Scope float_scope.
Variable fabsf : F -> F.
Variable fgt : F -> F -> bool.

Definition refract (i n : float3 F) (eta : F) : float3 F :=
  let cosi := dot (neg3 i) n in
  let cost2 := f_of_Z 1 - eta * eta * (f_of_Z 1 - cosi * cosi) in
  let t :=
    add3 (smul3 eta i) (smul3 (eta * cosi - sqrtf (fabsf cost2)) n) in
  mul3 t (make_float3_s (f_of_Z (if fgt cost2 (f_of_Z 0) then 1 else 0))).
End Refraction.

(** ** shader2.cu

    The older variant.  It differs from [shader.cu] in the hemisphere
    sampler (face-forward first, then normalise; the seed is the payload's),
    in the occlusion probes (run on the caller's payload, not on a fresh
    one), in the shading normal (the geometric normal of the triangle) and
    in the ray generation (no normalisation of the jitter, [tmin = 0.01]). *)

Module Shader2.
Section Programs.
Context {F : Type} {FO : FloatOps F}.
Local Open Scope float_scope.
Local Open Scope traced_scope.

Variable rnd : uint -> F * uint.
Variable tea4 : uint -> uint -> uint.
Variable uchar4 : Type.
Variable make_color : float3 F -> uchar4.
Variable params : Params F (HitGroupData2 F) uchar4.
Variable garbage : Intersection F.

Definition rng (seed : uint) : F * uint :=
  let '(r, seed) := rnd seed in (r * f_of_Z 2 - f_of_Z 1, seed).

(** The direction, and the payload with its seed advanced by three draws. *)
Definition shoot_ray_hemisphere (intersection : Intersection F)
    : float3 F * Intersection F :=
  let '(a, s) := rng (seed intersection) in
  let '(b, s) := rng s in
  let '(c, s) := rng s in
  let intersection := set_seed s intersection in
  let random_dir := make_float3 a b c in
  (normalize (faceforward random_dir (normal intersection) random_dir),
   intersection).

Definition __miss__occlusion (intersection : Intersection F)
    : Intersection F :=
  set_hit false intersection.

Definition __closesthit__occlusion (rt_data : HitGroupData2 F)
    (intersection : Intersection F) : Intersection F :=
  if emit (rt_material2 rt_data)
  then set_hit true (set_material (rt_material2 rt_data) intersection)
  else intersection.

Definition trace_occlusion (handle : Scene F (HitGroupData2 F))
    (ray_origin ray_direction : float3 F) (tmin tmax : F)
    (inter : Intersection F) : Traced F (Intersection F) :=
  _ <- issue (QOcclusion ray_origin ray_direction tmin tmax) ;;
  match first_hit handle ray_origin ray_direction tmin tmax with
  | Some h => ret (__closesthit__occlusion (sbt_data h) inter)
  | None => ret (__miss__occlusion inter)
  end.

Definition __miss__radiance (rt_data : MissData F)
    (intersection : Intersection F) : Intersection F :=
  let intersection := set_done true intersection in
  set_accum_color
    (add3 (accum_color intersection)
          (mul3 (make_float3_4 (bg_color rt_data)) (mask_color intersection)))
    intersection.

(** The probes run on the caller's payload itself. *)
Fixpoint shoot_ray_to_light_loop (n : nat) (intersection : Intersection F)
    : Traced F (float3 F * Intersection F) :=
  match n with
  | O => ret (make_float3_s (f_of_Z 0), intersection)
  | S n' =>
      let '(dir, intersection) := shoot_ray_hemisphere intersection in
      intersection <- trace_occlusion (handle params) (xyz intersection) dir
                        (f_lit 1 (-2)) (f_lit 1 16) intersection ;;
      if hit intersection then
        let d := clamp (dot (normal intersection) dir) (f_of_Z 0) (f_of_Z 1) in
        ret (smul3 d (emission_color (material intersection)), intersection)
      else shoot_ray_to_light_loop n' intersection
  end.

Definition count : nat := 7.

Definition shoot_ray_to_light (intersection : Intersection F)
    : Traced F (float3 F * Intersection F) :=
  shoot_ray_to_light_loop count intersection.

Definition barycentric_normal (intersection : Intersection F)
    (v1 v2 v3 : float3 F) : float3 F :=
  let edge1 := sub3 v2 v1 in
  let edge2 := sub3 v3 v1 in
  let i := sub3 (xyz intersection) v1 in
  let d00 := dot edge1 edge1 in
  let d01 := dot edge1 edge2 in
  let d11 := dot edge2 edge2 in
  let d20 := dot i edge1 in
  let d21 := dot i edge2 in
  let denom := d00 * d11 - d01 * d01 in
  let v := (d11 * d20 - d01 * d21) / denom in
  let w := (d00 * d21 - d01 * d20) / denom in
  let u := f_of_Z 1 - v - w in
  mul3_s (normal intersection) (v + w + u).

Definition __closesthit__radiance (h : HitInfo F (HitGroupData2 F))
    (ray_origin ray_dir : float3 F) (intersection : Intersection F)
    : Traced F (Intersection F) :=
  let rt_data := sbt_data h in
  if emit (rt_material2 rt_data) then
    let intersection :=
      set_accum_color
        (add3 (accum_color intersection)
              (mul3 (emission_color (rt_material2 rt_data))
                    (mask_color intersection)))
        intersection in
    ret (set_done true intersection)
  else
    let intersection :=
      set_mask_color
        (mul3 (mask_color intersection) (diffuse_color (rt_material2 rt_data)))
        intersection in
    let prim_idx := primitive_index h in
    let vert_idx_offset := wrap_int (prim_idx * 3) in
    let v1 := make_float3_4 (vertices2 rt_data (vert_idx_offset + 0)%Z) in
    let v2 := make_float3_4 (vertices2 rt_data (vert_idx_offset + 1)%Z) in
    let v3 := make_float3_4 (vertices2 rt_data (vert_idx_offset + 2)%Z) in
    let N_0 := normalize (cross (sub3 v2 v1) (sub3 v3 v1)) in
    let intersection :=
      set_normal (faceforward N_0 (neg3 ray_dir) N_0) intersection in
    let intersection :=
      set_xyz (add3 ray_origin (smul3 (ray_tmax h) ray_dir)) intersection in
    let intersection :=
      set_normal (barycentric_normal intersection v1 v2 v3) intersection in
    '(light, intersection) <- shoot_ray_to_light intersection ;;
    ret (set_accum_color
           (add3 (accum_color intersection)
                 (mul3 light (mask_color intersection)))
           intersection).

Definition trace_radiance (handle : Scene F (HitGroupData2 F))
    (ray_origin ray_direction : float3 F) (tmin tmax : F)
    (inter : Intersection F) : Traced F (Intersection F) :=
  _ <- issue (QRadiance ray_origin ray_direction tmin tmax) ;;
  match closest_hit handle ray_origin ray_direction tmin tmax with
  | Some h => __closesthit__radiance h ray_origin ray_direction inter
  | None => ret (__miss__radiance (miss_data handle) inter)
  end.

Definition nb_bounces : nat := 3.

(** Here the local seed of [__raygen__rg] is not touched by the loop; the
    draws go through the payload. *)
Fixpoint bounce_loop (n : nat) (intersection : Intersection F)
    (ray_origin ray_direction : float3 F) : Traced F (Intersection F) :=
  match n with
  | O => ret intersection
  | S n' =>
      let intersection := set_done false intersection in
      intersection <- trace_radiance (handle params) ray_origin ray_direction
                        (f_lit 1 (-2)) (f_lit 1 16) intersection ;;
      if done intersection then ret intersection
      else
        let ray_origin := xyz intersection in
        let '(ray_direction, intersection) :=
          shoot_ray_hemisphere intersection in
        bounce_loop n' intersection ray_origin ray_direction
  end.

Definition antialiasing_jitter (s : uint) : float2 F * uint :=
  let '(a, s) := rng s in
  let '(b, s) := rng s in
  (make_float2 a b, s).

Definition sample (idx2 size : float2 F) (s : uint)
    : Traced F (Intersection F * uint) :=
  let intersection := set_seed s (Intersection_new garbage) in
  let '(jitter, s) := antialiasing_jitter s in
  let d :=
    make_float3_2s
      (sub2_s (div2 (add2 (smul2 (f_of_Z 2) idx2) jitter) size) (f_of_Z 1))
      (f_of_Z 1) in
  let ray_direction :=
    normalize (add3 (add3 (smul3 (fx d) (U params)) (smul3 (fy d) (V params)))
                    (W params)) in
  let ray_origin := eye params in
  intersection <- bounce_loop nb_bounces intersection ray_origin
                    ray_direction ;;
  ret (intersection, s).

Fixpoint sample_loop (n : nat) (idx2 size : float2 F) (s : uint)
    (accum : float3 F) : Traced F (float3 F * uint) :=
  match n with
  | O => ret (accum, s)
  | S n' =>
      '(intersection, s) <- sample idx2 size s ;;
      sample_loop n' idx2 size s (add3 accum (accum_color intersection))
  end.

Definition pixel_estimate (idx_x idx_y : uint) : Traced F (float3 F) :=
  let size := make_float2 (f_of_Z (width params)) (f_of_Z (height params)) in
  let idx2 := make_float2 (f_of_Z idx_x) (f_of_Z idx_y) in
  let s :=
    tea4 (f_to_uint (f_of_Z idx_y * x2 size + f_of_Z idx_x))
         (wrap32 (subframe_index params)) in
  '(accum, _) <- sample_loop (Z.to_nat (samples_per_launch params)) idx2 size
                   s (make_float3_s (f_of_Z 0)) ;;
  ret (div3_s accum (f_of_Z (samples_per_launch params))).

Definition __raygen__rg (idx_x idx_y : uint)
    : Traced F (Params F (HitGroupData2 F) uchar4) :=
  accum <- pixel_estimate idx_x idx_y ;;
  ret (accumulate make_color params idx_x idx_y accum).
End Programs.
End Shader2.

(** The two trip counts stay folded when a goal is simplified. *)
Arguments Shader.count : simpl never.
Arguments Shader.nb_bounces : simpl never.
Arguments Shader2.count : simpl never.
Arguments Shader2.nb_bounces : simpl never.

(** ** random.h *)

(** Modelled from the spec: the random sequence generator of [random.h],
    which the shader files include.  The spec asks for a deterministic,
    seed-driven scalar stream and a pixel-and-frame hash for the first
    seed; the recurrences below are those of the OptiX SDK header of that
    name.  The shader programs take the generator as a parameter; this one
    is the instance the theorems are tried on. *)
Module Random.
Local Open Scope Z_scope.

Definition LCG_A : Z := 1664525.
Definition LCG_C : Z := 1013904223.

(** [lcg(prev)]: the new state, and its low 24 bits as the result *)
Definition lcg (prev : uint) : uint * uint :=
  let prev := wrap32 (LCG_A * prev + LCG_C) in
  (Z.land prev 0x00FFFFFF, prev).

(** [rnd(prev)]: a scalar in [0, 1) *)
Definition rnd {F : Type} {FO : FloatOps F} (prev : uint) : F * uint :=
  let '(r, prev) := lcg prev in
  ((f_of_Z r / f_of_Z 0x01000000)%f, prev).

Fixpoint tea_loop (n : nat) (v0 v1 s0 : uint) : uint :=
  match n with
  | O => v0
  | S n' =>
      let s0 := wrap32 (s0 + 0x9e3779b9) in
      let v0 :=
        wrap32 (v0 + Z.lxor (Z.lxor (wrap32 (wrap32 (Z.shiftl v1 4) + 0xa341316c))
                                    (wrap32 (v1 + s0)))
                            (wrap32 (Z.shiftr v1 5 + 0xc8013ea4))) in
      let v1 :=
        wrap32 (v1 + Z.lxor (Z.lxor (wrap32 (wrap32 (Z.shiftl v0 4) + 0xad90777d))
                                    (wrap32 (v0 + s0)))
                            (wrap32 (Z.shiftr v0 5 + 0x7e95761e))) in
      tea_loop n' v0 v1 s0
  end.

(** [tea<N>(val0, val1)] *)
Definition tea (N : nat) (val0 val1 : uint) : uint :=
  tea_loop N (wrap32 val0) (wrap32 val1) 0.
End Random.

(** ** Counting the queries of a computation *)

Section Counting.
Context {F : Type}.

Definition count_radiance (l : list (Query F)) : nat :=
  length (filter is_radiance l).
Definition count_occlusion (l : list (Query F)) : nat :=
  length (filter is_occlusion l).
End Counting.


(** ** Vocabulary of the properties *)

Section PayloadRelations.
Context {F : Type}.

(** Two payloads that differ at most in [hit] and [material]. *)
Definition same_but_hit_material (i i' : Intersection F) : Prop :=
  normal i' = normal i /\ xyz i' = xyz i /\
  mask_color i' = mask_color i /\ accum_color i' = accum_color i /\
  done i' = done i /\ seed i' = seed i.

(** A probe leaves the geometry, the colours and [done] alone. *)
Definition same_path (i i' : Intersection F) : Prop :=
  normal i' = normal i /\ xyz i' = xyz i /\
  mask_color i' = mask_color i /\ accum_color i' = accum_color i /\
  done i' = done i.

(** Two payloads with the same live part: the members [Intersection] gives
    an initial value to, and the seed.  [material], [normal] and [xyz] may
    still hold what the storage held. *)
Definition same_live (i1 i2 : Intersection F) : Prop :=
  mask_color i1 = mask_color i2 /\ accum_color i1 = accum_color i2 /\
  hit i1 = hit i2 /\ done i1 = done i2 /\ seed i1 = seed i2.

(** The same shading point. *)
Definition same_point (i1 i2 : Intersection F) : Prop :=
  normal i1 = normal i2 /\ xyz i1 = xyz i2.

(** The same live part for [shader2.cu], whose light sampler reads the
    payload's material once [hit] is set. *)
Definition same_live2 (i1 i2 : Intersection F) : Prop :=
  same_live i1 i2 /\ (hit i1 = true -> material i1 = material i2).

(** Two launches of the same frame: everything but the two buffers. *)
Definition same_launch {Data uchar4 : Type} (p1 p2 : Params F Data uchar4)
    : Prop :=
  width p1 = width p2 /\ height p1 = height p2 /\ eye p1 = eye p2 /\
  U p1 = U p2 /\ V p1 = V p2 /\ W p1 = W p2 /\
  subframe_index p1 = subframe_index p2 /\
  samples_per_launch p1 = samples_per_launch p2 /\
  handle p1 = handle p2.
End PayloadRelations.

(** *** The probes of the light sampler, [shader.cu] *)

Section ShaderProbes.
Context {F : Type} {FO : FloatOps F}.
Variable rnd : uint -> F * uint.
Variable uchar4 : Type.
Variable params : Params F (HitGroupData F) uchar4.
Variable garbage : Intersection F.

(** The seed the payload holds before probe [k], [s] being the seed
    before the first probe: each probe takes the three draws of one
    hemisphere sample. *)
Fixpoint probe_seed (nrm : float3 F) (k : nat) (s : uint) : uint :=
  match k with
  | O => s
  | S k' => probe_seed nrm k' (snd (Shader.shoot_ray_hemisphere rnd nrm s))
  end.

(** Direction of probe [k] from the shading point of [i]. *)
Definition probe_dir (i : Intersection F) (k : nat) : float3 F :=
  fst (Shader.shoot_ray_hemisphere rnd (normal i)
         (probe_seed (normal i) k (seed i))).

(** The query of probe [k] and the temporary payload it leaves. *)
Definition probe_query (i : Intersection F) (k : nat) : Query F :=
  QOcclusion (xyz i) (probe_dir i k) (f_lit 1 (-6)) (f_lit 1 16).

Definition probe_temp (i : Intersection F) (k : nat) : Intersection F :=
  value (Shader.trace_occlusion (handle params) (xyz i) (probe_dir i k)
           (f_lit 1 (-6)) (f_lit 1 16) (Intersection_new garbage)).
End ShaderProbes.

(** *** The probes of the light sampler, [shader2.cu] *)

Section Shader2Probes.
Context {F : Type} {FO : FloatOps F}.
Variable rnd : uint -> F * uint.
Variable uchar4 : Type.
Variable params : Params F (HitGroupData2 F) uchar4.

(** One probe on the payload [i]: its direction, its query, and the
    payload once the query is over. *)
Definition probe2_dir (i : Intersection F) : float3 F :=
  fst (Shader2.shoot_ray_hemisphere rnd i).

Definition probe2_query (i : Intersection F) : Query F :=
  QOcclusion (xyz (snd (Shader2.shoot_ray_hemisphere rnd i)))
             (probe2_dir i) (f_lit 1 (-2)) (f_lit 1 16).

Definition probe2 (i : Intersection F) : Intersection F :=
  value (Shader2.trace_occlusion (handle params)
           (xyz (snd (Shader2.shoot_ray_hemisphere rnd i))) (probe2_dir i)
           (f_lit 1 (-2)) (f_lit 1 16)
           (snd (Shader2.shoot_ray_hemisphere rnd i))).

(** The payload before probe [k], as long as the loop goes on. *)
Fixpoint payload2 (k : nat) (i : Intersection F) : Intersection F :=
  match k with
  | O => i
  | S k' => payload2 k' (probe2 i)
  end.
End Shader2Probes.


(** *** Successive launches on one pixel *)

Section Frames.
Context {F : Type} {FO : FloatOps F}.
Context {Data uchar4 : Type}.
Variable make_color : float3 F -> uchar4.

(** The launches of frame indices [k], [k+1], ... store the estimates [es]
    of the pixel [(idx_x, idx_y)], one after the other; each launch finds
    the buffers as the one before left them. *)
Fixpoint accumulate_frames (p : Params F Data uchar4) (idx_x idx_y : uint)
    (es : list (float3 F)) (k : Z) : Params F Data uchar4 :=
  match es with
  | [] => p
  | e :: es' =>
      accumulate_frames
        (accumulate make_color (set_subframe_index p k) idx_x idx_y e)
        idx_x idx_y es' (k + 1)
  end.

(** The colour in the pixel's cell of the accumulation buffer. *)
Definition pixel_cell (p : Params F Data uchar4) (idx_x idx_y : uint)
    : float3 F :=
  make_float3_4 (accum_buffer p (wrap32 (idx_y * width p + idx_x))).

Definition sum3 (es : list (float3 F)) : float3 F :=
  fold_right add3 (make_float3_s (f_of_Z 0)) es.

(** The arithmetic mean of a list of colours, channel by channel. *)
Definition mean3 (es : list (float3 F)) : float3 F :=
  let n := f_of_Z (Z.of_nat (length es)) in
  make_float3 (fx (sum3 es) / n)%f (fy (sum3 es) / n)%f (fz (sum3 es) / n)%f.
End Frames.

(** *** Successive draws of a generator *)

Section Draws.
Context {F : Type}.

(** Two and three successive draws of [rng], with the seed they leave. *)
Definition draws2 (rng : uint -> F * uint) (s : uint) : float2 F * uint :=
  let '(a, s) := rng s in
  let '(b, s) := rng s in
  (make_float2 a b, s).

Definition draws3 (rng : uint -> F * uint) (s : uint) : float3 F * uint :=
  let '(a, s) := rng s in
  let '(b, s) := rng s in
  let '(c, s) := rng s in
  (make_float3 a b c, s).
End Draws.

(** *** Colours over the real numbers *)

Section RealColours.
Local Open Scope R_scope.

(** Channel by channel. *)
Definition le3 (a b : float3 R) : Prop :=
  fx a <= fx b /\ fy a <= fy b /\ fz a <= fz b.

Definition unit_colour (c : float3 R) : Prop :=
  le3 (make_float3 0 0 0) c /\ le3 c (make_float3 1 1 1).

(** Every surface a radiance ray can end on has an albedo within [0,1]. *)
Definition albedos_in_unit {Data : Type} (albedo : Data -> float3 R)
    (sc : Scene R Data) : Prop :=
  forall o d tmin tmax h,
    closest_hit sc o d tmin tmax = Some h -> unit_colour (albedo (sbt_data h)).
End RealColours.

(** ** Scenes the properties are tried on *)

(** ** A lamp seen from a point with a long normal *)

Module Lit.
Local Open Scope R_scope.

Definition lamp : Material R :=
  {| diffuse_color := make_float3 0 0 0;
     emission_color := make_float3 1 1 1;
     emit := true |}.

Definition lamp_data : HitGroupData R :=
  {| rt_material := lamp;
     vertices := fun _ => make_float3 0 0 5;
     normals := fun _ => make_float3 0 0 (-1) |}.

Definition lamp_hit : HitInfo R (HitGroupData R) :=
  {| sbt_data := lamp_data; primitive_index := 0%Z; ray_tmax := 5 |}.

(** The lamp fills the sky: every ray ends on it. *)
Definition scene : Scene R (HitGroupData R) :=
  {| closest_hit := fun _ _ _ _ => Some lamp_hit;
     first_hit := fun _ _ _ _ => Some lamp_hit;
     miss_data := {| bg_color := make_float4 0 0 0 1 |} |}.

Definition params : Params R (HitGroupData R) unit :=
  {| width := 1%Z; height := 1%Z;
     eye := make_float3 0 0 0;
     U := make_float3 1 0 0; V := make_float3 0 1 0; W := make_float3 0 0 1;
     subframe_index := 0%Z; samples_per_launch := 1%Z;
     handle := scene;
     accum_buffer := fun _ => make_float4 0 0 0 0;
     frame_buffer := fun _ => tt |}.

Definition garbage : Intersection R :=
  {| material := lamp; normal := make_float3 0 0 0; xyz := make_float3 0 0 0;
     mask_color := make_float3 0 0 0; accum_color := make_float3 0 0 0;
     hit := false; done := false; seed := 0%Z |}.

(** A shading point whose normal has length two, as the interpolation of
    vertex normals of that length gives it. *)
Definition point : Intersection R :=
  {| material := lamp; normal := make_float3 0 0 2; xyz := make_float3 0 0 0;
     mask_color := make_float3 1 1 1; accum_color := make_float3 0 0 0;
     hit := false; done := false; seed := 0%Z |}.

(** The same launch over buffers left by some other history. *)
Definition params_other_buffers : Params R (HitGroupData R) unit :=
  set_buffers params (fun _ => make_float4 9 9 9 9) (fun _ => tt).

(** Three estimates of one pixel: red, green, blue. *)
Definition estimates : list (float3 R) :=
  [make_float3 1 0 0; make_float3 0 1 0; make_float3 0 0 1].
End Lit.


(** *** Two bounces of [shader2.cu] between a lamp and a wall *)

Module StaleHit.
Local Open Scope R_scope.

Definition light : Material R :=
  {| diffuse_color := make_float3 0 0 0;
     emission_color := make_float3 1 1 1;
     emit := true |}.
Definition wall : Material R :=
  {| diffuse_color := make_float3 (1/2) (1/2) (1/2);
     emission_color := make_float3 0 0 0;
     emit := false |}.

(** Two triangles of wall: primitive 0 in the plane [z = 1], primitive 1
    in the plane [z = -2]. *)
Definition wall_vertices (k : Z) : float4 R :=
  match k with
  | 0%Z => make_float4 (-1) (-1) 1 1
  | 1%Z => make_float4 1 (-1) 1 1
  | 2%Z => make_float4 0 1 1 1
  | 3%Z => make_float4 (-1) (-1) (-2) 1
  | 4%Z => make_float4 1 (-1) (-2) 1
  | _ => make_float4 0 1 (-2) 1
  end.
Definition wall_data : HitGroupData2 R :=
  {| rt_material2 := wall; vertices2 := wall_vertices |}.
Definition light_data : HitGroupData2 R :=
  {| rt_material2 := light; vertices2 := fun _ => make_float4 0 0 5 1 |}.

Definition hit_front : HitInfo R (HitGroupData2 R) :=
  {| sbt_data := wall_data; primitive_index := 0%Z; ray_tmax := 1 |}.
Definition hit_back : HitInfo R (HitGroupData2 R) :=
  {| sbt_data := wall_data; primitive_index := 1%Z; ray_tmax := 3 |}.
Definition hit_light : HitInfo R (HitGroupData2 R) :=
  {| sbt_data := light_data; primitive_index := 0%Z; ray_tmax := 4 |}.

(** The light is seen from the points with [z >= 0]; from below, a probe
    runs into the wall. *)
Definition scene : Scene R (HitGroupData2 R) :=
  {| closest_hit := fun o _ _ _ =>
       if Rlt_dec (fz o) 1 then Some hit_front else Some hit_back;
     first_hit := fun o _ _ _ =>
       if Rle_dec 0 (fz o) then Some hit_light else Some hit_back;
     miss_data := {| bg_color := make_float4 0 0 0 1 |} |}.

Definition params : Params R (HitGroupData2 R) unit :=
  {| width := 1%Z; height := 1%Z;
     eye := make_float3 0 0 0;
     U := make_float3 1 0 0; V := make_float3 0 1 0; W := make_float3 0 0 1;
     subframe_index := 0%Z; samples_per_launch := 1%Z;
     handle := scene;
     accum_buffer := fun _ => make_float4 0 0 0 0;
     frame_buffer := fun _ => tt |}.

Definition zero : Intersection R :=
  {| material := wall; normal := make_float3 0 0 0; xyz := make_float3 0 0 0;
     mask_color := make_float3 0 0 0; accum_color := make_float3 0 0 0;
     hit := false; done := false; seed := 0%Z |}.

(** The first bounce: the ray from the eye along [z] meets the front
    wall at [(0,0,1)]. *)
Definition bounce1 : Traced R (Intersection R) :=
  Shader2.__closesthit__radiance Random.rnd params hit_front
    (make_float3 0 0 0) (make_float3 0 0 1) (Intersection_new zero).
(** The second bounce: the ray from there back along [z] meets the back
    wall at [(0,0,-2)]. *)
Definition bounce2 : Traced R (Intersection R) :=
  Shader2.__closesthit__radiance Random.rnd params hit_back
    (xyz (value bounce1)) (make_float3 0 0 (-1))
    (set_done false (value bounce1)).
End StaleHit.



(** *** A closed room of diffuse walls, no lamp *)

Module Walls.
Local Open Scope R_scope.

Definition plaster : Material R :=
  {| diffuse_color := make_float3 (1/2) (1/4) 1;
     emission_color := make_float3 0 0 0;
     emit := false |}.

(** One triangle in the plane [z = 1], its vertex normals towards the eye. *)
Definition wall_data : HitGroupData R :=
  {| rt_material := plaster;
     vertices := fun k =>
       match k with
       | 0%Z => make_float3 (-4) (-4) 1
       | 1%Z => make_float3 4 (-4) 1
       | _ => make_float3 0 4 1
       end;
     normals := fun _ => make_float3 0 0 (-1) |}.

Definition wall_hit : HitInfo R (HitGroupData R) :=
  {| sbt_data := wall_data; primitive_index := 0%Z; ray_tmax := 1 |}.

(** Every ray ends on the wall; a probe stops there too. *)
Definition scene : Scene R (HitGroupData R) :=
  {| closest_hit := fun _ _ _ _ => Some wall_hit;
     first_hit := fun _ _ _ _ => Some wall_hit;
     miss_data := {| bg_color := make_float4 0 0 0 1 |} |}.

Definition params : Params R (HitGroupData R) unit :=
  {| width := 1%Z; height := 1%Z;
     eye := make_float3 0 0 0;
     U := make_float3 1 0 0; V := make_float3 0 1 0; W := make_float3 0 0 1;
     subframe_index := 0%Z; samples_per_launch := 1%Z;
     handle := scene;
     accum_buffer := fun _ => make_float4 0 0 0 0;
     frame_buffer := fun _ => tt |}.

Definition garbage : Intersection R :=
  {| material := plaster; normal := make_float3 0 0 0;
     xyz := make_float3 0 0 0;
     mask_color := make_float3 0 0 0; accum_color := make_float3 0 0 0;
     hit := false; done := false; seed := 0%Z |}.
End Walls.

(** *** An empty scene under a blue sky *)

Module Sky.
Local Open Scope R_scope.

Definition scene : Scene R (HitGroupData R) :=
  {| closest_hit := fun _ _ _ _ => None;
     first_hit := fun _ _ _ _ => None;
     miss_data := {| bg_color := make_float4 (1/4) (1/2) 1 1 |} |}.

(** Four samples a pixel, on a 640 by 480 image. *)
Definition params : Params R (HitGroupData R) unit :=
  {| width := 640%Z; height := 480%Z;
     eye := make_float3 0 0 0;
     U := make_float3 1 0 0; V := make_float3 0 1 0; W := make_float3 0 0 1;
     subframe_index := 0%Z; samples_per_launch := 4%Z;
     handle := scene;
     accum_buffer := fun _ => make_float4 0 0 0 0;
     frame_buffer := fun _ => tt |}.
End Sky.

(** *** The order of the real numbers as a test *)

Section RealTests.
Local Open Scope R_scope.

(** [a > b] *)
Definition Rgtb (a b : R) : bool := if Rlt_dec b a then true else false.
End RealTests.

(** *** What the eye sees directly *)

Section DirectlySeen.

(** Every ray from [o] ends its path at once, on the colour [c]: it
    leaves the scene under a background of that colour, or meets an
    emitter of that emission. *)
Definition seen_from {Data : Type} (mat : Data -> Material R)
    (sc : Scene R Data) (o c : float3 R) : Prop :=
  forall d tmin tmax,
    match closest_hit sc o d tmin tmax with
    | None => make_float3_4 (bg_color (miss_data sc)) = c
    | Some h => emit (mat (sbt_data h)) = true /\
                emission_color (mat (sbt_data h)) = c
    end.
End DirectlySeen.

(** *** Bounds on the colours of a scene *)

Section ColourBounds.
Local Open Scope R_scope.

(** The three channels of a colour, to reason on one at a time. *)
Inductive Channel : Type := Red | Green | Blue.

Definition ch (k : Channel) (c : float3 R) : R :=
  match k with Red => fx c | Green => fy c | Blue => fz c end.

(** Every channel of [c] lies within [[0, E]]. *)
Definition colour_within (E : R) (c : float3 R) : Prop :=
  forall k, 0 <= ch k c <= E.

(** A scene whose emitters and background emit at most [E] a channel and
    whose surfaces reflect at most what they receive. *)
Definition colours_within {Data : Type} (mat : Data -> Material R)
    (sc : Scene R Data) (E : R) : Prop :=
  (forall o d tmin tmax h,
      closest_hit sc o d tmin tmax = Some h ->
      colour_within 1 (diffuse_color (mat (sbt_data h))) /\
      colour_within E (emission_color (mat (sbt_data h)))) /\
  (forall o d tmin tmax h,
      first_hit sc o d tmin tmax = Some h ->
      colour_within E (emission_color (mat (sbt_data h)))) /\
  colour_within E (make_float3_4 (bg_color (miss_data sc))).

(** [b] exceeds [a] by something within [[0, E]], channel by channel. *)
Definition grows_within (E : R) (a b : float3 R) : Prop :=
  forall k, ch k a <= ch k b <= ch k a + E.

(** In [shader2.cu] the material beside a set [hit] flag is what the
    light sampler reads. *)
Definition lit_within (E : R) (i : Intersection R) : Prop :=
  hit i = true -> colour_within E (emission_color (material i)).
End ColourBounds.

(** *** The camera ray *)

Section CameraRay.
Context {F : Type} {FO : FloatOps F}.
Local Open Scope float_scope.

(** The direction [__raygen__rg] gives the primary ray of a sample, from
    the pixel, the image size and the sample's jitter. *)
Definition camera_ray_direction {Data uchar4 : Type}
    (p : Params F Data uchar4) (idx2 size jitter : float2 F) : float3 F :=
  let d :=
    make_float3_2s
      (sub2_s (div2 (add2 (smul2 (f_of_Z 2) idx2) jitter) size) (f_of_Z 1))
      (f_of_Z 1) in
  normalize (add3 (add3 (smul3 (fx d) (U p)) (smul3 (fy d) (V p))) (W p)).
End CameraRay.

(** *** The emitter a probe ends on *)

Section Emitters.
Context {F : Type} {FO : FloatOps F}.
Variable rnd : uint -> F * uint.
Variable uchar4 : Type.

(** What a probe finds: the material of the first object on its way when
    that object emits; nothing for a non-emitter, and nothing for a miss. *)
Definition emitter {Data : Type} (mat : Data -> Material F)
    (found : option (HitInfo F Data)) : option (Material F) :=
  match found with
  | Some h =>
      if emit (mat (sbt_data h)) then Some (mat (sbt_data h)) else None
  | None => None
  end.

(** Probe [k] of [shader.cu] from the shading point of [i]. *)
Definition probe_emitter (params : Params F (HitGroupData F) uchar4)
    (i : Intersection F) (k : nat) : option (Material F) :=
  emitter (@rt_material F)
    (first_hit (handle params) (xyz i) (probe_dir rnd i k)
               (f_lit 1 (-6)) (f_lit 1 16)).

(** The probe of [shader2.cu] on the payload [i]. *)
Definition probe2_emitter (params : Params F (HitGroupData2 F) uchar4)
    (i : Intersection F) : option (Material F) :=
  emitter (@rt_material2 F)
    (first_hit (handle params) (xyz i) (probe2_dir rnd i)
               (f_lit 1 (-2)) (f_lit 1 16)).
End Emitters.

(** *** Signed samples *)

Section SignedDraws.
Context {F : Type} {FO : FloatOps F}.
Local Open Scope float_scope.

(** The signed sample [rng] makes of the scalar [u] that [rnd] returned. *)
Definition signed (u : F) : F := u * f_of_Z 2 - f_of_Z 1.

Definition signed3 (d : float3 F) : float3 F :=
  make_float3 (signed (fx d)) (signed (fy d)) (signed (fz d)).
End SignedDraws.

(** *** A floor whose vertex normals have length two *)

Module Floor.
Local Open Scope R_scope.

Definition v1 : float3 R := make_float3 (-4) (-4) 0.
Definition v2 : float3 R := make_float3 4 (-4) 0.
Definition v3 : float3 R := make_float3 0 4 0.

(** The normal the mesh gives each of the three vertices. *)
Definition vertex_normal : float3 R := make_float3 0 0 2.

Definition tiles : Material R :=
  {| diffuse_color := make_float3 (3/4) (3/4) (3/4);
     emission_color := make_float3 0 0 0;
     emit := false |}.

(** One triangle in the plane [z = 0]. *)
Definition floor_data : HitGroupData R :=
  {| rt_material := tiles;
     vertices := fun k =>
       match k with
       | 0%Z => v1
       | 1%Z => v2
       | _ => v3
       end;
     normals := fun _ => vertex_normal |}.

Definition floor_hit : HitInfo R (HitGroupData R) :=
  {| sbt_data := floor_data; primitive_index := 0%Z; ray_tmax := 1 |}.

(** A ray ends on the floor; a probe from the floor ends on the lamp of
    [Lit], which fills the sky. *)
Definition scene : Scene R (HitGroupData R) :=
  {| closest_hit := fun _ _ _ _ => Some floor_hit;
     first_hit := fun _ _ _ _ => Some Lit.lamp_hit;
     miss_data := {| bg_color := make_float4 0 0 0 1 |} |}.

Definition params : Params R (HitGroupData R) unit :=
  {| width := 1%Z; height := 1%Z;
     eye := make_float3 0 0 1;
     U := make_float3 1 0 0; V := make_float3 0 1 0; W := make_float3 0 0 (-1);
     subframe_index := 0%Z; samples_per_launch := 1%Z;
     handle := scene;
     accum_buffer := fun _ => make_float4 0 0 0 0;
     frame_buffer := fun _ => tt |}.

(** The ray from [(0,0,1)] straight down meets the floor at the origin:
    [__closesthit__radiance] of [shader.cu] there, on a fresh payload. *)
Definition bounce : Traced R (Intersection R) :=
  Shader.__closesthit__radiance Random.rnd params Walls.garbage floor_hit
    (make_float3 0 0 1) (make_float3 0 0 (-1))
    (Intersection_new Walls.garbage).

(** The payload it hands to the light sampler. *)
Definition point : Intersection R :=
  let ray_origin := make_float3 0 0 1 in
  let ray_dir := make_float3 0 0 (-1) in
  let intersection := Intersection_new Walls.garbage in
  let intersection :=
    set_xyz (add3 ray_origin (smul3 (ray_tmax floor_hit) ray_dir))
            intersection in
  let intersection :=
    set_normal
      (Shader.barycentric_normal (xyz intersection)
         vertex_normal vertex_normal vertex_normal v1 v2 v3)
      intersection in
  set_mask_color (mul3 (mask_color intersection) (diffuse_color tiles))
                 intersection.
End Floor.

(** *** A point of [shader2.cu] in sight of the lamp *)

Module Seen.
Local Open Scope R_scope.

(** On the front wall of [StaleHit.scene], the flag down, the wall's
    material in the payload. *)
Definition point : Intersection R :=
  {| material := StaleHit.wall; normal := make_float3 0 0 1;
     xyz := make_float3 0 0 1;
     mask_color := make_float3 1 1 1; accum_color := make_float3 0 0 0;
     hit := false; done := false; seed := 0%Z |}.
End Seen.

(** *** The second bounce of [StaleHit] *)

Module SecondBounce.
Local Open Scope R_scope.

(** The payload [__closesthit__radiance] of [shader2.cu] hands to the light
    sampler at the second bounce of [StaleHit]: the payload the first
    bounce left, with the mask, the normal and the point of the back
    wall. *)
Definition point : Intersection R :=
  let ray_origin := xyz (value StaleHit.bounce1) in
  let ray_dir := make_float3 0 0 (-1) in
  let intersection := set_done false (value StaleHit.bounce1) in
  let intersection :=
    set_mask_color
      (mul3 (mask_color intersection) (diffuse_color StaleHit.wall))
      intersection in
  let v1 := make_float3_4 (StaleHit.wall_vertices 3) in
  let v2 := make_float3_4 (StaleHit.wall_vertices 4) in
  let v3 := make_float3_4 (StaleHit.wall_vertices 5) in
  let N_0 := normalize (cross (sub3 v2 v1) (sub3 v3 v1)) in
  let intersection :=
    set_normal (faceforward N_0 (neg3 ray_dir) N_0) intersection in
  let intersection :=
    set_xyz (add3 ray_origin (smul3 (ray_tmax StaleHit.hit_back) ray_dir))
            intersection in
  set_normal (Shader2.barycentric_normal intersection v1 v2 v3) intersection.
End SecondBounce.

(** *** A launch in single precision *)

Module Single.
Local Open Scope float_scope.

Definition scene : Scene binary32 (HitGroupData binary32) :=
  {| closest_hit := fun _ _ _ _ => None;
     first_hit := fun _ _ _ _ => None;
     miss_data :=
       {| bg_color :=
            make_float4 (f_of_Z 0) (f_of_Z 0) (f_of_Z 0) (f_of_Z 1) |} |}.

Definition params : Params binary32 (HitGroupData binary32) unit :=
  {| width := 1%Z; height := 1%Z;
     eye := make_float3 (f_of_Z 0) (f_of_Z 0) (f_of_Z 0);
     U := make_float3 (f_of_Z 1) (f_of_Z 0) (f_of_Z 0);
     V := make_float3 (f_of_Z 0) (f_of_Z 1) (f_of_Z 0);
     W := make_float3 (f_of_Z 0) (f_of_Z 0) (f_of_Z 1);
     subframe_index := 0%Z; samples_per_launch := 1%Z;
     handle := scene;
     accum_buffer :=
       fun _ => make_float4 (f_of_Z 0) (f_of_Z 0) (f_of_Z 0) (f_of_Z 0);
     frame_buffer := fun _ => tt |}.

(** White and black. *)
Definition white : float3 binary32 := make_float3_s (f_of_Z 1).
Definition black : float3 binary32 := make_float3_s (f_of_Z 0).

(** The greys [0.1f] and [0.7f]. *)
Definition grey1 : float3 binary32 := make_float3_s (f_lit 1 (-1)).
Definition grey7 : float3 binary32 := make_float3_s (f_lit 7 (-1)).

(** The mean of two colours as the specification writes it:
    [(a + b) / 2]. *)
Definition half_sum (a b : float3 binary32) : float3 binary32 :=
  make_float3 ((fx a + fx b) / f_of_Z 2) ((fy a + fy b) / f_of_Z 2)
              ((fz a + fz b) / f_of_Z 2).

(** The normal [(0, 0, 1)]. *)
Definition up : float3 binary32 :=
  make_float3 (f_of_Z 0) (f_of_Z 0) (f_of_Z 1).

(** A normal across the first sample drawn from the seed 0, whose signed
    draws are [(-2234690, -6270364, 10087890) / 2^24]. *)
Definition across : float3 binary32 :=
  make_float3 (f_of_Z 0) (f_of_Z 10087890 / f_of_Z 16777216)
              (f_of_Z 6270364 / f_of_Z 16777216).

(** The real number a [binary32] stands for; an infinity and a NaN stand
    for none, and are sent to 0. *)
Definition real (x : binary32) : R :=
  match x with
  | SpecFloat.S754_finite s m e =>
      (IZR (if s then Zneg m else Zpos m) * powerRZ 2 e)%R
  | _ => 0%R
  end.

Definition real3 (v : float3 binary32) : float3 R :=
  make_float3 (real (fx v)) (real (fy v)) (real (fz v)).

(** A payload of [shader2.cu] with the normal [n] and the seed 0. *)
Definition payload (n : float3 binary32) : Intersection binary32 :=
  {| material :=
       {| diffuse_color := black; emission_color := black; emit := false |};
     normal := n; xyz := black;
     mask_color := white; accum_color := black;
     hit := false; done := false; seed := 0%Z |}.
End Single.
(** * Properties *)

(** ** Computations with a query log *)

Section TracedFacts.
Context {F : Type}.

Lemma value_ret (A : Type) (a : A) : value (ret (F := F) a) = a.
Proof. reflexivity. Qed.

Lemma queries_ret (A : Type) (a : A) : queries (ret (F := F) a) = [].
Proof. reflexivity. Qed.

Lemma value_bind (A B : Type) (m : Traced F A) (k : A -> Traced F B) :
  value (bind m k) = value (k (value m)).
Proof.
  unfold bind, value. destruct m as [a l1]. simpl.
  destruct (k a); reflexivity.
Qed.

Lemma queries_bind (A B : Type) (m : Traced F A) (k : A -> Traced F B) :
  queries (bind m k) = queries m ++ queries (k (value m)).
Proof.
  unfold bind, value, queries. destruct m as [a l1]. simpl.
  destruct (k a); reflexivity.
Qed.

Lemma bind_ext (A B : Type) (m : Traced F A) (k1 k2 : A -> Traced F B) :
  (forall a, k1 a = k2 a) -> bind m k1 = bind m k2.
Proof.
  intros H. unfold bind. destruct m as [a l]. rewrite (H a). reflexivity.
Qed.

Lemma map_seq_S (A : Type) (f : nat -> A) (n : nat) :
  map f (seq 0 (S n)) = f 0%nat :: map (fun k => f (S k)) (seq 0 n).
Proof. simpl. f_equal. now rewrite <- seq_shift, map_map. Qed.

Lemma count_radiance_app (l1 l2 : list (Query F)) :
  count_radiance (l1 ++ l2) = (count_radiance l1 + count_radiance l2)%nat.
Proof. unfold count_radiance. now rewrite filter_app, length_app. Qed.

Lemma count_occlusion_app (l1 l2 : list (Query F)) :
  count_occlusion (l1 ++ l2) = (count_occlusion l1 + count_occlusion l2)%nat.
Proof. unfold count_occlusion. now rewrite filter_app, length_app. Qed.
End TracedFacts.

(** ** The occlusion programs touch [hit] and [material] only *)

Section OcclusionFrame.
Context {F : Type}.


Lemma shader_miss_occlusion_frame (i : Intersection F) :
  same_but_hit_material i (Shader.__miss__occlusion i).
Proof. unfold same_but_hit_material; simpl; tauto. Qed.

Lemma shader_closesthit_occlusion_frame (rt : HitGroupData F)
    (i : Intersection F) :
  same_but_hit_material i (Shader.__closesthit__occlusion rt i).
Proof.
  unfold same_but_hit_material, Shader.__closesthit__occlusion.
  destruct (emit (rt_material rt)); simpl; tauto.
Qed.

Lemma shader_trace_occlusion_value (sc : Scene F (HitGroupData F))
    (o d : float3 F) (tmin tmax : F) (i : Intersection F) :
  value (Shader.trace_occlusion sc o d tmin tmax i) =
  match first_hit sc o d tmin tmax with
  | Some h => Shader.__closesthit__occlusion (sbt_data h) i
  | None => Shader.__miss__occlusion i
  end.
Proof.
  unfold Shader.trace_occlusion. rewrite value_bind.
  destruct (first_hit sc o d tmin tmax); reflexivity.
Qed.

Lemma shader_trace_occlusion_queries (sc : Scene F (HitGroupData F))
    (o d : float3 F) (tmin tmax : F) (i : Intersection F) :
  queries (Shader.trace_occlusion sc o d tmin tmax i) =
  [QOcclusion o d tmin tmax].
Proof.
  unfold Shader.trace_occlusion. rewrite queries_bind.
  destruct (first_hit sc o d tmin tmax); reflexivity.
Qed.

Lemma shader2_miss_occlusion_frame (i : Intersection F) :
  same_but_hit_material i (Shader2.__miss__occlusion i).
Proof. unfold same_but_hit_material; simpl; tauto. Qed.

Lemma shader2_closesthit_occlusion_frame (rt : HitGroupData2 F)
    (i : Intersection F) :
  same_but_hit_material i (Shader2.__closesthit__occlusion rt i).
Proof.
  unfold same_but_hit_material, Shader2.__closesthit__occlusion.
  destruct (emit (rt_material2 rt)); simpl; tauto.
Qed.

Lemma shader2_trace_occlusion_value (sc : Scene F (HitGroupData2 F))
    (o d : float3 F) (tmin tmax : F) (i : Intersection F) :
  value (Shader2.trace_occlusion sc o d tmin tmax i) =
  match first_hit sc o d tmin tmax with
  | Some h => Shader2.__closesthit__occlusion (sbt_data h) i
  | None => Shader2.__miss__occlusion i
  end.
Proof.
  unfold Shader2.trace_occlusion. rewrite value_bind.
  destruct (first_hit sc o d tmin tmax); reflexivity.
Qed.

Lemma shader2_trace_occlusion_queries (sc : Scene F (HitGroupData2 F))
    (o d : float3 F) (tmin tmax : F) (i : Intersection F) :
  queries (Shader2.trace_occlusion sc o d tmin tmax i) =
  [QOcclusion o d tmin tmax].
Proof.
  unfold Shader2.trace_occlusion. rewrite queries_bind.
  destruct (first_hit sc o d tmin tmax); reflexivity.
Qed.

Lemma shader_trace_occlusion_frame (sc : Scene F (HitGroupData F))
    (o d : float3 F) (tmin tmax : F) (i : Intersection F) :
  same_but_hit_material i (value (Shader.trace_occlusion sc o d tmin tmax i)).
Proof.
  rewrite shader_trace_occlusion_value.
  destruct (first_hit sc o d tmin tmax).
  - apply shader_closesthit_occlusion_frame.
  - apply shader_miss_occlusion_frame.
Qed.

Lemma shader2_trace_occlusion_frame (sc : Scene F (HitGroupData2 F))
    (o d : float3 F) (tmin tmax : F) (i : Intersection F) :
  same_but_hit_material i (value (Shader2.trace_occlusion sc o d tmin tmax i)).
Proof.
  rewrite shader2_trace_occlusion_value.
  destruct (first_hit sc o d tmin tmax).
  - apply shader2_closesthit_occlusion_frame.
  - apply shader2_miss_occlusion_frame.
Qed.

(** C10.  An occlusion query, in either shader file, changes at most the
    [hit] and [material] fields of the payload it is given: the miss
    program, the closest-hit program and so the whole query leave
    [accum_color], [mask_color], [done] and [seed] (and [normal], [xyz])
    as they were.  In [shader2.cu], where the probe runs on the payload of
    the radiance path, the path's radiance, mask and termination flag
    survive the probe. *)
Theorem occlusion_query_frame :
  (forall (sc : Scene F (HitGroupData F)) (o d : float3 F) (tmin tmax : F)
          (rt : HitGroupData F) (i : Intersection F),
      same_but_hit_material i (Shader.__miss__occlusion i) /\
      same_but_hit_material i (Shader.__closesthit__occlusion rt i) /\
      same_but_hit_material i
        (value (Shader.trace_occlusion sc o d tmin tmax i))) /\
  (forall (sc : Scene F (HitGroupData2 F)) (o d : float3 F) (tmin tmax : F)
          (rt : HitGroupData2 F) (i : Intersection F),
      same_but_hit_material i (Shader2.__miss__occlusion i) /\
      same_but_hit_material i (Shader2.__closesthit__occlusion rt i) /\
      same_but_hit_material i
        (value (Shader2.trace_occlusion sc o d tmin tmax i))).
Proof.
  split; intros sc o d tmin tmax rt i.
  - split; [apply shader_miss_occlusion_frame|].
    split; [apply shader_closesthit_occlusion_frame|].
    apply shader_trace_occlusion_frame.
  - split; [apply shader2_miss_occlusion_frame|].
    split; [apply shader2_closesthit_occlusion_frame|].
    apply shader2_trace_occlusion_frame.
Qed.
End OcclusionFrame.

(** ** What an occlusion query tells its caller *)

Section OcclusionHit.
Context {F : Type} {FO : FloatOps F}.
Variable rnd : uint -> F * uint.
Variable uchar4 : Type.

(** In [shader.cu] a probe runs on a fresh payload, whose [hit] is false:
    after the query [hit] is true exactly when the walk stopped at an
    emitter, and false for a non-emitter and for a miss alike. *)
Lemma shader_probe_hit_iff (sc : Scene F (HitGroupData F)) (o d : float3 F)
    (tmin tmax : F) (garbage : Intersection F) :
  hit (value (Shader.trace_occlusion sc o d tmin tmax
                (Intersection_new garbage))) = true <->
  exists h, first_hit sc o d tmin tmax = Some h /\
            emit (rt_material (sbt_data h)) = true.
Proof.
  rewrite shader_trace_occlusion_value.
  unfold Shader.__closesthit__occlusion, Shader.__miss__occlusion.
  destruct (first_hit sc o d tmin tmax) as [h|].
  - destruct (emit (rt_material (sbt_data h))) eqn:E; simpl.
    + split; [intros _; exists h; auto | auto].
    + split; [discriminate|].
      intros [h' [Hh He]]. inversion Hh; subst. congruence.
  - simpl. split; [discriminate|]. intros [h [Hh _]]. discriminate.
Qed.

(** The hit carries the emitter's material to the caller. *)
Lemma shader_probe_material (sc : Scene F (HitGroupData F)) (o d : float3 F)
    (tmin tmax : F) (garbage : Intersection F) (h : HitInfo F (HitGroupData F)) :
  first_hit sc o d tmin tmax = Some h ->
  emit (rt_material (sbt_data h)) = true ->
  material (value (Shader.trace_occlusion sc o d tmin tmax
                     (Intersection_new garbage))) = rt_material (sbt_data h).
Proof.
  intros Hh He. rewrite shader_trace_occlusion_value, Hh.
  unfold Shader.__closesthit__occlusion. rewrite He. reflexivity.
Qed.

(** The probe of [shoot_ray_to_light] in [shader.cu] is such a query: one
    turn of its loop. *)
Lemma shader_shoot_ray_to_light_loop_S
    (params : Params F (HitGroupData F) uchar4) (garbage : Intersection F)
    (n : nat) (i : Intersection F) :
  Shader.shoot_ray_to_light_loop rnd params garbage (S n) i =
  let dir := fst (Shader.shoot_ray_hemisphere rnd (normal i) (seed i)) in
  let i' := set_seed (snd (Shader.shoot_ray_hemisphere rnd (normal i) (seed i))) i in
  bind (Shader.trace_occlusion (handle params) (xyz i') dir
          (f_lit 1 (-6)) (f_lit 1 16) (Intersection_new garbage))
       (fun temp =>
          if hit temp then
            ret (smul3 (clamp (dot (normal i') dir) (f_of_Z 0) (f_of_Z 1))
                       (emission_color (material temp)), i')
          else Shader.shoot_ray_to_light_loop rnd params garbage n i').
Proof.
  simpl. destruct (Shader.shoot_ray_hemisphere rnd (normal i) (seed i)).
  reflexivity.
Qed.

(** In [shader2.cu] the probe runs on the payload of the path, and a
    non-emitter leaves [hit] as the probe found it. *)
Lemma shader2_probe_hit (sc : Scene F (HitGroupData2 F)) (o d : float3 F)
    (tmin tmax : F) (i : Intersection F) :
  hit (value (Shader2.trace_occlusion sc o d tmin tmax i)) =
  match first_hit sc o d tmin tmax with
  | Some h => if emit (rt_material2 (sbt_data h)) then true else hit i
  | None => false
  end.
Proof.
  rewrite shader2_trace_occlusion_value.
  unfold Shader2.__closesthit__occlusion, Shader2.__miss__occlusion.
  destruct (first_hit sc o d tmin tmax) as [h|]; [|reflexivity].
  destruct (emit (rt_material2 (sbt_data h))); reflexivity.
Qed.

Lemma shader2_shoot_ray_to_light_loop_S
    (params : Params F (HitGroupData2 F) uchar4)
    (n : nat) (i : Intersection F) :
  Shader2.shoot_ray_to_light_loop rnd params (S n) i =
  let dir := fst (Shader2.shoot_ray_hemisphere rnd i) in
  let i' := snd (Shader2.shoot_ray_hemisphere rnd i) in
  bind (Shader2.trace_occlusion (handle params) (xyz i') dir
          (f_lit 1 (-2)) (f_lit 1 16) i')
       (fun i'' =>
          if hit i'' then
            ret (smul3 (clamp (dot (normal i'') dir) (f_of_Z 0) (f_of_Z 1))
                       (emission_color (material i'')), i'')
          else Shader2.shoot_ray_to_light_loop rnd params n i'').
Proof.
  simpl. destruct (Shader2.shoot_ray_hemisphere rnd i). reflexivity.
Qed.
End OcclusionHit.

(** ** The light sampler of [shader.cu] *)

Section ShaderLight.
Context {F : Type} {FO : FloatOps F}.
Variable rnd : uint -> F * uint.
Variable uchar4 : Type.
Variable params : Params F (HitGroupData F) uchar4.
Variable garbage : Intersection F.

Local Abbreviation probe_dir := (probe_dir rnd).
Local Abbreviation probe_query := (probe_query rnd).
Local Abbreviation probe_temp := (probe_temp rnd params garbage).


Local Abbreviation advance i :=
  (set_seed (snd (Shader.shoot_ray_hemisphere rnd (normal i) (seed i))) i).

Lemma probe_dir_advance (i : Intersection F) (k : nat) :
  probe_dir (advance i) k = probe_dir i (S k).
Proof. reflexivity. Qed.

Lemma probe_temp_advance (i : Intersection F) (k : nat) :
  probe_temp (advance i) k = probe_temp i (S k).
Proof. reflexivity. Qed.

Lemma probe_query_advance (i : Intersection F) (k : nat) :
  probe_query (advance i) k = probe_query i (S k).
Proof. reflexivity. Qed.

Lemma shader_light_loop_step (n : nat) (i : Intersection F) :
  Shader.shoot_ray_to_light_loop rnd params garbage (S n) i =
  bind (Shader.trace_occlusion (handle params) (xyz i) (probe_dir i 0)
          (f_lit 1 (-6)) (f_lit 1 16) (Intersection_new garbage))
       (fun temp =>
          if hit temp then
            ret (smul3 (clamp (dot (normal i) (probe_dir i 0))
                              (f_of_Z 0) (f_of_Z 1))
                       (emission_color (material temp)), advance i)
          else Shader.shoot_ray_to_light_loop rnd params garbage n (advance i)).
Proof. apply shader_shoot_ray_to_light_loop_S. Qed.

(** No probe sets [hit]: the loop runs its [n] turns and returns black. *)
Lemma shader_light_loop_dark (n : nat) (i : Intersection F) :
  (forall k, (k < n)%nat -> hit (probe_temp i k) = false) ->
  fst (value (Shader.shoot_ray_to_light_loop rnd params garbage n i)) =
    make_float3_s (f_of_Z 0) /\
  queries (Shader.shoot_ray_to_light_loop rnd params garbage n i) =
    map (probe_query i) (seq 0 n).
Proof.
  revert i. induction n as [|n IH]; intros i Hdark.
  - split; reflexivity.
  - rewrite shader_light_loop_step, value_bind, queries_bind.
    rewrite shader_trace_occlusion_queries.
    fold (probe_temp i 0). rewrite (Hdark 0%nat) by lia.
    destruct (IH (advance i)) as [Hv Hq].
    { intros k Hk. rewrite probe_temp_advance. apply Hdark. lia. }
    split; [exact Hv|].
    rewrite Hq, map_seq_S. reflexivity.
Qed.

(** Probe [k] is the first to set [hit]: the loop returns there. *)
Lemma shader_light_loop_lit (n : nat) (i : Intersection F) (k : nat) :
  (k < n)%nat ->
  (forall j, (j < k)%nat -> hit (probe_temp i j) = false) ->
  hit (probe_temp i k) = true ->
  fst (value (Shader.shoot_ray_to_light_loop rnd params garbage n i)) =
    smul3 (clamp (dot (normal i) (probe_dir i k)) (f_of_Z 0) (f_of_Z 1))
          (emission_color (material (probe_temp i k))) /\
  queries (Shader.shoot_ray_to_light_loop rnd params garbage n i) =
    map (probe_query i) (seq 0 (S k)).
Proof.
  revert i k. induction n as [|n IH]; intros i k Hk Hbefore Hhit; [lia|].
  rewrite shader_light_loop_step, value_bind, queries_bind.
  rewrite shader_trace_occlusion_queries.
  fold (probe_temp i 0).
  destruct k as [|k].
  - rewrite Hhit. split; reflexivity.
  - rewrite (Hbefore 0%nat) by lia.
    destruct (IH (advance i) k) as [Hv Hq].
    + lia.
    + intros j Hj. rewrite probe_temp_advance. apply Hbefore. lia.
    + rewrite probe_temp_advance. exact Hhit.
    + split; [exact Hv|].
      rewrite Hq, (map_seq_S _ (S k)). reflexivity.
Qed.

(** Whatever the probes find, the caller's payload comes back with its
    seed advanced and nothing else changed, and at most [n] queries, all
    of them occlusion queries, were issued. *)
Lemma shader_light_loop_payload (n : nat) (i : Intersection F) :
  exists s,
    snd (value (Shader.shoot_ray_to_light_loop rnd params garbage n i)) =
    set_seed s i.
Proof.
  revert i. induction n as [|n IH]; intros i.
  - exists (seed i). destruct i; reflexivity.
  - rewrite shader_light_loop_step, value_bind.
    destruct (hit _).
    + eexists. reflexivity.
    + destruct (IH (advance i)) as [s Hs]. exists s. rewrite Hs.
      destruct i; reflexivity.
Qed.

Lemma shader_light_loop_count (n : nat) (i : Intersection F) :
  (count_occlusion
     (queries (Shader.shoot_ray_to_light_loop rnd params garbage n i))
   <= n)%nat /\
  count_radiance
    (queries (Shader.shoot_ray_to_light_loop rnd params garbage n i)) = 0%nat.
Proof.
  revert i. induction n as [|n IH]; intros i.
  - split; [apply Nat.le_refl | reflexivity].
  - rewrite shader_light_loop_step, queries_bind.
    rewrite shader_trace_occlusion_queries.
    rewrite count_occlusion_app, count_radiance_app.
    destruct (hit _).
    + split; [unfold count_occlusion; simpl; lia | reflexivity].
    + destruct (IH (advance i)) as [Ho Hr].
      split; [ unfold count_occlusion in *; simpl; lia
             | rewrite Hr; reflexivity ].
Qed.
End ShaderLight.

(** ** The light sampler of [shader2.cu] *)

Section Shader2Light.
Context {F : Type} {FO : FloatOps F}.
Variable rnd : uint -> F * uint.
Variable uchar4 : Type.
Variable params : Params F (HitGroupData2 F) uchar4.

Local Abbreviation probe2_dir := (probe2_dir rnd).
Local Abbreviation probe2_query := (probe2_query rnd).
Local Abbreviation probe2 := (probe2 rnd params).
Local Abbreviation payload2 := (payload2 rnd params).


Lemma shader2_light_loop_step (n : nat) (i : Intersection F) :
  Shader2.shoot_ray_to_light_loop rnd params (S n) i =
  bind (Shader2.trace_occlusion (handle params)
          (xyz (snd (Shader2.shoot_ray_hemisphere rnd i))) (probe2_dir i)
          (f_lit 1 (-2)) (f_lit 1 16)
          (snd (Shader2.shoot_ray_hemisphere rnd i)))
       (fun i' =>
          if hit i' then
            ret (smul3 (clamp (dot (normal i') (probe2_dir i))
                              (f_of_Z 0) (f_of_Z 1))
                       (emission_color (material i')), i')
          else Shader2.shoot_ray_to_light_loop rnd params n i').
Proof. apply shader2_shoot_ray_to_light_loop_S. Qed.

Lemma shader2_light_loop_dark (n : nat) (i : Intersection F) :
  (forall k, (k < n)%nat -> hit (probe2 (payload2 k i)) = false) ->
  value (Shader2.shoot_ray_to_light_loop rnd params n i) =
    (make_float3_s (f_of_Z 0), payload2 n i) /\
  queries (Shader2.shoot_ray_to_light_loop rnd params n i) =
    map (fun k => probe2_query (payload2 k i)) (seq 0 n).
Proof.
  revert i. induction n as [|n IH]; intros i Hdark.
  - split; reflexivity.
  - rewrite shader2_light_loop_step, value_bind, queries_bind.
    rewrite shader2_trace_occlusion_queries.
    fold (probe2 i).
    pose proof (Hdark 0%nat ltac:(lia)) as H0. simpl in H0. rewrite H0.
    destruct (IH (probe2 i)) as [Hv Hq].
    { intros k Hk. apply (Hdark (S k)). lia. }
    split; [exact Hv|].
    rewrite Hq, map_seq_S. reflexivity.
Qed.

Lemma shader2_light_loop_lit (n : nat) (i : Intersection F) (k : nat) :
  (k < n)%nat ->
  (forall j, (j < k)%nat -> hit (probe2 (payload2 j i)) = false) ->
  hit (probe2 (payload2 k i)) = true ->
  value (Shader2.shoot_ray_to_light_loop rnd params n i) =
    (smul3 (clamp (dot (normal (probe2 (payload2 k i)))
                       (probe2_dir (payload2 k i)))
                  (f_of_Z 0) (f_of_Z 1))
           (emission_color (material (probe2 (payload2 k i)))),
     probe2 (payload2 k i)) /\
  queries (Shader2.shoot_ray_to_light_loop rnd params n i) =
    map (fun k => probe2_query (payload2 k i)) (seq 0 (S k)).
Proof.
  revert i k. induction n as [|n IH]; intros i k Hk Hbefore Hhit; [lia|].
  rewrite shader2_light_loop_step, value_bind, queries_bind.
  rewrite shader2_trace_occlusion_queries.
  fold (probe2 i).
  destruct k as [|k].
  - simpl in Hhit. rewrite Hhit. split; reflexivity.
  - pose proof (Hbefore 0%nat ltac:(lia)) as H0. simpl in H0. rewrite H0.
    destruct (IH (probe2 i) k) as [Hv Hq].
    + lia.
    + intros j Hj. apply (Hbefore (S j)). lia.
    + exact Hhit.
    + split; [exact Hv|].
      rewrite Hq, (map_seq_S _ (S k)). reflexivity.
Qed.


Lemma same_path_refl (i : Intersection F) : same_path i i.
Proof. unfold same_path; tauto. Qed.

Lemma same_path_trans (i1 i2 i3 : Intersection F) :
  same_path i1 i2 -> same_path i2 i3 -> same_path i1 i3.
Proof. unfold same_path; intuition congruence. Qed.

Lemma shader2_hemisphere_payload (i : Intersection F) :
  exists s, snd (Shader2.shoot_ray_hemisphere rnd i) = set_seed s i.
Proof.
  unfold Shader2.shoot_ray_hemisphere.
  destruct (Shader2.rng rnd (seed i)) as [a s1].
  destruct (Shader2.rng rnd s1) as [b s2].
  destruct (Shader2.rng rnd s2) as [c s3].
  exists s3. reflexivity.
Qed.

Lemma probe2_same_path (i : Intersection F) : same_path i (probe2 i).
Proof.
  unfold probe2. destruct (shader2_hemisphere_payload i) as [s Hs].
  rewrite Hs.
  pose proof (shader2_trace_occlusion_frame (handle params)
                (xyz (set_seed s i)) (probe2_dir i)
                (f_lit 1 (-2)) (f_lit 1 16) (set_seed s i)) as H.
  unfold same_but_hit_material in H. unfold same_path.
  simpl in *. intuition.
Qed.

Lemma payload2_same_path (k : nat) (i : Intersection F) :
  same_path i (payload2 k i).
Proof.
  revert i. induction k as [|k IH]; intros i.
  - apply same_path_refl.
  - simpl. eapply same_path_trans; [apply probe2_same_path | apply IH].
Qed.

Lemma shader2_light_loop_payload (n : nat) (i : Intersection F) :
  same_path i (snd (value (Shader2.shoot_ray_to_light_loop rnd params n i))).
Proof.
  revert i. induction n as [|n IH]; intros i.
  - apply same_path_refl.
  - rewrite shader2_light_loop_step, value_bind. fold (probe2 i).
    destruct (hit (probe2 i)).
    + apply probe2_same_path.
    + eapply same_path_trans; [apply probe2_same_path | apply IH].
Qed.

Lemma shader2_light_loop_count (n : nat) (i : Intersection F) :
  (count_occlusion
     (queries (Shader2.shoot_ray_to_light_loop rnd params n i)) <= n)%nat /\
  count_radiance
    (queries (Shader2.shoot_ray_to_light_loop rnd params n i)) = 0%nat.
Proof.
  revert i. induction n as [|n IH]; intros i.
  - split; [apply Nat.le_refl | reflexivity].
  - rewrite shader2_light_loop_step, queries_bind.
    rewrite shader2_trace_occlusion_queries.
    rewrite count_occlusion_app, count_radiance_app.
    destruct (hit _).
    + split; [unfold count_occlusion; simpl; lia | reflexivity].
    + match goal with
      | |- context [Shader2.shoot_ray_to_light_loop rnd params n ?j] =>
          destruct (IH j) as [Ho Hr]
      end.
      split; [ unfold count_occlusion in *; simpl; lia
             | rewrite Hr; reflexivity ].
Qed.
End Shader2Light.

(** ** Vectors over the real numbers *)

Section RealVectors.
Local Open Scope R_scope.

Lemma float3_eq (a b : float3 R) :
  fx a = fx b -> fy a = fy b -> fz a = fz b -> a = b.
Proof. destruct a, b; simpl; intros; subst; reflexivity. Qed.

Lemma dot_faceforward (r n : float3 R) :
  dot n (faceforward r n r) = Rabs (dot n r).
Proof.
  unfold faceforward, dot, mul3_s. simpl.
  set (d := fx n * fx r + fy n * fy r + fz n * fz r).
  rewrite Rabs_R1.
  destruct (Rlt_dec d 0) as [Hneg|Hpos].
  - rewrite (Rabs_left d Hneg). unfold d. ring.
  - rewrite (Rabs_right d) by lra. unfold d. ring.
Qed.

Lemma dot_self_nonneg (v : float3 R) : 0 <= dot v v.
Proof. unfold dot; simpl. nra. Qed.

Lemma dot_self_pos (v : float3 R) :
  v <> make_float3 0 0 0 -> 0 < dot v v.
Proof.
  intros Hv. destruct v as [a b c]. unfold dot; simpl.
  destruct (Req_dec a 0) as [Ha|Ha]; [|nra].
  destruct (Req_dec b 0) as [Hb|Hb]; [|nra].
  destruct (Req_dec c 0) as [Hc|Hc]; [|nra].
  subst. congruence.
Qed.

(** A normalised vector has length one, unless it was the null vector. *)
Lemma normalize_unit (v : float3 R) :
  0 < dot v v -> dot (normalize v) (normalize v) = 1.
Proof.
  intros Hpos. unfold normalize, mul3_s, dot in *. simpl in *.
  set (q := fx v * fx v + fy v * fy v + fz v * fz v) in *.
  assert (Hs : sqrt q * sqrt q = q) by (apply sqrt_sqrt; lra).
  assert (Hs0 : 0 < sqrt q) by (apply sqrt_lt_R0; exact Hpos).
  assert (Hu : 1 / sqrt q * sqrt q = 1) by (field; lra).
  set (u := 1 / sqrt q) in *.
  replace (fx v * u * (fx v * u) + fy v * u * (fy v * u) + fz v * u * (fz v * u))
    with (q * (u * u)) by (unfold q; ring).
  rewrite <- Hs at 1.
  replace (sqrt q * sqrt q * (u * u)) with (u * sqrt q * (u * sqrt q)) by ring.
  rewrite Hu. ring.
Qed.

(** Flipping a vector keeps its length. *)
Lemma faceforward_length (r n nref : float3 R) :
  dot (faceforward r n nref) (faceforward r n nref) = dot r r.
Proof.
  unfold faceforward, dot, mul3_s. simpl. rewrite Rabs_R1.
  destruct (Rlt_dec _ 0); ring.
Qed.

Lemma dot_comm (a b : float3 R) : dot a b = dot b a.
Proof. unfold dot; simpl; ring. Qed.

Lemma dot_mul3_s_r (a b : float3 R) (t : R) :
  dot a (mul3_s b t) = dot a b * t.
Proof. unfold dot, mul3_s; simpl; ring. Qed.

Lemma dot_mul3_s_l (a b : float3 R) (t : R) :
  dot (mul3_s a t) b = dot a b * t.
Proof. unfold dot, mul3_s; simpl; ring. Qed.

Lemma inv_length_pos (v : float3 R) : 0 < dot v v -> 0 < 1 / sqrt (dot v v).
Proof.
  intros Hv. apply Rdiv_lt_0_compat; [lra | apply sqrt_lt_R0; exact Hv].
Qed.

Lemma copysign_one_neg (b : R) : b < 0 -> copysignf (f_of_Z 1) b = -1.
Proof.
  intros Hb. simpl. destruct (Rlt_dec b 0) as [_|Hn]; [|exfalso; lra].
  rewrite Rabs_R1. reflexivity.
Qed.

Lemma copysign_one_nonneg (b : R) : 0 <= b -> copysignf (f_of_Z 1) b = 1.
Proof.
  intros Hb. simpl. destruct (Rlt_dec b 0) as [Hn|_]; [exfalso; lra|].
  apply Rabs_R1.
Qed.

(** [faceforward(r, n, r)] negates [r] exactly when [dot(n, r)] is
    negative. *)
Lemma faceforward_cases (r n : float3 R) :
  (dot n r < 0 -> faceforward r n r = neg3 r) /\
  (0 <= dot n r -> faceforward r n r = r).
Proof.
  unfold faceforward. split; intros Hd.
  - rewrite copysign_one_neg by exact Hd.
    apply float3_eq; simpl; ring.
  - rewrite copysign_one_nonneg by exact Hd.
    apply float3_eq; simpl; ring.
Qed.

Lemma clamp_unit_above (d : R) : 1 < d -> clamp d 0 1 = 1.
Proof.
  intros Hd. unfold clamp. simpl.
  rewrite Rmin_right by lra. rewrite Rmax_right by lra. reflexivity.
Qed.
End RealVectors.

(** ** The generator of [random.h] over the real numbers *)

Section RandomDraws.
Local Open Scope R_scope.

Lemma shader_rng_random (s : uint) :
  Shader.rng (Random.rnd (F := R)) s =
  (IZR (fst (Random.lcg s)) / 16777216 * 2 - 1, snd (Random.lcg s)).
Proof.
  unfold Shader.rng, Random.rnd. destruct (Random.lcg s). reflexivity.
Qed.

Lemma lcg_run_0 :
  Random.lcg 0%Z = (7271263, 1013904223)%Z /\
  Random.lcg 1013904223%Z = (5253426, 1196435762)%Z /\
  Random.lcg 1196435762%Z = (13432553, 3519870697)%Z.
Proof. vm_compute. repeat split; reflexivity. Qed.

(** The first hemisphere sample drawn from the seed 0. *)
Lemma shader_hemisphere_seed_0 (n : float3 R) :
  fst (Shader.shoot_ray_hemisphere Random.rnd n 0%Z) =
  let r := normalize (make_float3 (7271263 / 16777216 * 2 - 1)
                                  (5253426 / 16777216 * 2 - 1)
                                  (13432553 / 16777216 * 2 - 1)) in
  faceforward r n r.
Proof.
  destruct lcg_run_0 as [H1 [H2 H3]].
  unfold Shader.shoot_ray_hemisphere.
  rewrite shader_rng_random, H1. cbn [fst snd].
  rewrite shader_rng_random, H2. cbn [fst snd].
  rewrite shader_rng_random, H3. cbn [fst snd].
  reflexivity.
Qed.
End RandomDraws.


(** ** The cosine term at a normal of length two *)

Lemma lit_point_dot :
  (1 < dot (normal Lit.point) (probe_dir Random.rnd Lit.point 0))%R.
Proof.
  unfold probe_dir. cbn [probe_seed Lit.point normal seed].
  rewrite shader_hemisphere_seed_0. cbv zeta.
  rewrite dot_faceforward.
  set (a := (7271263 / 16777216 * 2 - 1)%R).
  set (b := (5253426 / 16777216 * 2 - 1)%R).
  set (c := (13432553 / 16777216 * 2 - 1)%R).
  unfold normalize, dot, mul3_s. cbn [fx fy fz].
  set (q := (a * a + b * b + c * c)%R).
  change (f_of_Z 1 / sqrtf q)%f with (1 / sqrt q)%R.
  change (1 < Rabs (0 * (a * (1 / sqrt q)) + 0 * (b * (1 / sqrt q)) + 2 * (c * (1 / sqrt q))))%R.
  assert (Hq : (0 < q)%R) by (unfold q, a, b, c; nra).
  assert (Hc : (q < (2 * c) * (2 * c))%R) by (unfold q, a, b, c; nra).
  assert (Hc0 : (0 <= 2 * c)%R) by (unfold c; lra).
  assert (Hs0 : (0 < sqrt q)%R) by (apply sqrt_lt_R0; exact Hq).
  assert (Hlt : (sqrt q < 2 * c)%R).
  { rewrite <- (sqrt_square (2 * c)) by exact Hc0.
    apply sqrt_lt_1_alt. lra. }
  assert (Hu : (1 / sqrt q * sqrt q = 1)%R) by (field; lra).
  set (u := (1 / sqrt q)%R) in *.
  assert (Hu0 : (0 < u)%R).
  { unfold u. apply Rdiv_lt_0_compat; lra. }
  rewrite Rabs_right by nra. nra.
Qed.





(** ** The radiance programs of [shader2.cu] *)

Section Shader2Radiance.
Context {F : Type} {FO : FloatOps F}.
Variable rnd : uint -> F * uint.
Variable uchar4 : Type.
Variable params : Params F (HitGroupData2 F) uchar4.

(** What a probe does to the flag and to the material of the path. *)
Lemma probe2_hit (i : Intersection F) :
  hit (probe2 rnd params i) =
  match first_hit (handle params) (xyz i) (probe2_dir rnd i)
                  (f_lit 1 (-2)) (f_lit 1 16) with
  | Some h => if emit (rt_material2 (sbt_data h)) then true else hit i
  | None => false
  end.
Proof.
  unfold probe2. rewrite shader2_probe_hit.
  destruct (shader2_hemisphere_payload rnd i) as [s Hs]. rewrite Hs.
  reflexivity.
Qed.

Lemma probe2_material (i : Intersection F) :
  material (probe2 rnd params i) =
  match first_hit (handle params) (xyz i) (probe2_dir rnd i)
                  (f_lit 1 (-2)) (f_lit 1 16) with
  | Some h => if emit (rt_material2 (sbt_data h))
              then rt_material2 (sbt_data h) else material i
  | None => material i
  end.
Proof.
  unfold probe2. rewrite shader2_trace_occlusion_value.
  destruct (shader2_hemisphere_payload rnd i) as [s Hs]. rewrite Hs.
  cbn [xyz set_seed].
  destruct (first_hit _ _ _ _ _) as [h|]; [|reflexivity].
  unfold Shader2.__closesthit__occlusion.
  destruct (emit (rt_material2 (sbt_data h))); reflexivity.
Qed.

(** The payload [__closesthit__radiance] hands to the light sampler on a
    non-emitter, and what it does with the sampler's answer. *)
Lemma shader2_closesthit_diffuse (h : HitInfo F (HitGroupData2 F))
    (o d : float3 F) (i : Intersection F) :
  emit (rt_material2 (sbt_data h)) = false ->
  exists i3,
    hit i3 = hit i /\ material i3 = material i /\ seed i3 = seed i /\
    done i3 = done i /\ accum_color i3 = accum_color i /\
    mask_color i3 =
      mul3 (mask_color i) (diffuse_color (rt_material2 (sbt_data h))) /\
    xyz i3 = add3 o (smul3 (ray_tmax h) d) /\
    let r := Shader2.shoot_ray_to_light rnd params i3 in
    value (Shader2.__closesthit__radiance rnd params h o d i) =
      set_accum_color
        (add3 (accum_color (snd (value r)))
              (mul3 (fst (value r)) (mask_color (snd (value r)))))
        (snd (value r)) /\
    queries (Shader2.__closesthit__radiance rnd params h o d i) = queries r.
Proof.
  intros Hemit. unfold Shader2.__closesthit__radiance. rewrite Hemit.
  cbv zeta.
  match goal with
  | |- context [bind (Shader2.shoot_ray_to_light rnd params ?X) _] => exists X
  end.
  repeat (split; [reflexivity|]).
  rewrite value_bind, queries_bind.
  destruct (value (Shader2.shoot_ray_to_light rnd params _)) as [light i4].
  split; [reflexivity|].
  simpl. apply app_nil_r.
Qed.
End Shader2Radiance.

(** ** A stale [hit] in [shader2.cu] *)

Section StaleHitRun.
Local Open Scope R_scope.

Lemma stale_scene_first_hit (o d : float3 R) (tmin tmax : R) :
  first_hit StaleHit.scene o d tmin tmax =
  if Rle_dec 0 (fz o) then Some StaleHit.hit_light else Some StaleHit.hit_back.
Proof. reflexivity. Qed.

(** First bounce: the probe from [(0,0,1)] ends on the lamp and sets
    [hit]. *)
Lemma stale_bounce1 :
  hit (value StaleHit.bounce1) = true /\
  material (value StaleHit.bounce1) = StaleHit.light /\
  xyz (value StaleHit.bounce1) =
    add3 (make_float3 0 0 0) (smul3 1 (make_float3 0 0 1)).
Proof.
  unfold StaleHit.bounce1.
  destruct (shader2_closesthit_diffuse Random.rnd StaleHit.params
              StaleHit.hit_front (make_float3 0 0 0) (make_float3 0 0 1)
              (Intersection_new StaleHit.zero) eq_refl)
    as [i3 [Hhit [Hmat [Hseed [Hdone [Hacc [Hmask [Hxyz [Hv Hq]]]]]]]]].
  assert (Hfirst : forall dir tmin tmax,
             first_hit StaleHit.scene (xyz i3) dir tmin tmax =
             Some StaleHit.hit_light).
  { intros. rewrite stale_scene_first_hit, Hxyz. simpl.
    destruct (Rle_dec 0 (0 + 1 * 1)) as [_|Hn]; [reflexivity | exfalso; lra]. }
  assert (Hp : hit (probe2 Random.rnd StaleHit.params i3) = true).
  { rewrite probe2_hit. simpl handle. rewrite Hfirst. reflexivity. }
  destruct (@shader2_light_loop_lit R R_float Random.rnd unit StaleHit.params
              Shader2.count i3 0%nat) as [Hl _].
  { unfold Shader2.count; lia. }
  { intros j Hj; lia. }
  { exact Hp. }
  unfold Shader2.shoot_ray_to_light in Hv. rewrite Hl in Hv.
  cbn [fst snd payload2] in Hv. rewrite Hv.
  cbn [hit material xyz set_accum_color].
  split; [exact Hp|]. split.
  - rewrite probe2_material. simpl handle. rewrite Hfirst. reflexivity.
  - destruct (probe2_same_path Random.rnd StaleHit.params i3) as [_ [Hx _]].
    rewrite Hx. exact Hxyz.
Qed.

(** Second bounce: from [(0,0,-2)] every probe ends on the wall, and the
    flag of the first bounce is still up. *)
Lemma stale_bounce2 :
  xyz (value StaleHit.bounce2) =
    add3 (xyz (value StaleHit.bounce1)) (smul3 3 (make_float3 0 0 (-1))) /\
  hit (value StaleHit.bounce2) = true /\
  material (value StaleHit.bounce2) = StaleHit.light /\
  length (queries StaleHit.bounce2) = 1%nat.
Proof.
  destruct stale_bounce1 as [H1hit [H1mat H1xyz]].
  unfold StaleHit.bounce2.
  destruct (shader2_closesthit_diffuse Random.rnd StaleHit.params
              StaleHit.hit_back (xyz (value StaleHit.bounce1))
              (make_float3 0 0 (-1))
              (set_done false (value StaleHit.bounce1)) eq_refl)
    as [i3 [Hhit [Hmat [Hseed [Hdone [Hacc [Hmask [Hxyz [Hv Hq]]]]]]]]].
  cbn [hit material set_done] in Hhit, Hmat.
  assert (Hfirst : forall dir tmin tmax,
             first_hit StaleHit.scene (xyz i3) dir tmin tmax =
             Some StaleHit.hit_back).
  { intros. rewrite stale_scene_first_hit, Hxyz, H1xyz. simpl.
    destruct (Rle_dec 0 (0 + 1 * 1 + -1 * 3)) as [Hn|_];
      [exfalso; lra | reflexivity]. }
  assert (Hp : hit (probe2 Random.rnd StaleHit.params i3) = true).
  { rewrite probe2_hit. simpl handle. rewrite Hfirst. simpl.
    rewrite Hhit. exact H1hit. }
  destruct (@shader2_light_loop_lit R R_float Random.rnd unit StaleHit.params
              Shader2.count i3 0%nat) as [Hl Hlq].
  { unfold Shader2.count; lia. }
  { intros j Hj; lia. }
  { exact Hp. }
  unfold Shader2.shoot_ray_to_light in Hv, Hq. rewrite Hl in Hv.
  rewrite Hlq in Hq.
  cbn [fst snd payload2] in Hv. rewrite Hv, Hq.
  cbn [hit material xyz set_accum_color].
  destruct (probe2_same_path Random.rnd StaleHit.params i3) as [_ [Hx _]].
  split; [rewrite Hx; exact Hxyz|].
  split; [exact Hp|]. split; [|reflexivity].
  rewrite probe2_material. simpl handle. rewrite Hfirst. simpl.
  rewrite Hmat. exact H1mat.
Qed.

(** C1 fails in [shader2.cu].  After a first bounce whose probe found the
    lamp, the probes of the second bounce all end on the wall, a
    non-emitter; yet the sampler finds [hit] true after the first of them
    and returns there, with the lamp as the material. *)
Theorem shader2_stale_hit :
  hit (value StaleHit.bounce1) = true /\
  (forall (d : float3 R) (tmin tmax : R),
      first_hit StaleHit.scene (xyz (value StaleHit.bounce2)) d tmin tmax =
        Some StaleHit.hit_back) /\
  emit (rt_material2 (sbt_data StaleHit.hit_back)) = false /\
  hit (value StaleHit.bounce2) = true /\
  material (value StaleHit.bounce2) = StaleHit.light /\
  length (queries StaleHit.bounce2) = 1%nat.
Proof.
  destruct stale_bounce1 as [H1hit [H1mat H1xyz]].
  destruct stale_bounce2 as [H2xyz [H2hit [H2mat H2q]]].
  split; [exact H1hit|]. split.
  - intros d tmin tmax. rewrite stale_scene_first_hit, H2xyz, H1xyz. simpl.
    destruct (Rle_dec 0 (0 + 1 * 1 + -1 * 3)) as [Hn|_];
      [exfalso; lra | reflexivity].
  - split; [reflexivity|]. repeat split; assumption.
Qed.
End StaleHitRun.

(** ** The radiance programs of [shader.cu] *)

Section ShaderRadiance.
Context {F : Type} {FO : FloatOps F}.
Variable rnd : uint -> F * uint.
Variable uchar4 : Type.
Variable params : Params F (HitGroupData F) uchar4.
Variable garbage : Intersection F.

(** On a non-emitter [__closesthit__radiance] sets the shading point, folds
    the albedo into the mask, asks the light sampler and adds its answer. *)
Lemma shader_closesthit_diffuse (h : HitInfo F (HitGroupData F))
    (o d : float3 F) (i : Intersection F) :
  emit (rt_material (sbt_data h)) = false ->
  exists i3,
    hit i3 = hit i /\ material i3 = material i /\ seed i3 = seed i /\
    done i3 = done i /\ accum_color i3 = accum_color i /\
    mask_color i3 =
      mul3 (mask_color i) (diffuse_color (rt_material (sbt_data h))) /\
    xyz i3 = add3 o (smul3 (ray_tmax h) d) /\
    let r := Shader.shoot_ray_to_light rnd params garbage i3 in
    value (Shader.__closesthit__radiance rnd params garbage h o d i) =
      set_accum_color
        (add3 (accum_color (snd (value r)))
              (mul3 (fst (value r)) (mask_color (snd (value r)))))
        (snd (value r)) /\
    queries (Shader.__closesthit__radiance rnd params garbage h o d i) =
      queries r.
Proof.
  intros Hemit. unfold Shader.__closesthit__radiance. rewrite Hemit.
  cbv zeta.
  match goal with
  | |- context [bind (Shader.shoot_ray_to_light rnd params garbage ?X) _] =>
      exists X
  end.
  repeat (split; [reflexivity|]).
  rewrite value_bind, queries_bind.
  destruct (value (Shader.shoot_ray_to_light rnd params garbage _))
    as [light i4].
  split; [reflexivity|].
  simpl. apply app_nil_r.
Qed.

Lemma shader_closesthit_no_radiance_query (h : HitInfo F (HitGroupData F))
    (o d : float3 F) (i : Intersection F) :
  count_radiance
    (queries (Shader.__closesthit__radiance rnd params garbage h o d i)) = 0%nat.
Proof.
  destruct (emit (rt_material (sbt_data h))) eqn:Hemit.
  - unfold Shader.__closesthit__radiance. rewrite Hemit. reflexivity.
  - destruct (shader_closesthit_diffuse h o d i Hemit)
      as [i3 [_ [_ [_ [_ [_ [_ [_ [_ Hq]]]]]]]]].
    rewrite Hq. apply shader_light_loop_count.
Qed.

(** One radiance query per call of [trace_radiance]: the probes it causes
    are occlusion queries. *)
Lemma shader_trace_radiance_count (sc : Scene F (HitGroupData F))
    (o d : float3 F) (tmin tmax : F) (i : Intersection F) :
  count_radiance
    (queries (Shader.trace_radiance rnd params garbage sc o d tmin tmax i))
  = 1%nat.
Proof.
  unfold Shader.trace_radiance. rewrite queries_bind, count_radiance_app.
  cbn [value issue fst].
  destruct (closest_hit sc o d tmin tmax) as [h|].
  - rewrite shader_closesthit_no_radiance_query. reflexivity.
  - reflexivity.
Qed.

Lemma shader_bounce_loop_S (n : nat) (i : Intersection F) (o d : float3 F)
    (s : uint) :
  Shader.bounce_loop rnd params garbage (S n) i o d s =
  bind (Shader.trace_radiance rnd params garbage (handle params) o d
          (f_lit 1 (-6)) (f_lit 1 16) (set_done false i))
       (fun i' =>
          if done i' then ret (i', s)
          else Shader.bounce_loop rnd params garbage n i' (xyz i')
                 (fst (Shader.shoot_ray_hemisphere rnd (normal i') s))
                 (seed i')).
Proof.
  simpl. apply bind_ext. intros i'.
  destruct (done i'); [reflexivity|].
  destruct (Shader.shoot_ray_hemisphere rnd (normal i') s). reflexivity.
Qed.

(** The loop issues at most [n] radiance queries, and exactly [n] when it
    ends with [done] still false. *)
Lemma shader_bounce_loop_count (n : nat) (i : Intersection F) (o d : float3 F)
    (s : uint) :
  let r := Shader.bounce_loop rnd params garbage n i o d s in
  (count_radiance (queries r) <= n)%nat /\
  (done (fst (value r)) = false -> count_radiance (queries r) = n).
Proof.
  revert i o d s. induction n as [|n IH]; intros i o d s.
  - split; [apply Nat.le_refl | reflexivity].
  - cbv zeta. rewrite shader_bounce_loop_S, value_bind, queries_bind.
    rewrite count_radiance_app, shader_trace_radiance_count.
    destruct (done (value (Shader.trace_radiance _ _ _ _ _ _ _ _ _))) eqn:Hd.
    + split; [unfold count_radiance; simpl; lia|].
      cbn [value ret fst]. congruence.
    + match goal with
      | |- context [Shader.bounce_loop rnd params garbage n ?j ?p ?q ?t] =>
          destruct (IH j p q t) as [Hle Heq]
      end.
      split; [lia|]. intros Hdone. rewrite (Heq Hdone). reflexivity.
Qed.

(** Unless the budget is null, the payload the loop ends with is the one
    its last radiance query returned. *)
Lemma shader_bounce_loop_last (n : nat) (i : Intersection F) (o d : float3 F)
    (s : uint) :
  let r := Shader.bounce_loop rnd params garbage (S n) i o d s in
  exists l i_prev o' d',
    let last := Shader.trace_radiance rnd params garbage (handle params) o' d'
                  (f_lit 1 (-6)) (f_lit 1 16) (set_done false i_prev) in
    queries r = l ++ queries last /\ fst (value r) = value last.
Proof.
  revert i o d s. induction n as [|n IH]; intros i o d s; cbv zeta.
  - rewrite shader_bounce_loop_S, value_bind, queries_bind.
    exists [], i, o, d.
    destruct (done _); simpl; rewrite app_nil_r; split; reflexivity.
  - rewrite shader_bounce_loop_S, value_bind, queries_bind.
    destruct (done (value (Shader.trace_radiance _ _ _ _ _ _ _ _ _))) eqn:Hd.
    + exists [], i, o, d. simpl. rewrite app_nil_r. split; reflexivity.
    + match goal with
      | |- context [Shader.bounce_loop rnd params garbage (S n) ?j ?p ?q ?t] =>
          destruct (IH j p q t) as [l [ip [o' [d' [Hq Hv]]]]]
      end.
      eexists (_ ++ l), ip, o', d'.
      rewrite Hq, Hv, app_assoc. split; reflexivity.
Qed.
End ShaderRadiance.

(** ** The bounce loop of [shader2.cu] *)

Section Shader2Bounces.
Context {F : Type} {FO : FloatOps F}.
Variable rnd : uint -> F * uint.
Variable uchar4 : Type.
Variable params : Params F (HitGroupData2 F) uchar4.

Lemma shader2_closesthit_no_radiance_query (h : HitInfo F (HitGroupData2 F))
    (o d : float3 F) (i : Intersection F) :
  count_radiance
    (queries (Shader2.__closesthit__radiance rnd params h o d i)) = 0%nat.
Proof.
  destruct (emit (rt_material2 (sbt_data h))) eqn:Hemit.
  - unfold Shader2.__closesthit__radiance. rewrite Hemit. reflexivity.
  - destruct (shader2_closesthit_diffuse rnd params h o d i Hemit)
      as [i3 [_ [_ [_ [_ [_ [_ [_ [_ Hq]]]]]]]]].
    rewrite Hq. apply shader2_light_loop_count.
Qed.

Lemma shader2_trace_radiance_count (sc : Scene F (HitGroupData2 F))
    (o d : float3 F) (tmin tmax : F) (i : Intersection F) :
  count_radiance
    (queries (Shader2.trace_radiance rnd params sc o d tmin tmax i)) = 1%nat.
Proof.
  unfold Shader2.trace_radiance. rewrite queries_bind, count_radiance_app.
  cbn [value issue fst].
  destruct (closest_hit sc o d tmin tmax) as [h|].
  - rewrite shader2_closesthit_no_radiance_query. reflexivity.
  - reflexivity.
Qed.

Lemma shader2_bounce_loop_S (n : nat) (i : Intersection F) (o d : float3 F) :
  Shader2.bounce_loop rnd params (S n) i o d =
  bind (Shader2.trace_radiance rnd params (handle params) o d
          (f_lit 1 (-2)) (f_lit 1 16) (set_done false i))
       (fun i' =>
          if done i' then ret i'
          else Shader2.bounce_loop rnd params n
                 (snd (Shader2.shoot_ray_hemisphere rnd i')) (xyz i')
                 (fst (Shader2.shoot_ray_hemisphere rnd i'))).
Proof.
  simpl. apply bind_ext. intros i'.
  destruct (done i'); [reflexivity|].
  destruct (Shader2.shoot_ray_hemisphere rnd i'). reflexivity.
Qed.

Lemma shader2_bounce_loop_count (n : nat) (i : Intersection F)
    (o d : float3 F) :
  let r := Shader2.bounce_loop rnd params n i o d in
  (count_radiance (queries r) <= n)%nat /\
  (done (value r) = false -> count_radiance (queries r) = n).
Proof.
  revert i o d. induction n as [|n IH]; intros i o d.
  - split; [apply Nat.le_refl | reflexivity].
  - cbv zeta. rewrite shader2_bounce_loop_S, value_bind, queries_bind.
    rewrite count_radiance_app, shader2_trace_radiance_count.
    destruct (done (value (Shader2.trace_radiance _ _ _ _ _ _ _ _))) eqn:Hd.
    + split; [unfold count_radiance; simpl; lia|].
      cbn [value ret fst]. congruence.
    + match goal with
      | |- context [Shader2.bounce_loop rnd params n ?j ?p ?q] =>
          destruct (IH j p q) as [Hle Heq]
      end.
      split; [lia|]. intros Hdone. rewrite (Heq Hdone). reflexivity.
Qed.

Lemma shader2_bounce_loop_last (n : nat) (i : Intersection F)
    (o d : float3 F) :
  let r := Shader2.bounce_loop rnd params (S n) i o d in
  exists l i_prev o' d',
    let last := Shader2.trace_radiance rnd params (handle params) o' d'
                  (f_lit 1 (-2)) (f_lit 1 16) (set_done false i_prev) in
    queries r = l ++ queries last /\
    (value r = value last \/
     done (value last) = false /\
     value r = snd (Shader2.shoot_ray_hemisphere rnd (value last))).
Proof.
  revert i o d. induction n as [|n IH]; intros i o d; cbv zeta.
  - rewrite shader2_bounce_loop_S, value_bind, queries_bind.
    exists [], i, o, d.
    destruct (done _) eqn:Hd; simpl; rewrite app_nil_r; split; auto.
  - rewrite shader2_bounce_loop_S, value_bind, queries_bind.
    destruct (done (value (Shader2.trace_radiance _ _ _ _ _ _ _ _))) eqn:Hd.
    + exists [], i, o, d. simpl. rewrite app_nil_r. split; auto.
    + match goal with
      | |- context [Shader2.bounce_loop rnd params (S n) ?j ?p ?q] =>
          destruct (IH j p q) as [l [ip [o' [d' [Hq Hv]]]]]
      end.
      eexists (_ ++ l), ip, o', d'.
      rewrite Hq, app_assoc. split; [reflexivity | exact Hv].
Qed.
End Shader2Bounces.

(** ** The bounce budget *)

Section BounceBudget.
Context {F : Type} {FO : FloatOps F}.
Variable rnd : uint -> F * uint.
Variable uchar4 : Type.

Lemma length_queries (l : list (Query F)) :
  length l = (count_radiance l + count_occlusion l)%nat.
Proof.
  unfold count_radiance, count_occlusion.
  induction l as [|q l IH]; [reflexivity|].
  destruct q; simpl; rewrite IH; lia.
Qed.

Lemma shader_trace_radiance_probes
    (params : Params F (HitGroupData F) uchar4) (garbage : Intersection F)
    (sc : Scene F (HitGroupData F)) (o d : float3 F) (tmin tmax : F)
    (i : Intersection F) :
  (count_occlusion
     (queries (Shader.trace_radiance rnd params garbage sc o d tmin tmax i))
   <= 7)%nat.
Proof.
  unfold Shader.trace_radiance. rewrite queries_bind, count_occlusion_app.
  cbn [value issue fst].
  change (count_occlusion (queries (issue (QRadiance o d tmin tmax))))
    with 0%nat.
  destruct (closest_hit sc o d tmin tmax) as [h|]; [|unfold count_occlusion; simpl; lia].
  destruct (emit (rt_material (sbt_data h))) eqn:Hemit.
  - unfold Shader.__closesthit__radiance. rewrite Hemit. unfold count_occlusion. simpl. lia.
  - destruct (shader_closesthit_diffuse rnd params garbage h o d i Hemit)
      as [i3 [_ [_ [_ [_ [_ [_ [_ [_ Hq]]]]]]]]].
    rewrite Hq. apply (shader_light_loop_count rnd params garbage 7).
Qed.

Lemma shader2_trace_radiance_probes
    (params : Params F (HitGroupData2 F) uchar4)
    (sc : Scene F (HitGroupData2 F)) (o d : float3 F) (tmin tmax : F)
    (i : Intersection F) :
  (count_occlusion
     (queries (Shader2.trace_radiance rnd params sc o d tmin tmax i)) <= 7)%nat.
Proof.
  unfold Shader2.trace_radiance. rewrite queries_bind, count_occlusion_app.
  cbn [value issue fst].
  change (count_occlusion (queries (issue (QRadiance o d tmin tmax))))
    with 0%nat.
  destruct (closest_hit sc o d tmin tmax) as [h|]; [|unfold count_occlusion; simpl; lia].
  destruct (emit (rt_material2 (sbt_data h))) eqn:Hemit.
  - unfold Shader2.__closesthit__radiance. rewrite Hemit. unfold count_occlusion. simpl. lia.
  - destruct (shader2_closesthit_diffuse rnd params h o d i Hemit)
      as [i3 [_ [_ [_ [_ [_ [_ [_ [_ Hq]]]]]]]]].
    rewrite Hq. apply (shader2_light_loop_count rnd params 7).
Qed.

Lemma shader_bounce_loop_probes
    (params : Params F (HitGroupData F) uchar4) (garbage : Intersection F)
    (n : nat) (i : Intersection F) (o d : float3 F) (s : uint) :
  (count_occlusion
     (queries (Shader.bounce_loop rnd params garbage n i o d s)) <= 7 * n)%nat.
Proof.
  revert i o d s. induction n as [|n IH]; intros i o d s.
  - unfold count_occlusion. simpl. lia.
  - rewrite shader_bounce_loop_S, queries_bind, count_occlusion_app.
    pose proof (shader_trace_radiance_probes params garbage (handle params)
                  o d (f_lit 1 (-6)) (f_lit 1 16) (set_done false i)) as Hp.
    destruct (done _).
    + change (count_occlusion (queries (ret _))) with 0%nat. lia.
    + match goal with
      | |- context [Shader.bounce_loop rnd params garbage n ?j ?p ?q ?t] =>
          pose proof (IH j p q t)
      end. lia.
Qed.

Lemma shader2_bounce_loop_probes
    (params : Params F (HitGroupData2 F) uchar4)
    (n : nat) (i : Intersection F) (o d : float3 F) :
  (count_occlusion
     (queries (Shader2.bounce_loop rnd params n i o d)) <= 7 * n)%nat.
Proof.
  revert i o d. induction n as [|n IH]; intros i o d.
  - unfold count_occlusion. simpl. lia.
  - rewrite shader2_bounce_loop_S, queries_bind, count_occlusion_app.
    pose proof (shader2_trace_radiance_probes params (handle params)
                  o d (f_lit 1 (-2)) (f_lit 1 16) (set_done false i)) as Hp.
    destruct (done _).
    + change (count_occlusion (queries (ret _))) with 0%nat. lia.
    + match goal with
      | |- context [Shader2.bounce_loop rnd params n ?j ?p ?q] =>
          pose proof (IH j p q)
      end. lia.
Qed.

(** A radiance query that ends on a non-emitter leaves [done] alone. *)
Lemma shader_trace_radiance_diffuse_done
    (params : Params F (HitGroupData F) uchar4) (garbage : Intersection F)
    (sc : Scene F (HitGroupData F)) (o d : float3 F) (tmin tmax : F)
    (i : Intersection F) (h : HitInfo F (HitGroupData F)) :
  closest_hit sc o d tmin tmax = Some h ->
  emit (rt_material (sbt_data h)) = false ->
  done (value (Shader.trace_radiance rnd params garbage sc o d tmin tmax i))
  = done i.
Proof.
  intros Hh Hemit. unfold Shader.trace_radiance. rewrite value_bind, Hh.
  destruct (shader_closesthit_diffuse rnd params garbage h o d i Hemit)
    as [i3 [_ [_ [_ [Hdone [_ [_ [_ [Hv _]]]]]]]]].
  rewrite Hv. cbn [done set_accum_color].
  destruct (shader_light_loop_payload rnd params garbage Shader.count i3)
    as [s Hs].
  unfold Shader.shoot_ray_to_light. rewrite Hs. exact Hdone.
Qed.

(** In a scene without emitters and without a way out, the loop never sees
    [done]. *)
Lemma shader_bounce_loop_closed_room
    (params : Params F (HitGroupData F) uchar4) (garbage : Intersection F) :
  (forall o d tmin tmax, exists h,
      closest_hit (handle params) o d tmin tmax = Some h /\
      emit (rt_material (sbt_data h)) = false) ->
  forall n i o d s,
    done (fst (value (Shader.bounce_loop rnd params garbage (S n) i o d s)))
    = false.
Proof.
  intros Hroom n. induction n as [|n IH]; intros i o d s.
  - rewrite shader_bounce_loop_S, value_bind.
    destruct (Hroom o d (f_lit 1 (-6)) (f_lit 1 16)) as [h [Hh Hemit]].
    pose proof (shader_trace_radiance_diffuse_done params garbage
                  (handle params) o d (f_lit 1 (-6)) (f_lit 1 16)
                  (set_done false i) Hh Hemit) as Hd.
    cbn [done set_done] in Hd. rewrite Hd. exact Hd.
  - rewrite shader_bounce_loop_S, value_bind.
    destruct (Hroom o d (f_lit 1 (-6)) (f_lit 1 16)) as [h [Hh Hemit]].
    pose proof (shader_trace_radiance_diffuse_done params garbage
                  (handle params) o d (f_lit 1 (-6)) (f_lit 1 16)
                  (set_done false i) Hh Hemit) as Hd.
    cbn [done set_done] in Hd. rewrite Hd. apply IH.
Qed.

(** C4.  The bounce loop of a sample, in either shader file, issues at most
    3 radiance queries and, with the probes of the light sampler, at most
    24 queries in all, so it always comes to an end.  When it ends with
    [done] still false the budget is exhausted: exactly 3 radiance queries
    were issued.  In every case the query log ends with the queries of the
    last radiance query, and [accum_color] is what that query left: the loop
    adds no radiance of its own. *)
Theorem bounce_budget :
  (forall (params : Params F (HitGroupData F) uchar4)
          (garbage i : Intersection F) (o d : float3 F) (s : uint),
      let r := Shader.bounce_loop rnd params garbage Shader.nb_bounces i o d s in
      (count_radiance (queries r) <= 3)%nat /\
      (length (queries r) <= 24)%nat /\
      (done (fst (value r)) = false -> count_radiance (queries r) = 3%nat) /\
      exists l i_prev o' d',
        let last := Shader.trace_radiance rnd params garbage (handle params)
                      o' d' (f_lit 1 (-6)) (f_lit 1 16)
                      (set_done false i_prev) in
        queries r = l ++ queries last /\
        accum_color (fst (value r)) = accum_color (value last)) /\
  (forall (params : Params F (HitGroupData2 F) uchar4)
          (i : Intersection F) (o d : float3 F),
      let r := Shader2.bounce_loop rnd params Shader2.nb_bounces i o d in
      (count_radiance (queries r) <= 3)%nat /\
      (length (queries r) <= 24)%nat /\
      (done (value r) = false -> count_radiance (queries r) = 3%nat) /\
      exists l i_prev o' d',
        let last := Shader2.trace_radiance rnd params (handle params)
                      o' d' (f_lit 1 (-2)) (f_lit 1 16)
                      (set_done false i_prev) in
        queries r = l ++ queries last /\
        accum_color (value r) = accum_color (value last)).
Proof.
  split.
  - intros params garbage i o d s r. unfold r, Shader.nb_bounces.
    destruct (shader_bounce_loop_count rnd params garbage 3 i o d s)
      as [Hle Hex].
    pose proof (shader_bounce_loop_probes params garbage 3 i o d s) as Hp.
    split; [exact Hle|]. split; [rewrite length_queries; lia|].
    split; [exact Hex|].
    destruct (shader_bounce_loop_last rnd params garbage 2 i o d s)
      as [l [ip [o' [d' [Hq Hv]]]]].
    exists l, ip, o', d'. cbv zeta. rewrite Hq, Hv. split; reflexivity.
  - intros params i o d r. unfold r, Shader2.nb_bounces.
    destruct (shader2_bounce_loop_count rnd params 3 i o d) as [Hle Hex].
    pose proof (shader2_bounce_loop_probes params 3 i o d) as Hp.
    split; [exact Hle|]. split; [rewrite length_queries; lia|].
    split; [exact Hex|].
    destruct (shader2_bounce_loop_last rnd params 2 i o d)
      as [l [ip [o' [d' [Hq Hv]]]]].
    exists l, ip, o', d'. cbv zeta. rewrite Hq. split; [reflexivity|].
    destruct Hv as [Hv | [_ Hv]]; rewrite Hv; [reflexivity|].
    destruct (shader2_hemisphere_payload rnd
                (value (Shader2.trace_radiance rnd params (handle params) o' d'
                          (f_lit 1 (-2)) (f_lit 1 16) (set_done false ip))))
      as [s' Hs].
    rewrite Hs. reflexivity.
Qed.
End BounceBudget.

(** The budget in the closed room [Walls], for the loop from the eye along
    [z]: it ends after its third radiance query, [done] still false. *)
Lemma bounce_budget_closed_room :
  let r := Shader.bounce_loop Random.rnd Walls.params Walls.garbage
             Shader.nb_bounces (set_seed 0%Z (Intersection_new Walls.garbage))
             (make_float3 0%R 0%R 0%R) (make_float3 0%R 0%R 1%R) 0%Z in
  done (fst (value r)) = false /\ count_radiance (queries r) = 3%nat.
Proof.
  intros r.
  assert (Hdone : done (fst (value r)) = false).
  { unfold r, Shader.nb_bounces.
    apply shader_bounce_loop_closed_room.
    intros o d tmin tmax. exists Walls.wall_hit. split; reflexivity. }
  split; [exact Hdone|].
  destruct (proj1 (@bounce_budget R R_float Random.rnd unit)
              Walls.params Walls.garbage
              (set_seed 0%Z (Intersection_new Walls.garbage))
              (make_float3 0%R 0%R 0%R) (make_float3 0%R 0%R 1%R) 0%Z)
    as [_ [_ [Hex _]]].
  exact (Hex Hdone).
Defined.

(** ** The running mean of the accumulation buffer *)

Section TemporalBlend.
Local Open Scope R_scope.
Context {Data uchar4 : Type}.
Variable make_color : float3 R -> uchar4.

Lemma store_same (A : Type) (buf : Z -> A) (i : Z) (v : A) :
  store buf i v i = v.
Proof. unfold store. rewrite Z.eqb_refl. reflexivity. Qed.

Lemma wrap_int_small (n : Z) :
  (- 2 ^ 31 <= n < 2 ^ 31)%Z -> wrap_int n = n.
Proof.
  intros Hn. unfold wrap_int.
  rewrite Z.mod_small by lia. lia.
Qed.

(** Frame 0 writes the estimate as it is. *)
Lemma accumulate_first (p : Params R Data uchar4) (idx_x idx_y : uint)
    (e : float3 R) :
  pixel_cell (accumulate make_color (set_subframe_index p 0) idx_x idx_y e)
             idx_x idx_y = e.
Proof.
  unfold pixel_cell, accumulate. cbn [width set_subframe_index set_buffers
    subframe_index accum_buffer]. simpl (0 <? 0)%Z. cbv iota.
  rewrite store_same. destruct e; reflexivity.
Qed.

(** A later frame [k] moves the cell from [c] to [(k*c + e) / (k+1)]. *)
Lemma accumulate_blend (p : Params R Data uchar4) (idx_x idx_y : uint)
    (e : float3 R) (k : Z) :
  (0 < k < 2 ^ 31 - 1)%Z ->
  let c := pixel_cell p idx_x idx_y in
  pixel_cell (accumulate make_color (set_subframe_index p k) idx_x idx_y e)
             idx_x idx_y =
  make_float3 ((IZR k * fx c + fx e) / IZR (k + 1))
              ((IZR k * fy c + fy e) / IZR (k + 1))
              ((IZR k * fz c + fz e) / IZR (k + 1)).
Proof.
  intros Hk c. unfold c, pixel_cell, accumulate.
  cbn [width set_subframe_index set_buffers subframe_index accum_buffer].
  replace (0 <? k)%Z with true by (symmetry; apply Z.ltb_lt; lia).
  rewrite store_same, wrap_int_small by lia.
  assert (Hk1 : IZR (k + 1) <> 0) by (apply not_0_IZR; lia).
  apply float3_eq; simpl; rewrite plus_IZR in *;
    generalize dependent (IZR k); intros K HK; field; exact HK.
Qed.

Lemma pixel_cell_accumulate_frames_from (idx_x idx_y : uint)
    (es : list (float3 R)) :
  forall (p : Params R Data uchar4) (k : Z),
    (0 < k)%Z -> (k + Z.of_nat (length es) <= 2 ^ 31 - 1)%Z ->
    let c := pixel_cell p idx_x idx_y in
    let n := IZR (k + Z.of_nat (length es)) in
    pixel_cell (accumulate_frames make_color p idx_x idx_y es k) idx_x idx_y =
    make_float3 ((IZR k * fx c + fx (sum3 es)) / n)
                ((IZR k * fy c + fy (sum3 es)) / n)
                ((IZR k * fz c + fz (sum3 es)) / n).
Proof.
  induction es as [|e es IH]; intros p k Hk Hlen c n.
  - unfold n. cbn [accumulate_frames length Z.of_nat sum3 fold_right].
    rewrite Z.add_0_r.
    assert (Hk0 : IZR k <> 0) by (apply not_0_IZR; lia).
    fold c. apply float3_eq; simpl; field; exact Hk0.
  - cbn [accumulate_frames]. cbn [length] in Hlen, n.
    rewrite Nat2Z.inj_succ in Hlen.
    rewrite IH by lia. cbv zeta.
    rewrite accumulate_blend by lia. cbv zeta. fold c.
    unfold n. rewrite Nat2Z.inj_succ.
    replace (k + 1 + Z.of_nat (length es))%Z
      with (k + Z.succ (Z.of_nat (length es)))%Z by lia.
    assert (Hk1 : IZR (k + 1) <> 0) by (apply not_0_IZR; lia).
    assert (Hn : IZR (k + Z.succ (Z.of_nat (length es))) <> 0)
      by (apply not_0_IZR; lia).
    rewrite plus_IZR in Hk1 |- *.
    generalize dependent (IZR (k + Z.succ (Z.of_nat (length es)))).
    intros N HN.
    generalize dependent (IZR k). intros K HK.
    apply float3_eq; simpl; field; tauto.
Qed.

End TemporalBlend.

(** ** Reproducibility, [shader.cu] *)

Section ShaderDeterminism.
Context {F : Type} {FO : FloatOps F}.
Variable rnd : uint -> F * uint.
Variable uchar4 : Type.
Variables p1 p2 : Params F (HitGroupData F) uchar4.
Variables g1 g2 : Intersection F.
Hypothesis Hlaunch : same_launch p1 p2.

Lemma same_launch_handle : handle p1 = handle p2.
Proof. unfold same_launch in Hlaunch. tauto. Qed.

(** A probe on a fresh payload: the flag, and the material once the flag is
    set, do not depend on what the storage held. *)
Lemma shader_probe_fresh (sc : Scene F (HitGroupData F)) (o d : float3 F)
    (tmin tmax : F) :
  let t1 := value (Shader.trace_occlusion sc o d tmin tmax (Intersection_new g1)) in
  let t2 := value (Shader.trace_occlusion sc o d tmin tmax (Intersection_new g2)) in
  hit t1 = hit t2 /\ (hit t1 = true -> material t1 = material t2).
Proof.
  cbv zeta. rewrite !shader_trace_occlusion_value.
  destruct (first_hit sc o d tmin tmax) as [h|].
  - unfold Shader.__closesthit__occlusion.
    destruct (emit (rt_material (sbt_data h))); simpl.
    + split; reflexivity.
    + split; [reflexivity | discriminate].
  - simpl. split; [reflexivity | discriminate].
Qed.

Lemma shader_light_loop_same (n : nat) (i1 i2 : Intersection F) :
  same_point i1 i2 -> seed i1 = seed i2 ->
  let r1 := Shader.shoot_ray_to_light_loop rnd p1 g1 n i1 in
  let r2 := Shader.shoot_ray_to_light_loop rnd p2 g2 n i2 in
  fst (value r1) = fst (value r2) /\
  seed (snd (value r1)) = seed (snd (value r2)) /\
  queries r1 = queries r2.
Proof.
  revert i1 i2. induction n as [|n IH]; intros i1 i2 [Hn Hx] Hs; cbv zeta.
  - simpl. auto.
  - rewrite !shader_shoot_ray_to_light_loop_S. cbv zeta.
    rewrite !value_bind, !queries_bind, !shader_trace_occlusion_queries.
    rewrite <- same_launch_handle.
    cbn [xyz normal seed set_seed].
    rewrite <- Hn, <- Hx, <- Hs.
    set (dir := fst (Shader.shoot_ray_hemisphere rnd (normal i1) (seed i1))).
    set (s' := snd (Shader.shoot_ray_hemisphere rnd (normal i1) (seed i1))).
    destruct (shader_probe_fresh (handle p1) (xyz i1) dir
                (f_lit 1 (-6)) (f_lit 1 16)) as [Hh Hm].
    rewrite <- Hh.
    destruct (hit (value (Shader.trace_occlusion (handle p1) (xyz i1) dir
                            (f_lit 1 (-6)) (f_lit 1 16) (Intersection_new g1))))
      eqn:Hhit.
    + rewrite <- (Hm eq_refl). simpl. auto.
    + destruct (IH (set_seed s' i1) (set_seed s' i2)) as [Hv [Hs' Hq]].
      { split; simpl; assumption. }
      { reflexivity. }
      rewrite Hv, Hs', Hq. auto.
Qed.

Lemma same_live_refl (i : Intersection F) : same_live i i.
Proof. unfold same_live; tauto. Qed.

Lemma shader_closesthit_same (h : HitInfo F (HitGroupData F))
    (o d : float3 F) (i1 i2 : Intersection F) :
  same_live i1 i2 ->
  let r1 := Shader.__closesthit__radiance rnd p1 g1 h o d i1 in
  let r2 := Shader.__closesthit__radiance rnd p2 g2 h o d i2 in
  same_live (value r1) (value r2) /\
  (done (value r1) = false -> done i1 = false ->
   same_point (value r1) (value r2)) /\
  queries r1 = queries r2.
Proof.
  intros [Hm [Ha [Hh [Hd Hs]]]]. cbv zeta.
  unfold Shader.__closesthit__radiance.
  destruct (emit (rt_material (sbt_data h))) eqn:Hemit.
  - simpl. unfold same_live. simpl. rewrite Hm, Ha, Hh, Hs.
    split; [tauto|]. split; [discriminate | reflexivity].
  - cbv zeta. rewrite !value_bind, !queries_bind.
    match goal with
    | |- context [Shader.shoot_ray_to_light rnd p1 g1 ?X1] =>
        match goal with
        | |- context [Shader.shoot_ray_to_light rnd p2 g2 ?X2] =>
            set (x1 := X1); set (x2 := X2)
        end
    end.
    assert (Hpt : same_point x1 x2) by (split; reflexivity).
    assert (Hsd : seed x1 = seed x2) by exact Hs.
    destruct (shader_light_loop_same Shader.count Hpt Hsd)
      as [Hv [Hs' Hq]].
    destruct (shader_light_loop_payload rnd p1 g1 Shader.count x1) as [s1 E1].
    destruct (shader_light_loop_payload rnd p2 g2 Shader.count x2) as [s2 E2].
    unfold Shader.shoot_ray_to_light.
    rewrite E1, E2 in Hs'. cbn [seed set_seed] in Hs'.
    destruct (value (Shader.shoot_ray_to_light_loop rnd p1 g1 Shader.count x1))
      as [l1 j1].
    destruct (value (Shader.shoot_ray_to_light_loop rnd p2 g2 Shader.count x2))
      as [l2 j2].
    cbn [fst snd] in *. subst j1 j2 l2 s2.
    rewrite Hq. cbn [value ret fst queries snd].
    unfold same_live, same_point, x1, x2.
    cbn [mask_color accum_color hit done seed normal xyz set_accum_color
         set_seed set_mask_color set_normal set_xyz].
    rewrite Hm, Ha, Hh, Hd.
    split; [tauto|]. split; [intros _ _; split; reflexivity | reflexivity].
Qed.

Lemma shader_trace_radiance_same (o d : float3 F) (tmin tmax : F)
    (i1 i2 : Intersection F) :
  same_live i1 i2 ->
  let r1 := Shader.trace_radiance rnd p1 g1 (handle p1) o d tmin tmax i1 in
  let r2 := Shader.trace_radiance rnd p2 g2 (handle p2) o d tmin tmax i2 in
  same_live (value r1) (value r2) /\
  (done (value r1) = false -> done i1 = false ->
   same_point (value r1) (value r2)) /\
  queries r1 = queries r2.
Proof.
  intros Hlive. cbv zeta. unfold Shader.trace_radiance.
  rewrite <- same_launch_handle.
  rewrite !value_bind, !queries_bind. cbn [value issue fst queries snd].
  destruct (closest_hit (handle p1) o d tmin tmax) as [h|].
  - destruct (shader_closesthit_same h o d Hlive) as [H1 [H2 H3]].
    rewrite H3. auto.
  - destruct Hlive as [Hm [Ha [Hh [Hd Hs]]]].
    unfold same_live. simpl. rewrite Hm, Ha, Hh, Hs.
    split; [tauto|]. split; [discriminate | reflexivity].
Qed.

Lemma shader_bounce_loop_same (n : nat) (i1 i2 : Intersection F)
    (o d : float3 F) (s : uint) :
  same_live i1 i2 ->
  let r1 := Shader.bounce_loop rnd p1 g1 n i1 o d s in
  let r2 := Shader.bounce_loop rnd p2 g2 n i2 o d s in
  same_live (fst (value r1)) (fst (value r2)) /\
  snd (value r1) = snd (value r2) /\
  queries r1 = queries r2.
Proof.
  revert i1 i2 o d s. induction n as [|n IH]; intros i1 i2 o d s Hlive.
  - simpl. auto.
  - cbv zeta. rewrite !shader_bounce_loop_S.
    rewrite !value_bind, !queries_bind.
    assert (Hlive' : same_live (set_done false i1) (set_done false i2)).
    { destruct Hlive as [Hm [Ha [Hh [Hd Hs]]]].
      unfold same_live. simpl. auto. }
    destruct (shader_trace_radiance_same o d (f_lit 1 (-6)) (f_lit 1 16) Hlive')
      as [H1 [H2 H3]].
    rewrite H3.
    set (j1 := value (Shader.trace_radiance rnd p1 g1 (handle p1) o d
                        (f_lit 1 (-6)) (f_lit 1 16) (set_done false i1))) in *.
    set (j2 := value (Shader.trace_radiance rnd p2 g2 (handle p2) o d
                        (f_lit 1 (-6)) (f_lit 1 16) (set_done false i2))) in *.
    assert (Hd : done j1 = done j2) by (unfold same_live in H1; tauto).
    rewrite <- Hd.
    destruct (done j1) eqn:Hdone.
    + simpl. rewrite !app_nil_r. auto.
    + destruct (H2 eq_refl eq_refl) as [Hn Hx].
      assert (Hs : seed j1 = seed j2) by (unfold same_live in H1; tauto).
      rewrite <- Hn, <- Hx, <- Hs.
      match goal with
      | |- context [Shader.bounce_loop rnd p1 g1 n j1 ?a ?b ?c] =>
          destruct (IH j1 j2 a b c H1) as [G1 [G2 G3]]
      end.
      rewrite G2, G3. auto.
Qed.

Lemma shader_sample_same (idx2 size : float2 F) (s : uint) :
  let r1 := Shader.sample rnd p1 g1 idx2 size s in
  let r2 := Shader.sample rnd p2 g2 idx2 size s in
  accum_color (fst (value r1)) = accum_color (fst (value r2)) /\
  snd (value r1) = snd (value r2) /\
  queries r1 = queries r2.
Proof.
  cbv zeta. unfold Shader.sample.
  destruct (Shader.antialiasing_jitter rnd s) as [jitter s'].
  destruct Hlaunch as [_ [_ [He [HU [HV [HW _]]]]]].
  rewrite <- He, <- HU, <- HV, <- HW.
  match goal with
  | |- context [Shader.bounce_loop rnd p1 g1 ?n ?j1 ?a ?b ?c] =>
      destruct (@shader_bounce_loop_same n j1
                  (set_seed s (Intersection_new g2)) a b c) as [G1 [G2 G3]]
  end.
  { unfold same_live. simpl. tauto. }
  unfold same_live in G1. rewrite G2, G3. tauto.
Qed.

Lemma shader_sample_loop_same (n : nat) (idx2 size : float2 F) (s : uint)
    (accum : float3 F) :
  Shader.sample_loop rnd p1 g1 n idx2 size s accum =
  Shader.sample_loop rnd p2 g2 n idx2 size s accum.
Proof.
  revert s accum. induction n as [|n IH]; intros s accum; [reflexivity|].
  cbn [Shader.sample_loop].
  destruct (shader_sample_same idx2 size s) as [Ha [Hs Hq]].
  unfold bind.
  destruct (Shader.sample rnd p1 g1 idx2 size s) as [[j1 s1] l1].
  destruct (Shader.sample rnd p2 g2 idx2 size s) as [[j2 s2] l2].
  cbn [value queries fst snd] in Ha, Hs, Hq. subst s2 l2.
  rewrite Ha, IH. reflexivity.
Qed.

(** The estimate of a launch depends on the launch parameters only: not on
    the buffers, not on what the storage of the payloads held. *)
Lemma shader_pixel_estimate_same (tea4 : uint -> uint -> uint)
    (idx_x idx_y : uint) :
  Shader.pixel_estimate rnd tea4 p1 g1 idx_x idx_y =
  Shader.pixel_estimate rnd tea4 p2 g2 idx_x idx_y.
Proof.
  unfold Shader.pixel_estimate.
  destruct Hlaunch as [Hw [Hh [_ [_ [_ [_ [Hf [Hn _]]]]]]]].
  rewrite <- Hw, <- Hh, <- Hf, <- Hn.
  rewrite shader_sample_loop_same. reflexivity.
Qed.
End ShaderDeterminism.

(** ** Reproducibility, [shader2.cu] *)

Section Shader2Determinism.
Context {F : Type} {FO : FloatOps F}.
Variable rnd : uint -> F * uint.
Variable uchar4 : Type.
Variables p1 p2 : Params F (HitGroupData2 F) uchar4.
Variables g1 g2 : Intersection F.
Hypothesis Hlaunch : same_launch p1 p2.

Lemma same_launch_handle2 : handle p1 = handle p2.
Proof. unfold same_launch in Hlaunch. tauto. Qed.

Lemma shader2_hemisphere_same (i1 i2 : Intersection F) :
  same_live2 i1 i2 -> same_point i1 i2 ->
  fst (Shader2.shoot_ray_hemisphere rnd i1) =
    fst (Shader2.shoot_ray_hemisphere rnd i2) /\
  same_live2 (snd (Shader2.shoot_ray_hemisphere rnd i1))
             (snd (Shader2.shoot_ray_hemisphere rnd i2)) /\
  same_point (snd (Shader2.shoot_ray_hemisphere rnd i1))
             (snd (Shader2.shoot_ray_hemisphere rnd i2)).
Proof.
  intros [[Hm [Ha [Hh [Hd Hs]]]] Hmat] [Hn Hx].
  unfold Shader2.shoot_ray_hemisphere. rewrite <- Hs.
  destruct (Shader2.rng rnd (seed i1)) as [a s1].
  destruct (Shader2.rng rnd s1) as [b s2].
  destruct (Shader2.rng rnd s2) as [c s3].
  cbn [fst snd normal set_seed]. rewrite <- Hn.
  unfold same_live2, same_live, same_point. simpl. tauto.
Qed.

Lemma shader2_trace_occlusion_same (o d : float3 F) (tmin tmax : F)
    (i1 i2 : Intersection F) :
  same_live2 i1 i2 -> same_point i1 i2 ->
  let t1 := value (Shader2.trace_occlusion (handle p1) o d tmin tmax i1) in
  let t2 := value (Shader2.trace_occlusion (handle p2) o d tmin tmax i2) in
  same_live2 t1 t2 /\ same_point t1 t2.
Proof.
  intros [[Hm [Ha [Hh [Hd Hs]]]] Hmat] [Hn Hx]. cbv zeta.
  rewrite <- same_launch_handle2, !shader2_trace_occlusion_value.
  destruct (first_hit (handle p1) o d tmin tmax) as [h|].
  - unfold Shader2.__closesthit__occlusion.
    destruct (emit (rt_material2 (sbt_data h)));
      unfold same_live2, same_live, same_point; simpl; tauto.
  - unfold same_live2, same_live, same_point. simpl.
    intuition discriminate.
Qed.

Lemma shader2_light_loop_same (n : nat) (i1 i2 : Intersection F) :
  same_live2 i1 i2 -> same_point i1 i2 ->
  let r1 := Shader2.shoot_ray_to_light_loop rnd p1 n i1 in
  let r2 := Shader2.shoot_ray_to_light_loop rnd p2 n i2 in
  fst (value r1) = fst (value r2) /\
  same_live2 (snd (value r1)) (snd (value r2)) /\
  same_point (snd (value r1)) (snd (value r2)) /\
  queries r1 = queries r2.
Proof.
  revert i1 i2. induction n as [|n IH]; intros i1 i2 Hlive Hpt; cbv zeta.
  - simpl. auto.
  - rewrite !shader2_shoot_ray_to_light_loop_S. cbv zeta.
    rewrite !value_bind, !queries_bind, !shader2_trace_occlusion_queries.
    destruct (shader2_hemisphere_same Hlive Hpt) as [Hdir [Hl' Hp']].
    rewrite <- Hdir.
    set (dir := fst (Shader2.shoot_ray_hemisphere rnd i1)) in *.
    set (j1 := snd (Shader2.shoot_ray_hemisphere rnd i1)) in *.
    set (j2 := snd (Shader2.shoot_ray_hemisphere rnd i2)) in *.
    assert (Hx : xyz j1 = xyz j2) by (unfold same_point in Hp'; tauto).
    rewrite <- Hx.
    destruct (shader2_trace_occlusion_same (xyz j1) dir (f_lit 1 (-2))
                (f_lit 1 16) Hl' Hp') as [Hl'' Hp''].
    set (t1 := value (Shader2.trace_occlusion (handle p1) (xyz j1) dir
                        (f_lit 1 (-2)) (f_lit 1 16) j1)) in *.
    set (t2 := value (Shader2.trace_occlusion (handle p2) (xyz j1) dir
                        (f_lit 1 (-2)) (f_lit 1 16) j2)) in *.
    assert (Hh : hit t1 = hit t2)
      by (unfold same_live2, same_live in Hl''; tauto).
    rewrite <- Hh.
    destruct (hit t1) eqn:Hhit.
    + assert (Hmat : material t1 = material t2)
        by (unfold same_live2 in Hl''; apply Hl''; exact Hhit).
      assert (Hn : normal t1 = normal t2)
        by (unfold same_point in Hp''; tauto).
      cbn [value ret fst snd queries]. rewrite Hmat, Hn. auto.
    + destruct (IH t1 t2 Hl'' Hp'') as [G1 [G2 [G3 G4]]].
      rewrite G1, G4. auto.
Qed.

Lemma shader2_closesthit_same (h : HitInfo F (HitGroupData2 F))
    (o d : float3 F) (i1 i2 : Intersection F) :
  same_live2 i1 i2 ->
  let r1 := Shader2.__closesthit__radiance rnd p1 h o d i1 in
  let r2 := Shader2.__closesthit__radiance rnd p2 h o d i2 in
  same_live2 (value r1) (value r2) /\
  (done (value r1) = false -> done i1 = false ->
   same_point (value r1) (value r2)) /\
  queries r1 = queries r2.
Proof.
  intros [[Hm [Ha [Hh [Hd Hs]]]] Hmat]. cbv zeta.
  unfold Shader2.__closesthit__radiance.
  destruct (emit (rt_material2 (sbt_data h))) eqn:Hemit.
  - unfold same_live2, same_live.
    cbn [value ret fst queries snd mask_color accum_color hit done seed
         material set_done set_accum_color].
    rewrite Hm, Ha, Hs.
    split; [tauto|]. split; [discriminate | reflexivity].
  - cbv zeta. rewrite !value_bind, !queries_bind.
    match goal with
    | |- context [Shader2.shoot_ray_to_light rnd p1 ?X1] =>
        match goal with
        | |- context [Shader2.shoot_ray_to_light rnd p2 ?X2] =>
            set (x1 := X1); set (x2 := X2)
        end
    end.
    assert (Hpt : same_point x1 x2) by (split; reflexivity).
    assert (Hlv : same_live2 x1 x2).
    { unfold same_live2, same_live, x1, x2.
      cbn [mask_color accum_color hit done seed material set_accum_color
           set_seed set_mask_color set_normal set_xyz].
      rewrite Hm. tauto. }
    destruct (shader2_light_loop_same Shader2.count Hlv Hpt)
      as [Hv [Hl' [Hp' Hq]]].
    unfold Shader2.shoot_ray_to_light.
    destruct (value (Shader2.shoot_ray_to_light_loop rnd p1 Shader2.count x1))
      as [l1 j1].
    destruct (value (Shader2.shoot_ray_to_light_loop rnd p2 Shader2.count x2))
      as [l2 j2].
    cbn [fst snd] in *. subst l2.
    rewrite Hq. cbn [value ret fst queries snd].
    destruct Hl' as [[Hm' [Ha' [Hh' [Hd' Hs']]]] Hmat'].
    destruct Hp' as [Hn' Hx'].
    unfold same_live2, same_live, same_point.
    cbn [mask_color accum_color hit done seed normal xyz material
         set_accum_color].
    rewrite Hm', Ha'.
    split; [tauto|]. split; [intros _ _; tauto | reflexivity].
Qed.

Lemma shader2_trace_radiance_same (o d : float3 F) (tmin tmax : F)
    (i1 i2 : Intersection F) :
  same_live2 i1 i2 ->
  let r1 := Shader2.trace_radiance rnd p1 (handle p1) o d tmin tmax i1 in
  let r2 := Shader2.trace_radiance rnd p2 (handle p2) o d tmin tmax i2 in
  same_live2 (value r1) (value r2) /\
  (done (value r1) = false -> done i1 = false ->
   same_point (value r1) (value r2)) /\
  queries r1 = queries r2.
Proof.
  intros Hlive. cbv zeta. unfold Shader2.trace_radiance.
  rewrite <- same_launch_handle2.
  rewrite !value_bind, !queries_bind. cbn [value issue fst queries snd].
  destruct (closest_hit (handle p1) o d tmin tmax) as [h|].
  - destruct (shader2_closesthit_same h o d Hlive) as [H1 [H2 H3]].
    rewrite H3. auto.
  - destruct Hlive as [[Hm [Ha [Hh [Hd Hs]]]] Hmat].
    unfold same_live2, same_live.
    cbn [value ret fst mask_color accum_color hit done seed material
         Shader2.__miss__radiance set_done set_accum_color].
    rewrite Hm, Ha, Hs.
    split; [tauto|]. split; [discriminate | reflexivity].
Qed.

Lemma shader2_bounce_loop_same (n : nat) (i1 i2 : Intersection F)
    (o d : float3 F) :
  same_live2 i1 i2 ->
  let r1 := Shader2.bounce_loop rnd p1 n i1 o d in
  let r2 := Shader2.bounce_loop rnd p2 n i2 o d in
  same_live2 (value r1) (value r2) /\ queries r1 = queries r2.
Proof.
  revert i1 i2 o d. induction n as [|n IH]; intros i1 i2 o d Hlive.
  - simpl. auto.
  - cbv zeta. rewrite !shader2_bounce_loop_S.
    rewrite !value_bind, !queries_bind.
    assert (Hlive' : same_live2 (set_done false i1) (set_done false i2)).
    { destruct Hlive as [[Hm [Ha [Hh [Hd Hs]]]] Hmat].
      unfold same_live2, same_live. simpl. tauto. }
    destruct (shader2_trace_radiance_same o d (f_lit 1 (-2)) (f_lit 1 16)
                Hlive') as [H1 [H2 H3]].
    rewrite H3.
    set (j1 := value (Shader2.trace_radiance rnd p1 (handle p1) o d
                        (f_lit 1 (-2)) (f_lit 1 16) (set_done false i1))) in *.
    set (j2 := value (Shader2.trace_radiance rnd p2 (handle p2) o d
                        (f_lit 1 (-2)) (f_lit 1 16) (set_done false i2))) in *.
    assert (Hd : done j1 = done j2)
      by (unfold same_live2, same_live in H1; tauto).
    rewrite <- Hd.
    destruct (done j1) eqn:Hdone.
    + cbn [value ret fst queries snd]. rewrite !app_nil_r. auto.
    + pose proof (H2 eq_refl eq_refl) as Hpt.
      destruct (shader2_hemisphere_same H1 Hpt) as [Hdir [Hl' Hp']].
      destruct Hpt as [Hn Hx].
      rewrite <- Hdir, <- Hx.
      match goal with
      | |- context [Shader2.bounce_loop rnd p1 n ?k1 ?a ?b] =>
          destruct (IH k1 (snd (Shader2.shoot_ray_hemisphere rnd j2)) a b Hl')
            as [G1 G2]
      end.
      rewrite G2. auto.
Qed.

Lemma shader2_sample_same (idx2 size : float2 F) (s : uint) :
  let r1 := Shader2.sample rnd p1 g1 idx2 size s in
  let r2 := Shader2.sample rnd p2 g2 idx2 size s in
  accum_color (fst (value r1)) = accum_color (fst (value r2)) /\
  snd (value r1) = snd (value r2) /\
  queries r1 = queries r2.
Proof.
  cbv zeta. unfold Shader2.sample.
  destruct (Shader2.antialiasing_jitter rnd s) as [jitter s'].
  destruct Hlaunch as [_ [_ [He [HU [HV [HW _]]]]]].
  rewrite <- He, <- HU, <- HV, <- HW.
  rewrite !value_bind, !queries_bind.
  match goal with
  | |- context [Shader2.bounce_loop rnd p1 ?n ?j1 ?a ?b] =>
      destruct (@shader2_bounce_loop_same n j1
                  (set_seed s (Intersection_new g2)) a b) as [G1 G2]
  end.
  { unfold same_live2, same_live. simpl. intuition discriminate. }
  unfold same_live2, same_live in G1. rewrite G2.
  cbn [value ret fst snd queries]. tauto.
Qed.

Lemma shader2_sample_loop_same (n : nat) (idx2 size : float2 F) (s : uint)
    (accum : float3 F) :
  Shader2.sample_loop rnd p1 g1 n idx2 size s accum =
  Shader2.sample_loop rnd p2 g2 n idx2 size s accum.
Proof.
  revert s accum. induction n as [|n IH]; intros s accum; [reflexivity|].
  cbn [Shader2.sample_loop].
  destruct (shader2_sample_same idx2 size s) as [Ha [Hs Hq]].
  unfold bind.
  destruct (Shader2.sample rnd p1 g1 idx2 size s) as [[j1 s1] l1].
  destruct (Shader2.sample rnd p2 g2 idx2 size s) as [[j2 s2] l2].
  cbn [value queries fst snd] in Ha, Hs, Hq. subst s2 l2.
  rewrite Ha, IH. reflexivity.
Qed.

Lemma shader2_pixel_estimate_same (tea4 : uint -> uint -> uint)
    (idx_x idx_y : uint) :
  Shader2.pixel_estimate rnd tea4 p1 g1 idx_x idx_y =
  Shader2.pixel_estimate rnd tea4 p2 g2 idx_x idx_y.
Proof.
  unfold Shader2.pixel_estimate.
  destruct Hlaunch as [Hw [Hh [_ [_ [_ [_ [Hf [Hn _]]]]]]]].
  rewrite <- Hw, <- Hh, <- Hf, <- Hn.
  rewrite shader2_sample_loop_same. reflexivity.
Qed.
End Shader2Determinism.

(** ** Reproducibility of a launch *)

Section Reproducible.
Context {F : Type} {FO : FloatOps F}.
Variable rnd : uint -> F * uint.
Variable tea4 : uint -> uint -> uint.
Variable uchar4 : Type.
Variable make_color : float3 F -> uchar4.

(** What a launch leaves in the pixel's cells of the two buffers. *)
Lemma pixel_cell_accumulate (Data : Type) (p : Params F Data uchar4)
    (idx_x idx_y : uint) (e : float3 F) :
  let blended :=
    if (0 <? subframe_index p)%Z then
      lerp (pixel_cell p idx_x idx_y) e
           (f_of_Z 1 / f_of_Z (wrap_int (subframe_index p + 1)))%f
    else e in
  pixel_cell (accumulate make_color p idx_x idx_y e) idx_x idx_y = blended /\
  frame_buffer (accumulate make_color p idx_x idx_y e)
               (wrap32 (idx_y * width p + idx_x)) = make_color blended.
Proof.
  cbv zeta. unfold pixel_cell, accumulate.
  cbn [width set_buffers accum_buffer frame_buffer].
  unfold store. rewrite !Z.eqb_refl.
  split; [|reflexivity].
  destruct (0 <? subframe_index p)%Z.
  - destruct (lerp _ _ _); reflexivity.
  - destruct e; reflexivity.
Qed.

Lemma shader_raygen_value (p : Params F (HitGroupData F) uchar4)
    (g : Intersection F) (idx_x idx_y : uint) :
  value (Shader.__raygen__rg rnd tea4 make_color p g idx_x idx_y) =
  accumulate make_color p idx_x idx_y
    (value (Shader.pixel_estimate rnd tea4 p g idx_x idx_y)).
Proof. unfold Shader.__raygen__rg. rewrite value_bind. reflexivity. Qed.

Lemma shader2_raygen_value (p : Params F (HitGroupData2 F) uchar4)
    (g : Intersection F) (idx_x idx_y : uint) :
  value (Shader2.__raygen__rg rnd tea4 make_color p g idx_x idx_y) =
  accumulate make_color p idx_x idx_y
    (value (Shader2.pixel_estimate rnd tea4 p g idx_x idx_y)).
Proof. unfold Shader2.__raygen__rg. rewrite value_bind. reflexivity. Qed.

Lemma accumulate_same (Data : Type) (p1 p2 : Params F Data uchar4)
    (idx_x idx_y : uint) (e : float3 F) :
  same_launch p1 p2 ->
  pixel_cell p1 idx_x idx_y = pixel_cell p2 idx_x idx_y ->
  let q1 := accumulate make_color p1 idx_x idx_y e in
  let q2 := accumulate make_color p2 idx_x idx_y e in
  pixel_cell q1 idx_x idx_y = pixel_cell q2 idx_x idx_y /\
  frame_buffer q1 (wrap32 (idx_y * width p1 + idx_x)) =
  frame_buffer q2 (wrap32 (idx_y * width p2 + idx_x)).
Proof.
  intros Hl Hc. cbv zeta.
  destruct (pixel_cell_accumulate p1 idx_x idx_y e) as [A1 B1].
  destruct (pixel_cell_accumulate p2 idx_x idx_y e) as [A2 B2].
  rewrite A1, A2, B1, B2.
  destruct Hl as [_ [_ [_ [_ [_ [_ [Hf _]]]]]]].
  rewrite Hc, Hf. split; reflexivity.
Qed.

(** C9.  Two executions of the ray generation for the same pixel with the
    same launch parameters (image size, camera, frame index, sample count,
    scene) yield the same estimate [accum_color], whatever arithmetic
    [float] has, whatever the two buffers hold and whatever the storage of
    the payloads held: the seed is [tea<4>] of the pixel's linear index and
    the frame index, and nothing else enters.  With the same previous value
    in the pixel's cell of the accumulation buffer, the values the two
    executions store in both buffers are the same too.  This holds for both
    shader files. *)
Theorem raygen_reproducible :
  (forall (p1 p2 : Params F (HitGroupData F) uchar4)
          (g1 g2 : Intersection F) (idx_x idx_y : uint),
      same_launch p1 p2 ->
      Shader.pixel_estimate rnd tea4 p1 g1 idx_x idx_y =
      Shader.pixel_estimate rnd tea4 p2 g2 idx_x idx_y /\
      (pixel_cell p1 idx_x idx_y = pixel_cell p2 idx_x idx_y ->
       let q1 := value (Shader.__raygen__rg rnd tea4 make_color p1 g1
                          idx_x idx_y) in
       let q2 := value (Shader.__raygen__rg rnd tea4 make_color p2 g2
                          idx_x idx_y) in
       pixel_cell q1 idx_x idx_y = pixel_cell q2 idx_x idx_y /\
       frame_buffer q1 (wrap32 (idx_y * width p1 + idx_x)) =
       frame_buffer q2 (wrap32 (idx_y * width p2 + idx_x)))) /\
  (forall (p1 p2 : Params F (HitGroupData2 F) uchar4)
          (g1 g2 : Intersection F) (idx_x idx_y : uint),
      same_launch p1 p2 ->
      Shader2.pixel_estimate rnd tea4 p1 g1 idx_x idx_y =
      Shader2.pixel_estimate rnd tea4 p2 g2 idx_x idx_y /\
      (pixel_cell p1 idx_x idx_y = pixel_cell p2 idx_x idx_y ->
       let q1 := value (Shader2.__raygen__rg rnd tea4 make_color p1 g1
                          idx_x idx_y) in
       let q2 := value (Shader2.__raygen__rg rnd tea4 make_color p2 g2
                          idx_x idx_y) in
       pixel_cell q1 idx_x idx_y = pixel_cell q2 idx_x idx_y /\
       frame_buffer q1 (wrap32 (idx_y * width p1 + idx_x)) =
       frame_buffer q2 (wrap32 (idx_y * width p2 + idx_x)))).
Proof.
  split; intros p1 p2 g1 g2 idx_x idx_y Hl.
  - pose proof (shader_pixel_estimate_same rnd g1 g2 Hl tea4 idx_x idx_y)
      as He.
    split; [exact He|]. intros Hc. cbv zeta.
    rewrite !shader_raygen_value, He. apply accumulate_same; assumption.
  - pose proof (shader2_pixel_estimate_same rnd g1 g2 Hl tea4 idx_x idx_y)
      as He.
    split; [exact He|]. intros Hc. cbv zeta.
    rewrite !shader2_raygen_value, He. apply accumulate_same; assumption.
Qed.
End Reproducible.


(** Two executions of the launch [Lit.params] on different buffers and
    different storage give the same estimate. *)
Lemma raygen_reproducible_lit :
  Shader.pixel_estimate Random.rnd (Random.tea 4) Lit.params Lit.garbage
    0%Z 0%Z =
  Shader.pixel_estimate Random.rnd (Random.tea 4) Lit.params_other_buffers
    Lit.point 0%Z 0%Z.
Proof.
  apply (proj1 (@raygen_reproducible R R_float Random.rnd (Random.tea 4) unit
                  (fun _ => tt))
           Lit.params Lit.params_other_buffers Lit.garbage Lit.point 0%Z 0%Z).
  unfold same_launch. repeat split; reflexivity.
Defined.

(** ** The shading normal *)

Section ShadingPoint.
Context {F : Type} {FO : FloatOps F}.
Variable rnd : uint -> F * uint.
Variable uchar4 : Type.

(** [shader.cu]: on a non-emitter the payload leaves the closest-hit program
    with the hit point and with [barycentric_normal] of the triangle's
    vertex normals. *)
Lemma shader_closesthit_point (params : Params F (HitGroupData F) uchar4)
    (garbage : Intersection F) (h : HitInfo F (HitGroupData F))
    (o d : float3 F) (i : Intersection F) :
  emit (rt_material (sbt_data h)) = false ->
  let off := wrap_int (primitive_index h * 3) in
  let p := add3 o (smul3 (ray_tmax h) d) in
  let out := value (Shader.__closesthit__radiance rnd params garbage h o d i) in
  xyz out = p /\
  normal out =
    Shader.barycentric_normal p
      (normals (sbt_data h) (off + 0)%Z) (normals (sbt_data h) (off + 1)%Z)
      (normals (sbt_data h) (off + 2)%Z)
      (vertices (sbt_data h) (off + 0)%Z) (vertices (sbt_data h) (off + 1)%Z)
      (vertices (sbt_data h) (off + 2)%Z).
Proof.
  intros Hemit. cbv zeta. unfold Shader.__closesthit__radiance.
  rewrite Hemit. cbv zeta. rewrite value_bind.
  match goal with
  | |- context [Shader.shoot_ray_to_light rnd params garbage ?X] =>
      set (x := X)
  end.
  destruct (shader_light_loop_payload rnd params garbage Shader.count x)
    as [s Hs].
  unfold Shader.shoot_ray_to_light.
  destruct (value (Shader.shoot_ray_to_light_loop rnd params garbage
                     Shader.count x)) as [light j].
  cbn [snd] in Hs. subst j.
  cbn [value ret fst xyz normal set_accum_color set_seed].
  unfold x. split; reflexivity.
Qed.

(** [shader2.cu]: the payload leaves with the hit point and with the
    geometric normal of the triangle, turned against the ray and scaled by
    the sum of the barycentric weights. *)
Lemma shader2_closesthit_point (params : Params F (HitGroupData2 F) uchar4)
    (h : HitInfo F (HitGroupData2 F)) (o d : float3 F) (i : Intersection F) :
  emit (rt_material2 (sbt_data h)) = false ->
  let off := wrap_int (primitive_index h * 3) in
  let v1 := make_float3_4 (vertices2 (sbt_data h) (off + 0)%Z) in
  let v2 := make_float3_4 (vertices2 (sbt_data h) (off + 1)%Z) in
  let v3 := make_float3_4 (vertices2 (sbt_data h) (off + 2)%Z) in
  let N_0 := normalize (cross (sub3 v2 v1) (sub3 v3 v1)) in
  let p := add3 o (smul3 (ray_tmax h) d) in
  let out := value (Shader2.__closesthit__radiance rnd params h o d i) in
  exists pre,
    xyz pre = p /\ normal pre = faceforward N_0 (neg3 d) N_0 /\
    xyz out = p /\
    normal out = Shader2.barycentric_normal pre v1 v2 v3.
Proof.
  intros Hemit. cbv zeta. unfold Shader2.__closesthit__radiance.
  rewrite Hemit. cbv zeta. rewrite value_bind.
  match goal with
  | |- context [Shader2.shoot_ray_to_light rnd params ?X] => set (x := X)
  end.
  destruct (shader2_light_loop_payload rnd params Shader2.count x)
    as [Hn [Hx _]].
  unfold Shader2.shoot_ray_to_light.
  destruct (value (Shader2.shoot_ray_to_light_loop rnd params
                     Shader2.count x)) as [light j].
  cbn [snd] in Hn, Hx.
  cbn [value ret fst xyz normal set_accum_color].
  rewrite Hn, Hx. unfold x.
  eexists. split; [|split; [|split; reflexivity]]; reflexivity.
Qed.
End ShadingPoint.

Section BarycentricNormal.
Local Open Scope R_scope.

(** The weights [barycentric_normal] computes solve the 2x2 system of the
    edge dot products (Cramer's rule), and [u] completes them to one. *)
Lemma barycentric_weights (p n1 n2 n3 v1 v2 v3 : float3 R) :
  let edge1 := sub3 v2 v1 in
  let edge2 := sub3 v3 v1 in
  let i := sub3 p v1 in
  let denom := dot edge1 edge1 * dot edge2 edge2 - dot edge1 edge2 * dot edge1 edge2 in
  denom <> 0 ->
  exists u v w : R,
    Shader.barycentric_normal p n1 n2 n3 v1 v2 v3 =
      add3 (add3 (smul3 u n1) (smul3 v n2)) (smul3 w n3) /\
    u + v + w = 1 /\
    v * dot edge1 edge1 + w * dot edge1 edge2 = dot i edge1 /\
    v * dot edge1 edge2 + w * dot edge2 edge2 = dot i edge2.
Proof.
  intros edge1 edge2 i denom Hdenom.
  exists (1 - (dot edge2 edge2 * dot i edge1 - dot edge1 edge2 * dot i edge2) / denom
            - (dot edge1 edge1 * dot i edge2 - dot edge1 edge2 * dot i edge1) / denom),
         ((dot edge2 edge2 * dot i edge1 - dot edge1 edge2 * dot i edge2) / denom),
         ((dot edge1 edge1 * dot i edge2 - dot edge1 edge2 * dot i edge1) / denom).
  split; [reflexivity|].
  split; [ring|].
  unfold denom in *. clear denom.
  revert Hdenom.
  generalize (dot edge1 edge1) (dot edge1 edge2) (dot edge2 edge2)
             (dot i edge1) (dot i edge2).
  intros d00 d01 d11 d20 d21 Hdenom.
  split; field; exact Hdenom.
Qed.
End BarycentricNormal.

Section ShadingNormal.
Local Open Scope R_scope.
Variable rnd : uint -> R * uint.
Variable uchar4 : Type.

(** [shader.cu] stores the interpolated vertex normal: for a non-emitter
    hit on a triangle that is not degenerate, the normal in the payload is
    [u*n1 + v*n2 + w*n3] with [u + v + w = 1] and [(v, w)] the solution of
    the system of the edge dot products at the hit point. *)
Lemma shader_shading_normal (params : Params R (HitGroupData R) uchar4)
    (garbage : Intersection R) (h : HitInfo R (HitGroupData R))
    (o d : float3 R) (i : Intersection R) :
  emit (rt_material (sbt_data h)) = false ->
  let off := wrap_int (primitive_index h * 3) in
  let v1 := vertices (sbt_data h) (off + 0)%Z in
  let v2 := vertices (sbt_data h) (off + 1)%Z in
  let v3 := vertices (sbt_data h) (off + 2)%Z in
  let n1 := normals (sbt_data h) (off + 0)%Z in
  let n2 := normals (sbt_data h) (off + 1)%Z in
  let n3 := normals (sbt_data h) (off + 2)%Z in
  let p := add3 o (smul3 (ray_tmax h) d) in
  let edge1 := sub3 v2 v1 in
  let edge2 := sub3 v3 v1 in
  let ip := sub3 p v1 in
  dot edge1 edge1 * dot edge2 edge2 - dot edge1 edge2 * dot edge1 edge2 <> 0 ->
  let out := value (Shader.__closesthit__radiance rnd params garbage h o d i) in
  exists u v w : R,
    normal out = add3 (add3 (smul3 u n1) (smul3 v n2)) (smul3 w n3) /\
    xyz out = p /\
    u + v + w = 1 /\
    v * dot edge1 edge1 + w * dot edge1 edge2 = dot ip edge1 /\
    v * dot edge1 edge2 + w * dot edge2 edge2 = dot ip edge2.
Proof.
  intros Hemit off v1 v2 v3 n1 n2 n3 p edge1 edge2 ip Hdenom out.
  destruct (shader_closesthit_point rnd params garbage h o d i Hemit)
    as [Hx Hn].
  destruct (@barycentric_weights p n1 n2 n3 v1 v2 v3 Hdenom)
    as [u [v [w [Hb [Hsum [H1 H2]]]]]].
  exists u, v, w. unfold out. rewrite Hn, Hx.
  split; [exact Hb|]. split; [reflexivity|].
  split; [exact Hsum|]. split; [exact H1 | exact H2].
Qed.

(** [shader2.cu] stores the geometric normal: the weights enter through
    their sum [v + w + u], which is one. *)
Lemma shader2_shading_normal (params : Params R (HitGroupData2 R) uchar4)
    (h : HitInfo R (HitGroupData2 R)) (o d : float3 R) (i : Intersection R) :
  emit (rt_material2 (sbt_data h)) = false ->
  let off := wrap_int (primitive_index h * 3) in
  let v1 := make_float3_4 (vertices2 (sbt_data h) (off + 0)%Z) in
  let v2 := make_float3_4 (vertices2 (sbt_data h) (off + 1)%Z) in
  let v3 := make_float3_4 (vertices2 (sbt_data h) (off + 2)%Z) in
  let N_0 := normalize (cross (sub3 v2 v1) (sub3 v3 v1)) in
  normal (value (Shader2.__closesthit__radiance rnd params h o d i)) =
  faceforward N_0 (neg3 d) N_0.
Proof.
  intros Hemit off v1 v2 v3 N_0.
  destruct (shader2_closesthit_point rnd params h o d i Hemit)
    as [pre [Hx [Hn [_ Hout]]]].
  rewrite Hout. unfold Shader2.barycentric_normal. cbv zeta.
  rewrite Hn. fold off v1 v2 v3 N_0.
  set (n := faceforward N_0 (neg3 d) N_0).
  unfold mul3_s. destruct n as [a b c]. cbn [fx fy fz].
  apply float3_eq; cbn [fx fy fz]; simpl; ring.
Qed.
End ShadingNormal.

Section FlatNormal.
Local Open Scope R_scope.

Lemma sqrt_16 : sqrt 16 = 4.
Proof.
  replace 16 with (4 * 4) by ring. apply sqrt_square. lra.
Qed.

(** C5 fails in [shader2.cu].  The first bounce of [StaleHit] ends at
    [(0,0,1)] on the triangle [(-1,-1,1), (1,-1,1), (0,1,1)], where the
    barycentric weights are [1/4, 1/4, 1/2].  With vertex normals [(1,0,0)],
    [(0,1,0)], [(0,0,-1)] the interpolation is [(1/4, 1/4, -1/2)];
    [shader2.cu] stores the geometric normal [(0,0,-1)], which no vertex
    normal enters. *)
Theorem shader2_flat_normal :
  xyz (value StaleHit.bounce1) =
    add3 (make_float3 0 0 0) (smul3 1 (make_float3 0 0 1)) /\
  normal (value StaleHit.bounce1) = make_float3 0 0 (-1) /\
  Shader.barycentric_normal
    (add3 (make_float3 0 0 0) (smul3 1 (make_float3 0 0 1)))
    (make_float3 1 0 0) (make_float3 0 1 0) (make_float3 0 0 (-1))
    (make_float3 (-1) (-1) 1) (make_float3 1 (-1) 1) (make_float3 0 1 1) =
  make_float3 (1 / 4) (1 / 4) (- (1 / 2)).
Proof.
  split; [apply stale_bounce1|]. split.
  - unfold StaleHit.bounce1.
    rewrite shader2_shading_normal by reflexivity.
    change (wrap_int (primitive_index StaleHit.hit_front * 3)) with 0%Z.
    cbn [sbt_data StaleHit.hit_front vertices2 StaleHit.wall_data
         StaleHit.wall_vertices Z.add].
    unfold make_float3_4. cbn [x4 y4 z4].
    assert (Hc : cross (sub3 (make_float3 1 (-1) 1) (make_float3 (-1) (-1) 1))
                       (sub3 (make_float3 0 1 1) (make_float3 (-1) (-1) 1)) =
                 make_float3 0 0 4).
    { apply float3_eq; simpl; ring. }
    rewrite Hc.
    assert (Hnrm : normalize (make_float3 0 0 4) = make_float3 0 0 1).
    { unfold normalize, dot, mul3_s. cbn [fx fy fz].
      change (f_of_Z 1 / sqrtf (0 * 0 + 0 * 0 + 4 * 4)%f)%f
        with (1 / sqrt (0 * 0 + 0 * 0 + 4 * 4)).
      replace (0 * 0 + 0 * 0 + 4 * 4) with 16 by ring.
      rewrite sqrt_16. apply float3_eq; simpl; field. }
    rewrite Hnrm.
    unfold faceforward, dot, neg3, mul3_s. cbn [fx fy fz].
    rewrite copysign_one_neg by (simpl; lra).
    apply float3_eq; simpl; ring.
  - unfold Shader.barycentric_normal. apply float3_eq; simpl; field.
Qed.
End FlatNormal.

(** ** The mask never grows *)

Section MaskMonotone.
Local Open Scope R_scope.
Variable rnd : uint -> R * uint.
Variable uchar4 : Type.

Lemma le3_refl (a : float3 R) : le3 a a.
Proof. unfold le3; lra. Qed.

Lemma le3_trans (a b c : float3 R) : le3 a b -> le3 b c -> le3 a c.
Proof. unfold le3; lra. Qed.

(** Folding an albedo within [0,1] into a mask that is not negative. *)
Lemma mul3_albedo (mask c : float3 R) :
  le3 (make_float3 0 0 0) mask -> unit_colour c ->
  le3 (mul3 mask c) mask /\ le3 (make_float3 0 0 0) (mul3 mask c).
Proof.
  unfold unit_colour, le3, mul3. simpl.
  intros [Hx [Hy Hz]] [[Cx [Cy Cz]] [Dx [Dy Dz]]].
  repeat split; nra.
Qed.

Lemma shader_trace_radiance_mask (params : Params R (HitGroupData R) uchar4)
    (garbage : Intersection R) (o d : float3 R) (tmin tmax : R)
    (i : Intersection R) :
  albedos_in_unit (fun rt => diffuse_color (rt_material rt)) (handle params) ->
  le3 (make_float3 0 0 0) (mask_color i) ->
  let i' := value (Shader.trace_radiance rnd params garbage (handle params)
                     o d tmin tmax i) in
  le3 (mask_color i') (mask_color i) /\
  le3 (make_float3 0 0 0) (mask_color i').
Proof.
  intros Halb Hpos. cbv zeta. unfold Shader.trace_radiance.
  rewrite value_bind. cbn [value issue fst].
  destruct (closest_hit (handle params) o d tmin tmax) as [h|] eqn:Hh.
  - destruct (emit (rt_material (sbt_data h))) eqn:Hemit.
    + unfold Shader.__closesthit__radiance. rewrite Hemit.
      cbn [value ret fst mask_color set_done set_accum_color].
      split; [apply le3_refl | exact Hpos].
    + destruct (shader_closesthit_diffuse rnd params garbage h o d i Hemit)
        as [i3 [_ [_ [_ [_ [_ [Hmask [_ [Hv _]]]]]]]]].
      rewrite Hv. cbn [mask_color set_accum_color].
      destruct (shader_light_loop_payload rnd params garbage Shader.count i3)
        as [s Hs].
      unfold Shader.shoot_ray_to_light. rewrite Hs.
      cbn [mask_color set_seed]. rewrite Hmask.
      apply mul3_albedo; [exact Hpos | exact (Halb _ _ _ _ _ Hh)].
  - cbn [value ret fst mask_color Shader.__miss__radiance set_done
         set_accum_color].
    split; [apply le3_refl | exact Hpos].
Qed.

Lemma shader2_trace_radiance_mask (params : Params R (HitGroupData2 R) uchar4)
    (o d : float3 R) (tmin tmax : R) (i : Intersection R) :
  albedos_in_unit (fun rt => diffuse_color (rt_material2 rt)) (handle params) ->
  le3 (make_float3 0 0 0) (mask_color i) ->
  let i' := value (Shader2.trace_radiance rnd params (handle params)
                     o d tmin tmax i) in
  le3 (mask_color i') (mask_color i) /\
  le3 (make_float3 0 0 0) (mask_color i').
Proof.
  intros Halb Hpos. cbv zeta. unfold Shader2.trace_radiance.
  rewrite value_bind. cbn [value issue fst].
  destruct (closest_hit (handle params) o d tmin tmax) as [h|] eqn:Hh.
  - destruct (emit (rt_material2 (sbt_data h))) eqn:Hemit.
    + unfold Shader2.__closesthit__radiance. rewrite Hemit.
      cbn [value ret fst mask_color set_done set_accum_color].
      split; [apply le3_refl | exact Hpos].
    + destruct (shader2_closesthit_diffuse rnd params h o d i Hemit)
        as [i3 [_ [_ [_ [_ [_ [Hmask [_ [Hv _]]]]]]]]].
      rewrite Hv. cbn [mask_color set_accum_color].
      destruct (shader2_light_loop_payload rnd params Shader2.count i3)
        as [_ [_ [Hm _]]].
      unfold Shader2.shoot_ray_to_light. rewrite Hm, Hmask.
      apply mul3_albedo; [exact Hpos | exact (Halb _ _ _ _ _ Hh)].
  - cbn [value ret fst mask_color Shader2.__miss__radiance set_done
         set_accum_color].
    split; [apply le3_refl | exact Hpos].
Qed.

Lemma shader_bounce_loop_mask (params : Params R (HitGroupData R) uchar4)
    (garbage : Intersection R) (n : nat) (i : Intersection R)
    (o d : float3 R) (s : uint) :
  albedos_in_unit (fun rt => diffuse_color (rt_material rt)) (handle params) ->
  le3 (make_float3 0 0 0) (mask_color i) ->
  let i' := fst (value (Shader.bounce_loop rnd params garbage n i o d s)) in
  le3 (mask_color i') (mask_color i) /\
  le3 (make_float3 0 0 0) (mask_color i').
Proof.
  intros Halb. revert i o d s.
  induction n as [|n IH]; intros i o d s Hpos; cbv zeta.
  - simpl. split; [apply le3_refl | exact Hpos].
  - rewrite shader_bounce_loop_S, value_bind.
    destruct (shader_trace_radiance_mask params garbage o d (f_lit 1 (-6))
                (f_lit 1 16) (set_done false i) Halb Hpos) as [Hle Hpos'].
    cbn [mask_color set_done] in Hle.
    destruct (done _).
    + cbn [value ret fst]. split; assumption.
    + match goal with
      | |- context [Shader.bounce_loop rnd params garbage n ?j ?a ?b ?c] =>
          destruct (IH j a b c Hpos') as [Hle2 Hpos2]
      end.
      split; [eapply le3_trans; eassumption | exact Hpos2].
Qed.

Lemma shader2_bounce_loop_mask (params : Params R (HitGroupData2 R) uchar4)
    (n : nat) (i : Intersection R) (o d : float3 R) :
  albedos_in_unit (fun rt => diffuse_color (rt_material2 rt)) (handle params) ->
  le3 (make_float3 0 0 0) (mask_color i) ->
  let i' := value (Shader2.bounce_loop rnd params n i o d) in
  le3 (mask_color i') (mask_color i) /\
  le3 (make_float3 0 0 0) (mask_color i').
Proof.
  intros Halb. revert i o d.
  induction n as [|n IH]; intros i o d Hpos; cbv zeta.
  - simpl. split; [apply le3_refl | exact Hpos].
  - rewrite shader2_bounce_loop_S, value_bind.
    destruct (shader2_trace_radiance_mask params o d (f_lit 1 (-2))
                (f_lit 1 16) (set_done false i) Halb Hpos) as [Hle Hpos'].
    cbn [mask_color set_done] in Hle.
    set (j := value (Shader2.trace_radiance rnd params (handle params) o d
                       (f_lit 1 (-2)) (f_lit 1 16) (set_done false i))) in *.
    destruct (done j).
    + cbn [value ret fst]. split; assumption.
    + destruct (shader2_hemisphere_payload rnd j) as [s' Hs'].
      rewrite Hs'.
      destruct (IH (set_seed s' j) (xyz j)
                  (fst (Shader2.shoot_ray_hemisphere rnd j)) Hpos')
        as [Hle2 Hpos2].
      cbn [mask_color set_seed] in Hle2.
      split; [eapply le3_trans; eassumption | exact Hpos2].
Qed.

(** C8.  Over the real numbers, with every albedo ([diffuse_color]) of the
    scene within [0,1]: a sample's payload starts with [mask_color] equal to
    (1,1,1); a radiance query, whatever it ends on, leaves every channel of
    a non-negative mask at most what it was, and non-negative; so the mask a
    bounce loop ends with is channel by channel at most the mask it started
    with, hence at most (1,1,1).  Both shader files. *)
Theorem mask_color_monotone :
  (forall (params : Params R (HitGroupData R) uchar4)
          (garbage : Intersection R),
      albedos_in_unit (fun rt => diffuse_color (rt_material rt))
                      (handle params) ->
      mask_color (Intersection_new garbage) = make_float3 1 1 1 /\
      (forall o d tmin tmax i,
          le3 (make_float3 0 0 0) (mask_color i) ->
          let i' := value (Shader.trace_radiance rnd params garbage
                             (handle params) o d tmin tmax i) in
          le3 (mask_color i') (mask_color i) /\
          le3 (make_float3 0 0 0) (mask_color i')) /\
      (forall n o d s s',
          let i' := fst (value (Shader.bounce_loop rnd params garbage n
                                  (set_seed s (Intersection_new garbage))
                                  o d s')) in
          le3 (mask_color i') (make_float3 1 1 1) /\
          le3 (make_float3 0 0 0) (mask_color i'))) /\
  (forall (params : Params R (HitGroupData2 R) uchar4)
          (garbage : Intersection R),
      albedos_in_unit (fun rt => diffuse_color (rt_material2 rt))
                      (handle params) ->
      mask_color (Intersection_new garbage) = make_float3 1 1 1 /\
      (forall o d tmin tmax i,
          le3 (make_float3 0 0 0) (mask_color i) ->
          let i' := value (Shader2.trace_radiance rnd params
                             (handle params) o d tmin tmax i) in
          le3 (mask_color i') (mask_color i) /\
          le3 (make_float3 0 0 0) (mask_color i')) /\
      (forall n o d s,
          let i' := value (Shader2.bounce_loop rnd params n
                             (set_seed s (Intersection_new garbage)) o d) in
          le3 (mask_color i') (make_float3 1 1 1) /\
          le3 (make_float3 0 0 0) (mask_color i'))).
Proof.
  assert (Hone : le3 (make_float3 0 0 0) (make_float3 1 1 1))
    by (unfold le3; simpl; lra).
  split; intros params garbage Halb.
  - split; [reflexivity|]. split.
    + intros o d tmin tmax i Hpos.
      apply shader_trace_radiance_mask; assumption.
    + intros n o d s s'. cbv zeta.
      change (make_float3 1 1 1)
        with (mask_color (set_seed s (Intersection_new garbage))) at 1.
      apply (shader_bounce_loop_mask params garbage n
               (set_seed s (Intersection_new garbage)) o d s' Halb).
      exact Hone.
  - split; [reflexivity|]. split.
    + intros o d tmin tmax i Hpos.
      apply shader2_trace_radiance_mask; assumption.
    + intros n o d s. cbv zeta.
      change (make_float3 1 1 1)
        with (mask_color (set_seed s (Intersection_new garbage))) at 1.
      apply (shader2_bounce_loop_mask params n
               (set_seed s (Intersection_new garbage)) o d Halb).
      exact Hone.
Qed.
End MaskMonotone.

(** The mask in the closed room [Walls], after the bounce loop from the eye
    along [z]. *)
Lemma mask_color_monotone_closed_room :
  let i' := fst (value (Shader.bounce_loop Random.rnd Walls.params
                          Walls.garbage Shader.nb_bounces
                          (set_seed 0%Z (Intersection_new Walls.garbage))
                          (make_float3 0%R 0%R 0%R) (make_float3 0%R 0%R 1%R)
                          0%Z)) in
  le3 (mask_color i') (make_float3 1%R 1%R 1%R) /\
  le3 (make_float3 0%R 0%R 0%R) (mask_color i').
Proof.
  assert (Halb : albedos_in_unit (fun rt => diffuse_color (rt_material rt))
                   (handle Walls.params)).
  { intros o d tmin tmax h Hh. simpl in Hh. injection Hh as <-.
    unfold unit_colour, le3. simpl. lra. }
  destruct (proj1 (@mask_color_monotone Random.rnd unit)
              Walls.params Walls.garbage Halb) as [_ [_ Hloop]].
  exact (Hloop Shader.nb_bounces (make_float3 0%R 0%R 0%R)
           (make_float3 0%R 0%R 1%R) 0%Z 0%Z).
Defined.

(** ** The generator never draws two centres in a row *)

Section GeneratorFacts.
Local Open Scope Z_scope.

Lemma lcg_result (s : uint) :
  fst (Random.lcg s) = snd (Random.lcg s) mod 2 ^ 24.
Proof.
  unfold Random.lcg. cbn [fst snd].
  change 0x00FFFFFF with (Z.ones 24). apply Z.land_ones. lia.
Qed.


(** The low 24 bits of the next state depend on the low 24 bits of the
    state only. *)
Lemma lcg_next_result (s : uint) :
  fst (Random.lcg (snd (Random.lcg s))) =
  (Random.LCG_A * fst (Random.lcg s) + Random.LCG_C) mod 2 ^ 24.
Proof.
  rewrite (lcg_result (snd (Random.lcg s))), (lcg_result s).
  set (t := snd (Random.lcg s)).
  unfold Random.lcg at 1. cbn [snd]. unfold wrap32.
  rewrite Z.mod_mod_divide by (exists (2 ^ 8); reflexivity).
  rewrite <- (Z.add_mod_idemp_l (Random.LCG_A * (t mod 2 ^ 24))) by lia.
  rewrite Z.mul_mod_idemp_r by lia.
  rewrite Z.add_mod_idemp_l by lia. reflexivity.
Qed.

Lemma lcg_not_twice_centre (s : uint) :
  fst (Random.lcg s) = 2 ^ 23 ->
  fst (Random.lcg (snd (Random.lcg s))) <> 2 ^ 23.
Proof.
  intros Hc. rewrite lcg_next_result, Hc. vm_compute. discriminate.
Qed.
End GeneratorFacts.

(** ** The hemisphere sampler *)

Section HemisphereDraws.
Context {F : Type} {FO : FloatOps F}.
Variable rnd : uint -> F * uint.

Lemma shader2_rng_eq : Shader2.rng rnd = Shader.rng rnd.
Proof. reflexivity. Qed.

(** [shader.cu]: three draws, normalise, face forward. *)
Lemma shader_hemisphere_draws (nrm : float3 F) (s : uint) :
  Shader.shoot_ray_hemisphere rnd nrm s =
  (let r := normalize (fst (draws3 (Shader.rng rnd) s)) in
   faceforward r nrm r,
   snd (draws3 (Shader.rng rnd) s)).
Proof.
  unfold Shader.shoot_ray_hemisphere, draws3.
  destruct (Shader.rng rnd s) as [a s1].
  destruct (Shader.rng rnd s1) as [b s2].
  destruct (Shader.rng rnd s2) as [c s3]. reflexivity.
Qed.

(** [shader2.cu]: three draws, face forward, normalise. *)
Lemma shader2_hemisphere_draws (i : Intersection F) :
  Shader2.shoot_ray_hemisphere rnd i =
  (let r := fst (draws3 (Shader.rng rnd) (seed i)) in
   normalize (faceforward r (normal i) r),
   set_seed (snd (draws3 (Shader.rng rnd) (seed i))) i).
Proof.
  unfold Shader2.shoot_ray_hemisphere, draws3. rewrite shader2_rng_eq.
  destruct (Shader.rng rnd (seed i)) as [a s1].
  destruct (Shader.rng rnd s1) as [b s2].
  destruct (Shader.rng rnd s2) as [c s3]. reflexivity.
Qed.
End HemisphereDraws.

Section HemisphereSampler.
Local Open Scope R_scope.
Variable rnd : uint -> R * uint.

Lemma normalize_as_scale (v : float3 R) :
  normalize v = mul3_s v (1 / sqrt (dot v v)).
Proof. reflexivity. Qed.

Lemma faceforward_dot_self (r n : float3 R) :
  dot (faceforward r n r) (faceforward r n r) = dot r r.
Proof. apply faceforward_length. Qed.

(** Normalising after the flip gives what flipping after normalising
    gives. *)
Lemma normalize_faceforward (r n : float3 R) :
  0 < dot r r ->
  normalize (faceforward r n r) =
  faceforward (normalize r) n (normalize r).
Proof.
  intros Hr. pose proof (inv_length_pos Hr) as Hu.
  rewrite (normalize_as_scale (faceforward r n r)), faceforward_dot_self.
  destruct (faceforward_cases r n) as [Hneg Hpos].
  destruct (faceforward_cases (normalize r) n) as [Hneg' Hpos'].
  assert (Hd : dot n (normalize r) = dot n r * (1 / sqrt (dot r r))).
  { rewrite normalize_as_scale. apply dot_mul3_s_r. }
  destruct (Rlt_dec (dot n r) 0) as [Hlt|Hge].
  - rewrite (Hneg Hlt), Hneg' by (rewrite Hd; nra).
    rewrite normalize_as_scale. apply float3_eq; simpl; ring.
  - rewrite Hpos by lra. rewrite Hpos' by (rewrite Hd; nra).
    reflexivity.
Qed.

(** The direction both samplers return, from three draws [r] that are not
    all zero: the unit vector along [r], negated when it points away from
    the normal. *)
Lemma hemisphere_direction (r n : float3 R) :
  r <> make_float3 0 0 0 ->
  let dir := faceforward (normalize r) n (normalize r) in
  (dot (normalize r) n < 0 -> dir = neg3 (normalize r)) /\
  (0 <= dot (normalize r) n -> dir = normalize r) /\
  dot dir dir = 1 /\ 0 <= dot dir n.
Proof.
  intros Hr dir. pose proof (dot_self_pos Hr) as Hpos.
  destruct (faceforward_cases (normalize r) n) as [Hneg Hnn].
  split; [|split; [|split]].
  - intros Hd. apply Hneg. rewrite dot_comm. exact Hd.
  - intros Hd. apply Hnn. rewrite dot_comm. exact Hd.
  - unfold dir. rewrite faceforward_dot_self. apply normalize_unit. exact Hpos.
  - unfold dir. rewrite dot_comm, dot_faceforward. apply Rabs_pos.
Qed.

End HemisphereSampler.

Section GeneratorOverReals.
Local Open Scope R_scope.

Lemma random_rnd_value (s : uint) :
  Random.rnd (F := R) s =
  (IZR (fst (Random.lcg s)) / 16777216, snd (Random.lcg s)).
Proof. unfold Random.rnd. destruct (Random.lcg s). reflexivity. Qed.


Lemma random_rng_centre (s : uint) :
  fst (Shader.rng Random.rnd s) = 0 -> fst (Random.lcg s) = (2 ^ 23)%Z.
Proof.
  rewrite shader_rng_random. cbn [fst]. intros H.
  apply eq_IZR. change (IZR (2 ^ 23)) with 8388608. lra.
Qed.

(** The three draws of a hemisphere sample are never all zero: the
    generator does not return its centre value twice in a row. *)
Lemma random_draws3_nonzero (s : uint) :
  fst (draws3 (Shader.rng Random.rnd) s) <> make_float3 0 0 0.
Proof.
  unfold draws3.
  pose proof (@random_rng_centre s) as Ha.
  pose proof (@random_rng_centre (snd (Random.lcg s))) as Hb.
  pose proof (@lcg_not_twice_centre s) as Hnot.
  rewrite (shader_rng_random s) in *. cbn [fst snd] in *.
  rewrite (shader_rng_random (snd (Random.lcg s))) in *. cbn [fst snd] in *.
  destruct (Shader.rng Random.rnd (snd (Random.lcg (snd (Random.lcg s)))))
    as [c s3].
  cbn [fst]. intros Heq. injection Heq as Hx Hy _.
  apply Hnot; [apply Ha | apply Hb]; assumption.
Qed.
End GeneratorOverReals.


(** ** The anti-aliasing jitter *)

Section JitterDraws.
Context {F : Type} {FO : FloatOps F}.
Variable rnd : uint -> F * uint.

(** [shader.cu] normalises the pair of draws, [shader2.cu] takes it as it
    is. *)
Lemma shader_jitter_draws (s : uint) :
  Shader.antialiasing_jitter rnd s =
  (normalize2 (fst (draws2 (Shader.rng rnd) s)),
   snd (draws2 (Shader.rng rnd) s)).
Proof.
  unfold Shader.antialiasing_jitter, draws2.
  destruct (Shader.rng rnd s) as [a s1].
  destruct (Shader.rng rnd s1) as [b s2]. reflexivity.
Qed.

Lemma shader2_jitter_draws (s : uint) :
  Shader2.antialiasing_jitter rnd s = draws2 (Shader.rng rnd) s.
Proof. reflexivity. Qed.
End JitterDraws.

Section Jitter.
Local Open Scope R_scope.
Variable rnd : uint -> R * uint.

Lemma rng_range (s : uint) :
  0 <= fst (rnd s) <= 1 -> -1 <= fst (Shader.rng rnd s) <= 1.
Proof.
  unfold Shader.rng. destruct (rnd s) as [r s']. simpl. lra.
Qed.

Lemma draws2_range (s : uint) :
  (forall t, 0 <= fst (rnd t) <= 1) ->
  let d := fst (draws2 (Shader.rng rnd) s) in
  (-1 <= x2 d <= 1) /\ (-1 <= y2 d <= 1).
Proof.
  intros Hrnd. cbv zeta. unfold draws2.
  pose proof (rng_range s (Hrnd s)) as Ha.
  destruct (Shader.rng rnd s) as [a s1].
  pose proof (rng_range s1 (Hrnd s1)) as Hb.
  destruct (Shader.rng rnd s1) as [b s2].
  simpl in *. split; assumption.
Qed.

(** A component of a normalised pair lies within [-1,1]. *)
Lemma scaled_component_range (x q : R) :
  0 <= q -> x * x <= q -> -1 <= x * (1 / sqrt q) <= 1.
Proof.
  intros Hq Hx.
  destruct (Req_dec q 0) as [Hz|Hnz].
  - assert (x = 0) by nra. subst x. lra.
  - assert (Hpos : 0 < q) by lra.
    assert (Ht : 0 < sqrt q) by (apply sqrt_lt_R0; exact Hpos).
    assert (Htt : sqrt q * sqrt q = q) by (apply sqrt_sqrt; lra).
    assert (Hu : 1 / sqrt q * sqrt q = 1) by (field; lra).
    set (t := sqrt q) in *. set (u := 1 / t) in *.
    assert (Hu0 : 0 < u) by (unfold u; apply Rdiv_lt_0_compat; lra).
    assert (Hxt : - t <= x <= t) by nra.
    split; nra.
Qed.

Lemma normalize2_range (v : float2 R) :
  (-1 <= x2 (normalize2 v) <= 1) /\ (-1 <= y2 (normalize2 v) <= 1).
Proof.
  unfold normalize2, mul2_s, dot2. cbn [x2 y2].
  split; apply scaled_component_range; simpl; nra.
Qed.


End Jitter.


Section JitterOnCircle.
Local Open Scope R_scope.


End JitterOnCircle.

(** * Further properties of the device programs *)

(** ** The payload registers *)

Section PayloadRegisters.
Local Open Scope Z_scope.

Lemma lor_high_low (hi lo : Z) :
  0 <= hi -> 0 <= lo < 2 ^ 32 -> Z.lor (hi * 2 ^ 32) lo = hi * 2 ^ 32 + lo.
Proof.
  intros Hhi Hlo.
  assert (Hland : Z.land (hi * 2 ^ 32) lo = 0); [|
    rewrite <- (Z.lxor_lor _ _ Hland); symmetry;
    apply Z.add_nocarry_lxor; exact Hland].
  apply Z.bits_inj'. intros n Hn. rewrite Z.land_spec, Z.bits_0.
  destruct (Z_lt_le_dec n 32) as [Hlt | Hge].
  - rewrite Z.mul_pow2_bits_low by lia. reflexivity.
  - assert (Z.testbit lo n = false) as ->.
    { destruct (Z.eq_dec lo 0) as [-> | Hne]; [apply Z.bits_0|].
      apply Z.bits_above_log2; [lia|].
      apply Z.lt_le_trans with 32; [|exact Hge].
      apply Z.log2_lt_pow2; lia. }
    apply andb_false_r.
Qed.

Lemma unpackPointer_value (i0 i1 : uint) :
  0 <= i0 < 2 ^ 32 -> 0 <= i1 < 2 ^ 32 ->
  unpackPointer i0 i1 = i0 * 2 ^ 32 + i1.
Proof.
  intros H0 H1. unfold unpackPointer, wrap64.
  rewrite Z.shiftl_mul_pow2 by lia.
  rewrite Z.mod_small.
  - apply lor_high_low; lia.
  - change (2 ^ 64) with (2 ^ 32 * 2 ^ 32).
    pose proof (Z.mul_le_mono_nonneg_r i0 (2 ^ 32 - 1) (2 ^ 32)). lia.
Qed.

Lemma packPointer_value (ptr : Z) :
  0 <= ptr < 2 ^ 64 ->
  packPointer ptr = (ptr / 2 ^ 32, ptr mod 2 ^ 32).
Proof.
  intros H. unfold packPointer, wrap32.
  rewrite Z.shiftr_div_pow2 by lia.
  change 0x00000000ffffffff with (Z.ones 32).
  rewrite Z.land_ones by lia.
  rewrite Z.mod_mod by lia.
  rewrite (Z.mod_small (ptr / 2 ^ 32)); [reflexivity|].
  split; [apply Z.div_pos; lia|].
  apply Z.div_lt_upper_bound; lia.
Qed.

(** X1.  The address a trace function packs into the two payload
    registers is the address [getInter] hands to the hit and miss
    programs: for every 64-bit address, both registers hold 32-bit values
    and unpacking them gives the address back. *)
Theorem payload_pointer_round_trip (ptr : Z) :
  0 <= ptr < 2 ^ 64 ->
  let '(u0, u1) := packPointer ptr in
  0 <= u0 < 2 ^ 32 /\ 0 <= u1 < 2 ^ 32 /\ getInter u0 u1 = ptr.
Proof.
  intros H. rewrite packPointer_value by exact H.
  assert (H0 : 0 <= ptr / 2 ^ 32 < 2 ^ 32).
  { split; [apply Z.div_pos; lia|]. apply Z.div_lt_upper_bound; lia. }
  assert (H1 : 0 <= ptr mod 2 ^ 32 < 2 ^ 32) by (apply Z.mod_pos_bound; lia).
  split; [exact H0|]. split; [exact H1|].
  unfold getInter. rewrite unpackPointer_value by assumption.
  pose proof (Z.div_mod ptr (2 ^ 32)). lia.
Qed.

(** X2.  The other way round: two 32-bit register values unpack to a 64-bit
    address that packs to the same two values, so distinct register pairs
    name distinct addresses. *)
Theorem payload_registers_round_trip (i0 i1 : uint) :
  0 <= i0 < 2 ^ 32 -> 0 <= i1 < 2 ^ 32 ->
  0 <= unpackPointer i0 i1 < 2 ^ 64 /\
  packPointer (unpackPointer i0 i1) = (i0, i1).
Proof.
  intros H0 H1. rewrite unpackPointer_value by assumption.
  assert (Hr : 0 <= i0 * 2 ^ 32 + i1 < 2 ^ 64).
  { change (2 ^ 64) with (2 ^ 32 * 2 ^ 32).
    pose proof (Z.mul_le_mono_nonneg_r i0 (2 ^ 32 - 1) (2 ^ 32)). lia. }
  split; [exact Hr|].
  rewrite packPointer_value by exact Hr.
  rewrite Z.div_add_l by lia. rewrite (Z.div_small i1) by lia.
  rewrite Z.add_0_r.
  rewrite Z.add_comm, Z.mod_add by lia. rewrite Z.mod_small by lia.
  reflexivity.
Qed.
End PayloadRegisters.

(** An address with bits in both halves. *)
Lemma payload_pointer_round_trip_high :
  getInter 0x00007f3a%Z 0x9c4d1e80%Z = 0x00007f3a9c4d1e80%Z.
Proof.
  assert (H : (0 <= 0x00007f3a9c4d1e80 < 2 ^ 64)%Z) by (split; reflexivity || discriminate).
  exact (proj2 (proj2 (payload_pointer_round_trip H))).
Defined.

(** The registers of an address with bits in both halves. *)
Lemma payload_registers_round_trip_high :
  packPointer (unpackPointer 0x00007f3a%Z 0x9c4d1e80%Z) =
  (0x00007f3a%Z, 0x9c4d1e80%Z).
Proof.
  assert (H0 : (0 <= 0x00007f3a < 2 ^ 32)%Z)
    by (split; reflexivity || discriminate).
  assert (H1 : (0 <= 0x9c4d1e80 < 2 ^ 32)%Z)
    by (split; reflexivity || discriminate).
  exact (proj2 (payload_registers_round_trip H0 H1)).
Defined.

(** ** Refraction *)

Section RefractionOverReals.
Local Open Scope R_scope.

Local Abbreviation refractR := (refract Rabs Rgtb).

Lemma Rgtb_true (a b : R) : b < a -> Rgtb a b = true.
Proof.
  intros H. unfold Rgtb. destruct (Rlt_dec b a); [reflexivity | contradiction].
Qed.

Lemma Rgtb_false (a b : R) : a <= b -> Rgtb a b = false.
Proof.
  intros H. unfold Rgtb. destruct (Rlt_dec b a); [lra | reflexivity].
Qed.

Lemma dot_neg3_l (a b : float3 R) : dot (neg3 a) b = - dot a b.
Proof. unfold dot, neg3. simpl. ring. Qed.

(** The vector before the final mask, when the square of the cosine of the
    refracted angle is positive. *)
Lemma refract_transmitted (i n : float3 R) (eta : R) :
  let cosi := dot (neg3 i) n in
  let cost2 := 1 - eta * eta * (1 - cosi * cosi) in
  0 < cost2 ->
  refractR i n eta =
  add3 (smul3 eta i) (smul3 (eta * cosi - sqrt cost2) n).
Proof.
  intros cosi cost2 Hpos. unfold refract.
  change (f_of_Z 1 - eta * eta * (f_of_Z 1 - dot (neg3 i) n * dot (neg3 i) n))%f
    with cost2.
  change (f_of_Z 0) with 0.
  rewrite Rgtb_true by exact Hpos.
  change (sqrtf (Rabs cost2)) with (sqrt (Rabs cost2)).
  rewrite (Rabs_pos_eq cost2) by lra.
  apply float3_eq; unfold cosi, dot, neg3; simpl; ring.
Qed.

Lemma dot_lincomb_self (u v : float3 R) (a b : R) :
  dot (add3 (smul3 a u) (smul3 b v)) (add3 (smul3 a u) (smul3 b v)) =
  a * a * dot u u + 2 * a * b * dot u v + b * b * dot v v.
Proof. unfold dot, add3, smul3. simpl. ring. Qed.

Lemma dot_lincomb_r (u v : float3 R) (a b : R) :
  dot (add3 (smul3 a u) (smul3 b v)) v = a * dot u v + b * dot v v.
Proof. unfold dot, add3, smul3. simpl. ring. Qed.

(** X3.  Total internal reflection: when the square of the cosine of the
    refracted angle, [1 - eta^2 (1 - cosi^2)], is not positive, [refract]
    returns the zero vector. *)
Theorem refract_total_internal_reflection (i n : float3 R) (eta : R) :
  let cosi := dot (neg3 i) n in
  1 - eta * eta * (1 - cosi * cosi) <= 0 ->
  refractR i n eta = make_float3 0 0 0.
Proof.
  intros cosi Hle. unfold refract.
  change (f_of_Z 1 - eta * eta * (f_of_Z 1 - dot (neg3 i) n * dot (neg3 i) n))%f
    with (1 - eta * eta * (1 - cosi * cosi)).
  change (f_of_Z 0) with 0.
  rewrite Rgtb_false by exact Hle.
  apply float3_eq; simpl; ring.
Qed.

(** X4.  Snell's law: for a unit incident direction [i] and a unit normal
    [n], when the square of the cosine of the refracted angle is positive,
    [refract] returns a unit vector on the far side of the surface, its
    component along [n] being minus the square root of that square, and
    its component along the surface [eta] times that of [i]. *)
Theorem refract_snell (i n : float3 R) (eta : R) :
  dot i i = 1 -> dot n n = 1 ->
  let cosi := dot (neg3 i) n in
  let cost2 := 1 - eta * eta * (1 - cosi * cosi) in
  0 < cost2 ->
  let t := refractR i n eta in
  dot t t = 1 /\ dot t n = - sqrt cost2 /\
  sub3 t (smul3 (dot t n) n) = smul3 eta (sub3 i (smul3 (dot i n) n)).
Proof.
  intros Hi Hn cosi cost2 Hpos t.
  assert (Ht : t = add3 (smul3 eta i) (smul3 (eta * cosi - sqrt cost2) n))
    by (apply refract_transmitted; exact Hpos).
  assert (Hc : cosi = - dot i n) by apply dot_neg3_l.
  assert (Hs : sqrt cost2 * sqrt cost2 = 1 - eta * eta * (1 - cosi * cosi))
    by (apply sqrt_sqrt; unfold cost2 in Hpos; lra).
  assert (Htn : dot t n = - sqrt cost2).
  { rewrite Ht, dot_lincomb_r, Hn, Hc. ring. }
  split; [|split; [exact Htn|]].
  - rewrite Ht, dot_lincomb_self, Hi, Hn.
    generalize dependent (sqrt cost2). intros s _ Hs _.
    replace (eta * eta * 1 + 2 * eta * (eta * cosi - s) * dot i n +
             (eta * cosi - s) * (eta * cosi - s) * 1)
      with (eta * eta * (1 - cosi * cosi) + s * s) by (rewrite Hc; ring).
    rewrite Hs. ring.
  - rewrite Htn, Ht.
    assert (Hc' : dot (neg3 i) n = - dot i n) by apply dot_neg3_l.
    unfold cosi. rewrite Hc'.
    apply float3_eq; unfold sub3, add3, smul3; simpl; ring.
Qed.

(** X5.  With [eta = 1]: a ray that meets the front of the surface
    ([dot(-i, n) > 0]) goes straight on; one that meets its back is
    mirrored about the surface; a grazing ray gives the zero vector. *)
Theorem refract_same_medium (i n : float3 R) :
  let cosi := dot (neg3 i) n in
  (0 < cosi -> refractR i n 1 = i) /\
  (cosi < 0 -> refractR i n 1 = sub3 i (smul3 (2 * dot i n) n)) /\
  (cosi = 0 -> refractR i n 1 = make_float3 0 0 0).
Proof.
  intros cosi.
  assert (Hc : cosi = - dot i n) by apply dot_neg3_l.
  assert (Hcost : 1 - 1 * 1 * (1 - cosi * cosi) = cosi * cosi) by ring.
  split; [|split].
  - intros Hpos.
    rewrite refract_transmitted
      by (fold cosi; rewrite Hcost; apply Rmult_lt_0_compat; exact Hpos).
    fold cosi. rewrite Hcost, sqrt_square by lra.
    apply float3_eq; unfold add3, smul3; simpl; ring.
  - intros Hneg.
    rewrite refract_transmitted
      by (fold cosi; rewrite Hcost; nra).
    fold cosi. rewrite Hcost.
    replace (cosi * cosi) with ((- cosi) * (- cosi)) by ring.
    rewrite sqrt_square by lra. rewrite Hc.
    apply float3_eq; unfold sub3, add3, smul3; simpl; ring.
  - intros Hzero. unfold refract.
    change (f_of_Z 1 - 1 * 1 * (f_of_Z 1 - dot (neg3 i) n * dot (neg3 i) n))%f
      with (1 - 1 * 1 * (1 - cosi * cosi)).
    change (f_of_Z 0) with 0.
    rewrite Rgtb_false by (rewrite Hcost, Hzero; lra).
    apply float3_eq; simpl; ring.
Qed.
End RefractionOverReals.

(** A ray at 3-4-5 incidence on the plane [z = 0], into a medium twice as
    slow from the slow side: no transmitted ray. *)
Lemma refract_total_internal_reflection_345 :
  refract Rabs Rgtb (make_float3 (3/5) 0 (-4/5))%R (make_float3 0 0 1)%R 2%R =
  make_float3 0%R 0%R 0%R.
Proof.
  apply (@refract_total_internal_reflection
           (make_float3 (3/5) 0 (-4/5))%R (make_float3 0 0 1)%R 2%R).
  unfold dot, neg3. simpl. lra.
Defined.

(** The same ray with [eta = 1/2]: a unit vector, below the surface. *)
Lemma refract_snell_345 :
  let t := refract Rabs Rgtb (make_float3 (3/5) 0 (-4/5))%R
             (make_float3 0 0 1)%R (1/2)%R in
  dot t t = 1%R /\ (dot t (make_float3 0 0 1) < 0)%R.
Proof.
  assert (Hi : dot (make_float3 (3/5) 0 (-4/5))%R
                   (make_float3 (3/5) 0 (-4/5))%R = 1%R)
    by (unfold dot; simpl; lra).
  assert (Hn : dot (make_float3 0 0 1)%R (make_float3 0 0 1)%R = 1%R)
    by (unfold dot; simpl; lra).
  assert (Hpos : (0 < 1 - 1/2 * (1/2) *
                    (1 - dot (neg3 (make_float3 (3/5) 0 (-4/5)))
                             (make_float3 0 0 1) *
                         dot (neg3 (make_float3 (3/5) 0 (-4/5)))
                             (make_float3 0 0 1)))%R)
    by (unfold dot, neg3; simpl; lra).
  destruct (@refract_snell (make_float3 (3/5) 0 (-4/5))%R
              (make_float3 0 0 1)%R (1/2)%R Hi Hn Hpos) as [H1 [H2 _]].
  intros t. split; [exact H1|].
  unfold t. rewrite H2.
  apply Ropp_lt_gt_0_contravar. apply sqrt_lt_R0. exact Hpos.
Defined.


(** A ray that meets the front of the plane [z = 0] at 3-4-5 incidence. *)
Lemma refract_same_medium_345 :
  refract Rabs Rgtb (make_float3 (3/5) 0 (-4/5))%R (make_float3 0 0 1)%R 1%R =
  make_float3 (3/5)%R 0%R (-4/5)%R.
Proof.
  apply (proj1 (@refract_same_medium (make_float3 (3/5) 0 (-4/5))%R
                  (make_float3 0 0 1)%R)).
  unfold dot, neg3. simpl. lra.
Defined.

(** ** The interpolation of vertex normals *)

Section BarycentricInterpolation.
Local Open Scope R_scope.

(** Lagrange's identity: the squared area form of two edges. *)
Lemma dot_cross_cross (a b : float3 R) :
  dot (cross a b) (cross a b) = dot a a * dot b b - dot a b * dot a b.
Proof. unfold dot, cross. simpl. ring. Qed.

Lemma dot_cross_l (a b : float3 R) : dot a (cross a b) = 0.
Proof. unfold dot, cross. simpl. ring. Qed.

Lemma dot_cross_r (a b : float3 R) : dot b (cross a b) = 0.
Proof. unfold dot, cross. simpl. ring. Qed.

Lemma triangle_denom (e1 e2 : float3 R) :
  cross e1 e2 <> make_float3 0 0 0 ->
  dot e1 e1 * dot e2 e2 - dot e1 e2 * dot e1 e2 <> 0.
Proof.
  intros H. rewrite <- dot_cross_cross.
  pose proof (dot_self_pos H). lra.
Qed.

Lemma cross_nonzero_z (a b : float3 R) :
  fz (cross a b) <> 0 -> cross a b <> make_float3 0 0 0.
Proof. intros H E. apply H. rewrite E. reflexivity. Qed.

(** A point whose coordinates along the two edges are [a] and [b] gets
    the weights [1 - a - b], [a] and [b]. *)
Lemma barycentric_normal_solve (q n1 n2 n3 v1 v2 v3 : float3 R) (a b : R) :
  let edge1 := sub3 v2 v1 in
  let edge2 := sub3 v3 v1 in
  cross edge1 edge2 <> make_float3 0 0 0 ->
  dot (sub3 q v1) edge1 = a * dot edge1 edge1 + b * dot edge1 edge2 ->
  dot (sub3 q v1) edge2 = a * dot edge1 edge2 + b * dot edge2 edge2 ->
  Shader.barycentric_normal q n1 n2 n3 v1 v2 v3 =
  add3 (add3 (smul3 (1 - a - b) n1) (smul3 a n2)) (smul3 b n3).
Proof.
  intros edge1 edge2 Hne H1 H2.
  pose proof (triangle_denom Hne) as Hden.
  assert (Hv : (dot edge2 edge2 * dot (sub3 q v1) edge1 -
                dot edge1 edge2 * dot (sub3 q v1) edge2) /
               (dot edge1 edge1 * dot edge2 edge2 -
                dot edge1 edge2 * dot edge1 edge2) = a).
  { rewrite H1, H2. field. exact Hden. }
  assert (Hw : (dot edge1 edge1 * dot (sub3 q v1) edge2 -
                dot edge1 edge2 * dot (sub3 q v1) edge1) /
               (dot edge1 edge1 * dot edge2 edge2 -
                dot edge1 edge2 * dot edge1 edge2) = b).
  { rewrite H1, H2. field. exact Hden. }
  change (Shader.barycentric_normal q n1 n2 n3 v1 v2 v3) with
    (add3 (add3 (smul3
                   (1 -
                    (dot edge2 edge2 * dot (sub3 q v1) edge1 -
                     dot edge1 edge2 * dot (sub3 q v1) edge2) /
                    (dot edge1 edge1 * dot edge2 edge2 -
                     dot edge1 edge2 * dot edge1 edge2) -
                    (dot edge1 edge1 * dot (sub3 q v1) edge2 -
                     dot edge1 edge2 * dot (sub3 q v1) edge1) /
                    (dot edge1 edge1 * dot edge2 edge2 -
                     dot edge1 edge2 * dot edge1 edge2)) n1)
                (smul3
                   ((dot edge2 edge2 * dot (sub3 q v1) edge1 -
                     dot edge1 edge2 * dot (sub3 q v1) edge2) /
                    (dot edge1 edge1 * dot edge2 edge2 -
                     dot edge1 edge2 * dot edge1 edge2)) n2))
          (smul3
             ((dot edge1 edge1 * dot (sub3 q v1) edge2 -
               dot edge1 edge2 * dot (sub3 q v1) edge1) /
              (dot edge1 edge1 * dot edge2 edge2 -
               dot edge1 edge2 * dot edge1 edge2)) n3)).
  rewrite Hv, Hw. reflexivity.
Qed.

(** A point above or below the point of the plane of coordinates [a] and
    [b] gets the weights of that point. *)
Lemma barycentric_normal_plane (n1 n2 n3 v1 v2 v3 : float3 R) (a b c : R) :
  let edge1 := sub3 v2 v1 in
  let edge2 := sub3 v3 v1 in
  cross edge1 edge2 <> make_float3 0 0 0 ->
  let p :=
    add3 v1 (add3 (add3 (smul3 a edge1) (smul3 b edge2))
                  (smul3 c (cross edge1 edge2))) in
  Shader.barycentric_normal p n1 n2 n3 v1 v2 v3 =
  add3 (add3 (smul3 (1 - a - b) n1) (smul3 a n2)) (smul3 b n3).
Proof.
  intros edge1 edge2 Hne p.
  apply barycentric_normal_solve; [exact Hne | |].
  - change (dot (sub3 p v1) edge1 =
            a * dot edge1 edge1 + b * dot edge1 edge2).
    assert (E : dot (sub3 p v1) edge1 =
                a * dot edge1 edge1 + b * dot edge1 edge2 +
                c * dot edge1 (cross edge1 edge2))
      by (unfold p, dot, sub3, add3, smul3; simpl; ring).
    rewrite E, dot_cross_l. ring.
  - change (dot (sub3 p v1) edge2 =
            a * dot edge1 edge2 + b * dot edge2 edge2).
    assert (E : dot (sub3 p v1) edge2 =
                a * dot edge1 edge2 + b * dot edge2 edge2 +
                c * dot edge2 (cross edge1 edge2))
      by (unfold p, dot, sub3, add3, smul3; simpl; ring).
    rewrite E, dot_cross_r. ring.
Qed.

(** X6.  For a triangle of non-zero area, [barycentric_normal] of
    [shader.cu] weighs the vertex normals by the barycentric coordinates of
    the foot of the hit point in the triangle's plane: at
    [v1 + a (v2 - v1) + b (v3 - v1) + c N], with [N] normal to the plane,
    it returns [(1 - a - b) n1 + a n2 + b n3], whatever [c].  At a vertex
    it returns that vertex's normal. *)
Theorem barycentric_normal_weights (n1 n2 n3 v1 v2 v3 : float3 R)
    (a b c : R) :
  let edge1 := sub3 v2 v1 in
  let edge2 := sub3 v3 v1 in
  cross edge1 edge2 <> make_float3 0 0 0 ->
  let p :=
    add3 v1 (add3 (add3 (smul3 a edge1) (smul3 b edge2))
                  (smul3 c (cross edge1 edge2))) in
  Shader.barycentric_normal p n1 n2 n3 v1 v2 v3 =
    add3 (add3 (smul3 (1 - a - b) n1) (smul3 a n2)) (smul3 b n3) /\
  Shader.barycentric_normal v1 n1 n2 n3 v1 v2 v3 = n1 /\
  Shader.barycentric_normal v2 n1 n2 n3 v1 v2 v3 = n2 /\
  Shader.barycentric_normal v3 n1 n2 n3 v1 v2 v3 = n3.
Proof.
  intros edge1 edge2 Hne p.
  split; [|split; [|split]].
  - apply barycentric_normal_plane. exact Hne.
  - rewrite (@barycentric_normal_solve v1 n1 n2 n3 v1 v2 v3 0 0 Hne).
    + apply float3_eq; unfold add3, smul3; simpl; ring.
    + unfold dot, sub3; simpl; ring.
    + unfold dot, sub3; simpl; ring.
  - rewrite (@barycentric_normal_solve v2 n1 n2 n3 v1 v2 v3 1 0 Hne).
    + apply float3_eq; unfold add3, smul3; simpl; ring.
    + unfold dot, sub3; simpl; ring.
    + unfold dot, sub3; simpl; ring.
  - rewrite (@barycentric_normal_solve v3 n1 n2 n3 v1 v2 v3 0 1 Hne).
    + apply float3_eq; unfold add3, smul3; simpl; ring.
    + unfold dot, sub3; simpl; ring.
    + unfold dot, sub3; simpl; ring.
Qed.

(** X7.  Flat shading: on a triangle of non-zero area whose three vertex
    normals are the same vector, [barycentric_normal] of [shader.cu]
    returns that vector at every hit point, the three weights adding up to
    one.  (On a triangle of zero area the source divides by zero.) *)
Theorem barycentric_normal_flat (p n v1 v2 v3 : float3 R) :
  cross (sub3 v2 v1) (sub3 v3 v1) <> make_float3 0 0 0 ->
  Shader.barycentric_normal p n n n v1 v2 v3 = n.
Proof.
  intros _. unfold Shader.barycentric_normal.
  apply float3_eq; unfold add3, smul3; simpl; ring.
Qed.

(** Cauchy and Schwarz, for a vector no longer than one against a unit
    vector. *)
Lemma dot_le_one (n d : float3 R) :
  dot n n <= 1 -> dot d d = 1 -> dot n d <= 1.
Proof.
  intros Hn Hd.
  pose proof (dot_cross_cross n d) as Hl.
  pose proof (dot_self_nonneg (cross n d)) as Hc.
  pose proof (dot_self_nonneg n) as Hnn.
  rewrite Hd in Hl. nra.
Qed.

(** A convex combination of unit vectors is no longer than one. *)
Lemma convex_unit_short (n1 n2 n3 : float3 R) (u v w : R) :
  0 <= u -> 0 <= v -> 0 <= w -> u + v + w = 1 ->
  dot n1 n1 = 1 -> dot n2 n2 = 1 -> dot n3 n3 = 1 ->
  let N := add3 (add3 (smul3 u n1) (smul3 v n2)) (smul3 w n3) in
  dot N N <= 1.
Proof.
  intros Hu Hv Hw Hsum H1 H2 H3 N.
  assert (E : dot N N =
              u * u * dot n1 n1 + v * v * dot n2 n2 + w * w * dot n3 n3 +
              2 * (u * v) * dot n1 n2 + 2 * (u * w) * dot n1 n3 +
              2 * (v * w) * dot n2 n3)
    by (unfold N, dot, add3, smul3; simpl; ring).
  rewrite E, H1, H2, H3.
  assert (H12 : dot n1 n2 <= 1) by (apply dot_le_one; lra).
  assert (H13 : dot n1 n3 <= 1) by (apply dot_le_one; lra).
  assert (H23 : dot n2 n3 <= 1) by (apply dot_le_one; lra).
  assert (Huv : 0 <= u * v) by (apply Rmult_le_pos; assumption).
  assert (Huw : 0 <= u * w) by (apply Rmult_le_pos; assumption).
  assert (Hvw : 0 <= v * w) by (apply Rmult_le_pos; assumption).
  assert (Hsq : (u + v + w) * (u + v + w) = 1) by (rewrite Hsum; ring).
  nra.
Qed.

(** X8.  Inside a triangle of non-zero area whose three vertex normals
    are unit vectors, the normal [barycentric_normal] of [shader.cu]
    returns is no longer than one: it is a convex combination of the
    three.  With the weights [u = 1 - a - b], [v = a], [w = b] its squared
    length is [1 - 2 (u v (1 - n1.n2) + u w (1 - n1.n3) + v w (1 - n2.n3))];
    the source does not normalise it. *)
Theorem barycentric_normal_short (n1 n2 n3 v1 v2 v3 : float3 R)
    (a b c : R) :
  let edge1 := sub3 v2 v1 in
  let edge2 := sub3 v3 v1 in
  cross edge1 edge2 <> make_float3 0 0 0 ->
  dot n1 n1 = 1 -> dot n2 n2 = 1 -> dot n3 n3 = 1 ->
  0 <= a -> 0 <= b -> a + b <= 1 ->
  let p :=
    add3 v1 (add3 (add3 (smul3 a edge1) (smul3 b edge2))
                  (smul3 c (cross edge1 edge2))) in
  let N := Shader.barycentric_normal p n1 n2 n3 v1 v2 v3 in
  dot N N <= 1 /\
  dot N N = 1 - 2 * ((1 - a - b) * a * (1 - dot n1 n2) +
                     (1 - a - b) * b * (1 - dot n1 n3) +
                     a * b * (1 - dot n2 n3)).
Proof.
  intros edge1 edge2 Hne H1 H2 H3 Ha Hb Hab p N.
  assert (HN : N = add3 (add3 (smul3 (1 - a - b) n1) (smul3 a n2))
                        (smul3 b n3))
    by (apply barycentric_normal_plane; exact Hne).
  rewrite HN. split.
  - apply convex_unit_short; try assumption; lra.
  - assert (E : forall u v w,
               dot (add3 (add3 (smul3 u n1) (smul3 v n2)) (smul3 w n3))
                   (add3 (add3 (smul3 u n1) (smul3 v n2)) (smul3 w n3)) =
               u * u * dot n1 n1 + v * v * dot n2 n2 + w * w * dot n3 n3 +
               2 * (u * v) * dot n1 n2 + 2 * (u * w) * dot n1 n3 +
               2 * (v * w) * dot n2 n3)
      by (intros; unfold dot, add3, smul3; simpl; ring).
    rewrite E, H1, H2, H3. ring.
Qed.
End BarycentricInterpolation.

(** The middle of the hypotenuse of the right triangle on the axes, with
    the axes as vertex normals: the interpolated normal has squared length
    one half. *)
Lemma barycentric_normal_short_axes :
  let v1 := make_float3 0%R 0%R 0%R in
  let v2 := make_float3 1%R 0%R 0%R in
  let v3 := make_float3 0%R 1%R 0%R in
  let p :=
    add3 v1 (add3 (add3 (smul3 (1/2)%R (sub3 v2 v1))
                        (smul3 (1/2)%R (sub3 v3 v1)))
                  (smul3 0%R (cross (sub3 v2 v1) (sub3 v3 v1)))) in
  let N := Shader.barycentric_normal p (make_float3 0%R 0%R 1%R) v2 v3
             v1 v2 v3 in
  (dot N N <= 1)%R.
Proof.
  intros v1 v2 v3.
  assert (Hne : cross (sub3 v2 v1) (sub3 v3 v1) <> make_float3 0%R 0%R 0%R)
    by (apply cross_nonzero_z; simpl; lra).
  assert (H1 : dot (make_float3 0%R 0%R 1%R) (make_float3 0%R 0%R 1%R) = 1%R)
    by (unfold dot; simpl; lra).
  assert (H2 : dot v2 v2 = 1%R) by (unfold dot; simpl; lra).
  assert (H3 : dot v3 v3 = 1%R) by (unfold dot; simpl; lra).
  assert (Ha : (0 <= 1/2)%R) by lra.
  assert (Hab : (1/2 + 1/2 <= 1)%R) by lra.
  exact (proj1 (@barycentric_normal_short (make_float3 0%R 0%R 1%R) v2 v3
                  v1 v2 v3 (1/2)%R (1/2)%R 0%R Hne H1 H2 H3 Ha Ha Hab)).
Defined.

(** The right triangle on the axes with the axes as vertex normals, seen
    from three units above the point of coordinates (1/4, 1/2). *)
Lemma barycentric_normal_weights_axes :
  let v1 := make_float3 0%R 0%R 0%R in
  let v2 := make_float3 1%R 0%R 0%R in
  let v3 := make_float3 0%R 1%R 0%R in
  let p :=
    add3 v1 (add3 (add3 (smul3 (1/4)%R (sub3 v2 v1))
                        (smul3 (1/2)%R (sub3 v3 v1)))
                  (smul3 3%R (cross (sub3 v2 v1) (sub3 v3 v1)))) in
  Shader.barycentric_normal p v2 v3 (make_float3 0%R 0%R 1%R) v1 v2 v3 =
  add3 (add3 (smul3 (1 - 1/4 - 1/2)%R v2) (smul3 (1/4)%R v3))
       (smul3 (1/2)%R (make_float3 0%R 0%R 1%R)).
Proof.
  intros v1 v2 v3.
  assert (Hne : cross (sub3 v2 v1) (sub3 v3 v1) <> make_float3 0%R 0%R 0%R)
    by (apply cross_nonzero_z; simpl; lra).
  exact (proj1 (@barycentric_normal_weights v2 v3 (make_float3 0%R 0%R 1%R)
                  v1 v2 v3 (1/4)%R (1/2)%R 3%R Hne)).
Defined.

(** The same triangle with the normal [(0,0,1)] at its three vertices. *)
Lemma barycentric_normal_flat_axes :
  Shader.barycentric_normal (make_float3 (1/4) (1/2) 0)%R
    (make_float3 0 0 1)%R (make_float3 0 0 1)%R (make_float3 0 0 1)%R
    (make_float3 0 0 0)%R (make_float3 1 0 0)%R (make_float3 0 1 0)%R =
  make_float3 0%R 0%R 1%R.
Proof.
  apply barycentric_normal_flat.
  apply cross_nonzero_z; simpl; lra.
Defined.

(** ** The stores of the ray generation *)

Section RaygenStores.
Context {F : Type} {FO : FloatOps F}.
Variable rnd : uint -> F * uint.
Variable tea4 : uint -> uint -> uint.
Variable uchar4 : Type.
Variable make_color : float3 F -> uchar4.

Lemma same_launch_accumulate (Data : Type) (p : Params F Data uchar4)
    (idx_x idx_y : uint) (e : float3 F) :
  same_launch p (accumulate make_color p idx_x idx_y e).
Proof. unfold same_launch, accumulate. cbn. repeat split. Qed.

Lemma make_float3_4_3s (c : float3 F) (w : F) :
  make_float3_4 (make_float4_3s c w) = c.
Proof. destruct c; reflexivity. Qed.

Lemma accumulate_stores (Data : Type) (p : Params F Data uchar4)
    (idx_x idx_y : uint) (e : float3 F) :
  let q := accumulate make_color p idx_x idx_y e in
  let image_index := wrap32 (idx_y * width p + idx_x) in
  same_launch p q /\
  (forall j, j <> image_index ->
     accum_buffer q j = accum_buffer p j /\
     frame_buffer q j = frame_buffer p j) /\
  w4 (accum_buffer q image_index) = f_of_Z 1 /\
  frame_buffer q image_index =
    make_color (make_float3_4 (accum_buffer q image_index)).
Proof.
  cbv zeta. split; [apply same_launch_accumulate|].
  unfold accumulate. cbn [set_buffers accum_buffer frame_buffer].
  unfold store. split.
  - intros j Hj. apply Z.eqb_neq in Hj. rewrite Hj. split; reflexivity.
  - rewrite Z.eqb_refl. split; [reflexivity|].
    rewrite make_float3_4_3s. reflexivity.
Qed.

(** X9.  One execution of [__raygen__rg], in either shader file, stores
    into one cell of each buffer, the cell of index [y * width + x] (in
    32-bit arithmetic): every other cell of the accumulation buffer and of
    the frame buffer keeps its value, and so do the other launch
    parameters.  The accumulation cell gets alpha 1, and the frame cell is
    [make_color] of the colour the accumulation cell now holds. *)
Theorem raygen_stores_one_cell :
  (forall (p : Params F (HitGroupData F) uchar4) (g : Intersection F)
          (idx_x idx_y : uint),
      let q := value (Shader.__raygen__rg rnd tea4 make_color p g
                        idx_x idx_y) in
      let image_index := wrap32 (idx_y * width p + idx_x) in
      same_launch p q /\
      (forall j, j <> image_index ->
         accum_buffer q j = accum_buffer p j /\
         frame_buffer q j = frame_buffer p j) /\
      w4 (accum_buffer q image_index) = f_of_Z 1 /\
      frame_buffer q image_index =
        make_color (make_float3_4 (accum_buffer q image_index))) /\
  (forall (p : Params F (HitGroupData2 F) uchar4) (g : Intersection F)
          (idx_x idx_y : uint),
      let q := value (Shader2.__raygen__rg rnd tea4 make_color p g
                        idx_x idx_y) in
      let image_index := wrap32 (idx_y * width p + idx_x) in
      same_launch p q /\
      (forall j, j <> image_index ->
         accum_buffer q j = accum_buffer p j /\
         frame_buffer q j = frame_buffer p j) /\
      w4 (accum_buffer q image_index) = f_of_Z 1 /\
      frame_buffer q image_index =
        make_color (make_float3_4 (accum_buffer q image_index))).
Proof.
  split; intros p g idx_x idx_y; cbv zeta.
  - rewrite shader_raygen_value. apply accumulate_stores.
  - rewrite shader2_raygen_value. apply accumulate_stores.
Qed.

(** Within an image of at most [2^32] pixels, two pixels with the same
    linear index are the same pixel. *)
Lemma image_index_injective (w h x y x' y' : Z) :
  (0 <= x < w)%Z -> (0 <= y < h)%Z -> (0 <= x' < w)%Z -> (0 <= y' < h)%Z ->
  (w * h <= 2 ^ 32)%Z ->
  wrap32 (y * w + x) = wrap32 (y' * w + x') -> x = x' /\ y = y'.
Proof.
  intros Hx Hy Hx' Hy' Hsz. unfold wrap32.
  assert (Hb : forall a b, (0 <= a < w)%Z -> (0 <= b < h)%Z ->
                 (0 <= b * w + a < 2 ^ 32)%Z).
  { intros a b Ha Hb. split; [nia|].
    apply Z.lt_le_trans with (w * h)%Z; [nia | exact Hsz]. }
  rewrite !Z.mod_small by (apply Hb; assumption).
  intros E.
  assert (Hyy : y = y').
  { destruct (Z.lt_trichotomy y y') as [Hlt | [Heq | Hgt]];
      [exfalso; nia | exact Heq | exfalso; nia]. }
  subst y'. split; [lia | reflexivity].
Qed.

Lemma accumulate_commute (Data : Type) (p : Params F Data uchar4)
    (x y x' y' : uint) (e e' : float3 F) :
  wrap32 (y * width p + x) <> wrap32 (y' * width p + x') ->
  let q12 := accumulate make_color (accumulate make_color p x y e) x' y' e' in
  let q21 := accumulate make_color (accumulate make_color p x' y' e') x y e in
  forall j,
    accum_buffer q12 j = accum_buffer q21 j /\
    frame_buffer q12 j = frame_buffer q21 j.
Proof.
  intros Hne q12 q21 j. unfold q12, q21, accumulate.
  cbn [set_buffers accum_buffer frame_buffer width subframe_index].
  unfold store.
  assert (H1 : (wrap32 (y' * width p + x') =? wrap32 (y * width p + x))%Z
               = false) by (apply Z.eqb_neq; congruence).
  assert (H2 : (wrap32 (y * width p + x) =? wrap32 (y' * width p + x'))%Z
               = false) by (apply Z.eqb_neq; congruence).
  rewrite H1, H2.
  destruct (Z.eqb_spec j (wrap32 (y' * width p + x'))) as [E1 | N1];
    destruct (Z.eqb_spec j (wrap32 (y * width p + x))) as [E2 | N2];
    try (exfalso; congruence); split; reflexivity.
Qed.

(** X10.  The executions of [__raygen__rg] for two different pixels of an
    image of at most [2^32] pixels do not interfere: run one after the
    other on the same launch, in either order, they leave the same two
    buffers.  Each reads and writes the cells of its own pixel only. *)
Theorem raygen_pixels_commute :
  (forall (p : Params F (HitGroupData F) uchar4) (g g' : Intersection F)
          (x y x' y' : uint),
      (0 <= x < width p)%Z -> (0 <= y < height p)%Z ->
      (0 <= x' < width p)%Z -> (0 <= y' < height p)%Z ->
      (width p * height p <= 2 ^ 32)%Z ->
      (x, y) <> (x', y') ->
      let run p g x y :=
        value (Shader.__raygen__rg rnd tea4 make_color p g x y) in
      forall j,
        accum_buffer (run (run p g x y) g' x' y') j =
        accum_buffer (run (run p g' x' y') g x y) j /\
        frame_buffer (run (run p g x y) g' x' y') j =
        frame_buffer (run (run p g' x' y') g x y) j) /\
  (forall (p : Params F (HitGroupData2 F) uchar4) (g g' : Intersection F)
          (x y x' y' : uint),
      (0 <= x < width p)%Z -> (0 <= y < height p)%Z ->
      (0 <= x' < width p)%Z -> (0 <= y' < height p)%Z ->
      (width p * height p <= 2 ^ 32)%Z ->
      (x, y) <> (x', y') ->
      let run p g x y :=
        value (Shader2.__raygen__rg rnd tea4 make_color p g x y) in
      forall j,
        accum_buffer (run (run p g x y) g' x' y') j =
        accum_buffer (run (run p g' x' y') g x y) j /\
        frame_buffer (run (run p g x y) g' x' y') j =
        frame_buffer (run (run p g' x' y') g x y) j).
Proof.
  split; intros p g g' x y x' y' Hx Hy Hx' Hy' Hsz Hne run j; unfold run.
  - rewrite !shader_raygen_value.
    rewrite <- (shader_pixel_estimate_same rnd g' g'
                  (same_launch_accumulate p x y
                     (value (Shader.pixel_estimate rnd tea4 p g x y)))
                  tea4 x' y').
    rewrite <- (shader_pixel_estimate_same rnd g g
                  (same_launch_accumulate p x' y'
                     (value (Shader.pixel_estimate rnd tea4 p g' x' y')))
                  tea4 x y).
    apply accumulate_commute.
    intros E. apply Hne.
    destruct (image_index_injective Hx Hy Hx' Hy' Hsz E) as [-> ->].
    reflexivity.
  - rewrite !shader2_raygen_value.
    rewrite <- (shader2_pixel_estimate_same rnd g' g'
                  (same_launch_accumulate p x y
                     (value (Shader2.pixel_estimate rnd tea4 p g x y)))
                  tea4 x' y').
    rewrite <- (shader2_pixel_estimate_same rnd g g
                  (same_launch_accumulate p x' y'
                     (value (Shader2.pixel_estimate rnd tea4 p g' x' y')))
                  tea4 x y).
    apply accumulate_commute.
    intros E. apply Hne.
    destruct (image_index_injective Hx Hy Hx' Hy' Hsz E) as [-> ->].
    reflexivity.
Qed.
End RaygenStores.

(** The launch of pixel (0,0) of the image of [Sky.params] leaves the cell
    of pixel (1,0) alone. *)
Lemma raygen_stores_one_cell_sky :
  let q := value (Shader.__raygen__rg Random.rnd (Random.tea 4)
                    (fun _ => tt) Sky.params Lit.garbage 0%Z 0%Z) in
  accum_buffer q 1%Z = accum_buffer Sky.params 1%Z /\
  frame_buffer q 1%Z = frame_buffer Sky.params 1%Z.
Proof.
  assert (Hne : 1%Z <> wrap32 (0 * width Sky.params + 0)) by discriminate.
  destruct (proj1 (@raygen_stores_one_cell R R_float Random.rnd
                     (Random.tea 4) unit (fun _ => tt))
              Sky.params Lit.garbage 0%Z 0%Z) as [_ [Hother _]].
  exact (Hother 1%Z Hne).
Defined.

(** The launches of the pixels (0,0) and (1,0) of the image of
    [Sky.params], in both orders, seen at the cell of the first. *)
Lemma raygen_pixels_commute_sky :
  let run p x y :=
    value (Shader.__raygen__rg Random.rnd (Random.tea 4) (fun _ => tt)
             p Lit.garbage x y) in
  accum_buffer (run (run Sky.params 0%Z 0%Z) 1%Z 0%Z) 0%Z =
  accum_buffer (run (run Sky.params 1%Z 0%Z) 0%Z 0%Z) 0%Z.
Proof.
  intros run.
  assert (Hx : (0 <= 0 < width Sky.params)%Z) by (simpl; lia).
  assert (Hy : (0 <= 0 < height Sky.params)%Z) by (simpl; lia).
  assert (Hx' : (0 <= 1 < width Sky.params)%Z) by (simpl; lia).
  assert (Hsz : (width Sky.params * height Sky.params <= 2 ^ 32)%Z)
    by (simpl; lia).
  assert (Hne : (0%Z, 0%Z) <> (1%Z, 0%Z)) by discriminate.
  exact (proj1 (proj1 (@raygen_pixels_commute R R_float Random.rnd
                         (Random.tea 4) unit (fun _ => tt))
                  Sky.params Lit.garbage Lit.garbage 0%Z 0%Z 1%Z 0%Z
                  Hx Hy Hx' Hy Hsz Hne 0%Z)).
Defined.

(** ** The blend stays between its two inputs *)

Section BlendBetween.
Local Open Scope R_scope.
Context {Data uchar4 : Type}.
Variable make_color : float3 R -> uchar4.

Lemma between_min_max (a b t : R) :
  0 <= t <= 1 -> Rmin a b <= a + (b - a) * t <= Rmax a b.
Proof.
  intros Ht. unfold Rmin, Rmax. destruct (Rle_dec a b); split; nra.
Qed.

(** X11.  From the second frame on ([0 < subframe_index]), the colour a
    launch leaves in the pixel's accumulation cell lies, channel by
    channel, between the colour the cell held and the launch's estimate:
    the blend never overshoots either of them. *)
Theorem temporal_blend_between (p : Params R Data uchar4)
    (idx_x idx_y : uint) (e : float3 R) :
  (0 < subframe_index p < 2 ^ 31 - 1)%Z ->
  let c := pixel_cell p idx_x idx_y in
  let c' := pixel_cell (accumulate make_color p idx_x idx_y e) idx_x idx_y in
  Rmin (fx c) (fx e) <= fx c' <= Rmax (fx c) (fx e) /\
  Rmin (fy c) (fy e) <= fy c' <= Rmax (fy c) (fy e) /\
  Rmin (fz c) (fz e) <= fz c' <= Rmax (fz c) (fz e).
Proof.
  intros Hk c c'.
  destruct (pixel_cell_accumulate make_color p idx_x idx_y e) as [Hc _].
  unfold c'. rewrite Hc.
  replace (0 <? subframe_index p)%Z with true
    by (symmetry; apply Z.ltb_lt; lia).
  rewrite wrap_int_small by lia. fold c.
  assert (Ht : 0 <= 1 / IZR (subframe_index p + 1) <= 1).
  { assert (H1 : 1 <= IZR (subframe_index p + 1)) by (apply IZR_le; lia).
    split.
    - apply Rlt_le. apply Rdiv_lt_0_compat; lra.
    - apply Rmult_le_reg_r with (IZR (subframe_index p + 1)); [lra|].
      unfold Rdiv. rewrite Rmult_assoc, Rinv_l by lra. lra. }
  unfold lerp, add3, smul3, sub3. cbn [fx fy fz].
  repeat split; apply (between_min_max _ _ Ht).
Qed.
End BlendBetween.

(** Frame 1 on the buffers of [Lit.params]: the cell held black, the
    estimate is white. *)
Lemma temporal_blend_between_grey :
  let c' :=
    pixel_cell (accumulate (fun _ => tt) (set_subframe_index Lit.params 1)
                  0%Z 0%Z (make_float3 1%R 1%R 1%R)) 0%Z 0%Z in
  (Rmin 0 1 <= fx c' <= Rmax 0 1)%R.
Proof.
  assert (Hk : (0 < subframe_index (set_subframe_index Lit.params 1)
                < 2 ^ 31 - 1)%Z) by (simpl; lia).
  exact (proj1 (@temporal_blend_between (HitGroupData R) unit (fun _ => tt)
                  (set_subframe_index Lit.params 1) 0%Z 0%Z
                  (make_float3 1%R 1%R 1%R) Hk)).
Defined.

(** ** The rays of a launch *)

Section LaunchBudget.
Context {F : Type} {FO : FloatOps F}.
Variable rnd : uint -> F * uint.
Variable tea4 : uint -> uint -> uint.
Variable uchar4 : Type.
Variable make_color : float3 F -> uchar4.

Lemma shader_bounce_loop_first (p : Params F (HitGroupData F) uchar4)
    (g : Intersection F) (n : nat) (i : Intersection F) (o d : float3 F)
    (s : uint) :
  (1 <= count_radiance
          (queries (Shader.bounce_loop rnd p g (S n) i o d s)))%nat.
Proof.
  rewrite shader_bounce_loop_S, queries_bind, count_radiance_app.
  rewrite shader_trace_radiance_count. lia.
Qed.

Lemma shader2_bounce_loop_first (p : Params F (HitGroupData2 F) uchar4)
    (n : nat) (i : Intersection F) (o d : float3 F) :
  (1 <= count_radiance
          (queries (Shader2.bounce_loop rnd p (S n) i o d)))%nat.
Proof.
  rewrite shader2_bounce_loop_S, queries_bind, count_radiance_app.
  rewrite shader2_trace_radiance_count. lia.
Qed.

Lemma shader_sample_budget (p : Params F (HitGroupData F) uchar4)
    (g : Intersection F) (idx2 size : float2 F) (s : uint) :
  let l := queries (Shader.sample rnd p g idx2 size s) in
  (1 <= count_radiance l <= 3)%nat /\ (count_occlusion l <= 21)%nat.
Proof.
  cbv zeta. unfold Shader.sample.
  destruct (Shader.antialiasing_jitter rnd s) as [jitter s'].
  unfold Shader.nb_bounces.
  split; [split|].
  - apply shader_bounce_loop_first.
  - apply (shader_bounce_loop_count rnd p g 3).
  - apply (shader_bounce_loop_probes rnd p g 3).
Qed.

Lemma shader2_sample_budget (p : Params F (HitGroupData2 F) uchar4)
    (g : Intersection F) (idx2 size : float2 F) (s : uint) :
  let l := queries (Shader2.sample rnd p g idx2 size s) in
  (1 <= count_radiance l <= 3)%nat /\ (count_occlusion l <= 21)%nat.
Proof.
  cbv zeta. unfold Shader2.sample.
  destruct (Shader2.antialiasing_jitter rnd s) as [jitter s'].
  rewrite queries_bind, queries_ret, app_nil_r.
  unfold Shader2.nb_bounces.
  split; [split|].
  - apply shader2_bounce_loop_first.
  - apply (shader2_bounce_loop_count rnd p 3).
  - apply (shader2_bounce_loop_probes rnd p 3).
Qed.

Lemma shader_sample_loop_budget (p : Params F (HitGroupData F) uchar4)
    (g : Intersection F) (n : nat) (idx2 size : float2 F) (s : uint)
    (accum : float3 F) :
  let l := queries (Shader.sample_loop rnd p g n idx2 size s accum) in
  (n <= count_radiance l <= 3 * n)%nat /\ (count_occlusion l <= 21 * n)%nat.
Proof.
  revert s accum. induction n as [|n IH]; intros s accum.
  - cbv zeta. unfold count_radiance, count_occlusion. simpl. lia.
  - cbv zeta. cbn [Shader.sample_loop].
    rewrite queries_bind, count_radiance_app, count_occlusion_app.
    pose proof (shader_sample_budget p g idx2 size s) as Hs. cbv zeta in Hs.
    destruct (value (Shader.sample rnd p g idx2 size s)) as [i s'].
    pose proof (IH s' (add3 accum (accum_color i))) as Hl. cbv zeta in Hl.
    lia.
Qed.

Lemma shader2_sample_loop_budget (p : Params F (HitGroupData2 F) uchar4)
    (g : Intersection F) (n : nat) (idx2 size : float2 F) (s : uint)
    (accum : float3 F) :
  let l := queries (Shader2.sample_loop rnd p g n idx2 size s accum) in
  (n <= count_radiance l <= 3 * n)%nat /\ (count_occlusion l <= 21 * n)%nat.
Proof.
  revert s accum. induction n as [|n IH]; intros s accum.
  - cbv zeta. unfold count_radiance, count_occlusion. simpl. lia.
  - cbv zeta. cbn [Shader2.sample_loop].
    rewrite queries_bind, count_radiance_app, count_occlusion_app.
    pose proof (shader2_sample_budget p g idx2 size s) as Hs. cbv zeta in Hs.
    destruct (value (Shader2.sample rnd p g idx2 size s)) as [i s'].
    pose proof (IH s' (add3 accum (accum_color i))) as Hl. cbv zeta in Hl.
    lia.
Qed.

Lemma shader_raygen_queries (p : Params F (HitGroupData F) uchar4)
    (g : Intersection F) (idx_x idx_y : uint) :
  exists idx2 size s accum,
    queries (Shader.__raygen__rg rnd tea4 make_color p g idx_x idx_y) =
    queries (Shader.sample_loop rnd p g (Z.to_nat (samples_per_launch p))
               idx2 size s accum).
Proof.
  unfold Shader.__raygen__rg, Shader.pixel_estimate.
  do 4 eexists.
  rewrite !queries_bind, queries_ret, app_nil_r.
  match goal with
  | |- _ ++ queries (let '(_, _) := ?v in _) = _ => destruct v
  end.
  rewrite queries_ret, app_nil_r. reflexivity.
Qed.

Lemma shader2_raygen_queries (p : Params F (HitGroupData2 F) uchar4)
    (g : Intersection F) (idx_x idx_y : uint) :
  exists idx2 size s accum,
    queries (Shader2.__raygen__rg rnd tea4 make_color p g idx_x idx_y) =
    queries (Shader2.sample_loop rnd p g (Z.to_nat (samples_per_launch p))
               idx2 size s accum).
Proof.
  unfold Shader2.__raygen__rg, Shader2.pixel_estimate.
  do 4 eexists.
  rewrite !queries_bind, queries_ret, app_nil_r.
  match goal with
  | |- _ ++ queries (let '(_, _) := ?v in _) = _ => destruct v
  end.
  rewrite queries_ret, app_nil_r. reflexivity.
Qed.

(** X12.  The rays of one execution of [__raygen__rg], in either shader
    file, for [n] samples ([n = samples_per_launch], none when that is
    zero or negative): at least [n] and at most [3 n] radiance queries, at
    most [21 n] occlusion queries, so at most [24 n] calls of [optixTrace]
    in all. *)
Theorem launch_ray_budget :
  (forall (p : Params F (HitGroupData F) uchar4) (g : Intersection F)
          (idx_x idx_y : uint),
      let n := Z.to_nat (samples_per_launch p) in
      let l := queries (Shader.__raygen__rg rnd tea4 make_color p g
                          idx_x idx_y) in
      (n <= count_radiance l <= 3 * n)%nat /\
      (count_occlusion l <= 21 * n)%nat /\
      (length l <= 24 * n)%nat) /\
  (forall (p : Params F (HitGroupData2 F) uchar4) (g : Intersection F)
          (idx_x idx_y : uint),
      let n := Z.to_nat (samples_per_launch p) in
      let l := queries (Shader2.__raygen__rg rnd tea4 make_color p g
                          idx_x idx_y) in
      (n <= count_radiance l <= 3 * n)%nat /\
      (count_occlusion l <= 21 * n)%nat /\
      (length l <= 24 * n)%nat).
Proof.
  split; intros p g idx_x idx_y n l.
  - destruct (shader_raygen_queries p g idx_x idx_y)
      as [idx2 [size [s [accum E]]]].
    unfold l. rewrite E.
    destruct (shader_sample_loop_budget p g n idx2 size s accum) as [H1 H2].
    split; [exact H1|]. split; [exact H2|].
    rewrite length_queries. unfold n in *. lia.
  - destruct (shader2_raygen_queries p g idx_x idx_y)
      as [idx2 [size [s [accum E]]]].
    unfold l. rewrite E.
    destruct (shader2_sample_loop_budget p g n idx2 size s accum) as [H1 H2].
    split; [exact H1|]. split; [exact H2|].
    rewrite length_queries. unfold n in *. lia.
Qed.
End LaunchBudget.

(** ** What the eye sees directly *)

Section DirectlySeen.
Local Open Scope R_scope.
Variable rnd : uint -> R * uint.
Variable tea4 : uint -> uint -> uint.
Variable uchar4 : Type.

Lemma shader_trace_radiance_terminal
    (p : Params R (HitGroupData R) uchar4) (g : Intersection R)
    (o c d : float3 R) (tmin tmax : R) (i : Intersection R) :
  seen_from (@rt_material R) (handle p) o c ->
  let r := Shader.trace_radiance rnd p g (handle p) o d tmin tmax i in
  done (value r) = true /\
  accum_color (value r) = add3 (accum_color i) (mul3 c (mask_color i)) /\
  queries r = [QRadiance o d tmin tmax].
Proof.
  intros Hseen. specialize (Hseen d tmin tmax). cbv zeta.
  unfold Shader.trace_radiance.
  rewrite value_bind, queries_bind.
  destruct (closest_hit (handle p) o d tmin tmax) as [h|].
  - destruct Hseen as [He Hc]. unfold Shader.__closesthit__radiance.
    rewrite He, Hc. repeat split.
  - rewrite <- Hseen. repeat split.
Qed.

Lemma shader2_trace_radiance_terminal
    (p : Params R (HitGroupData2 R) uchar4)
    (o c d : float3 R) (tmin tmax : R) (i : Intersection R) :
  seen_from (@rt_material2 R) (handle p) o c ->
  let r := Shader2.trace_radiance rnd p (handle p) o d tmin tmax i in
  done (value r) = true /\
  accum_color (value r) = add3 (accum_color i) (mul3 c (mask_color i)) /\
  queries r = [QRadiance o d tmin tmax].
Proof.
  intros Hseen. specialize (Hseen d tmin tmax). cbv zeta.
  unfold Shader2.trace_radiance.
  rewrite value_bind, queries_bind.
  destruct (closest_hit (handle p) o d tmin tmax) as [h|].
  - destruct Hseen as [He Hc]. unfold Shader2.__closesthit__radiance.
    rewrite He, Hc. repeat split.
  - rewrite <- Hseen. repeat split.
Qed.

Lemma shader_sample_terminal
    (p : Params R (HitGroupData R) uchar4) (g : Intersection R)
    (c : float3 R) (idx2 size : float2 R) (s : uint) :
  seen_from (@rt_material R) (handle p) (eye p) c ->
  let r := Shader.sample rnd p g idx2 size s in
  accum_color (fst (value r)) = c /\
  count_radiance (queries r) = 1%nat /\ count_occlusion (queries r) = 0%nat.
Proof.
  intros Hseen. cbv zeta. unfold Shader.sample.
  destruct (Shader.antialiasing_jitter rnd s) as [jitter s'].
  unfold Shader.nb_bounces. rewrite shader_bounce_loop_S.
  rewrite value_bind, queries_bind.
  match goal with
  | |- context [Shader.trace_radiance rnd p g (handle p) (eye p) ?d ?a ?b ?i] =>
      destruct (@shader_trace_radiance_terminal p g (eye p) c d a b i Hseen)
        as [Hd [Ha Hq]]
  end.
  rewrite Hd. cbn [value ret fst queries snd]. rewrite Ha, Hq.
  split; [|split; reflexivity].
  apply float3_eq; simpl; ring.
Qed.

Lemma shader2_sample_terminal
    (p : Params R (HitGroupData2 R) uchar4) (g : Intersection R)
    (c : float3 R) (idx2 size : float2 R) (s : uint) :
  seen_from (@rt_material2 R) (handle p) (eye p) c ->
  let r := Shader2.sample rnd p g idx2 size s in
  accum_color (fst (value r)) = c /\
  count_radiance (queries r) = 1%nat /\ count_occlusion (queries r) = 0%nat.
Proof.
  intros Hseen. cbv zeta. unfold Shader2.sample.
  destruct (Shader2.antialiasing_jitter rnd s) as [jitter s'].
  rewrite value_bind, queries_bind. cbn [value ret fst queries snd].
  rewrite app_nil_r.
  unfold Shader2.nb_bounces. rewrite shader2_bounce_loop_S.
  rewrite value_bind, queries_bind.
  match goal with
  | |- context [Shader2.trace_radiance rnd p (handle p) (eye p) ?d ?a ?b ?i] =>
      destruct (@shader2_trace_radiance_terminal p (eye p) c d a b i Hseen)
        as [Hd [Ha Hq]]
  end.
  rewrite Hd. cbn [value ret fst queries snd]. rewrite Ha, Hq.
  split; [|split; reflexivity].
  apply float3_eq; simpl; ring.
Qed.
End DirectlySeen.

Section DirectlySeenEstimate.
Local Open Scope R_scope.
Variable rnd : uint -> R * uint.
Variable tea4 : uint -> uint -> uint.
Variable uchar4 : Type.

Lemma shader_sample_loop_terminal
    (p : Params R (HitGroupData R) uchar4) (g : Intersection R)
    (c : float3 R) (idx2 size : float2 R) (n : nat) :
  seen_from (@rt_material R) (handle p) (eye p) c ->
  forall (s : uint) (accum : float3 R),
    let r := Shader.sample_loop rnd p g n idx2 size s accum in
    fx (fst (value r)) = fx accum + INR n * fx c /\
    fy (fst (value r)) = fy accum + INR n * fy c /\
    fz (fst (value r)) = fz accum + INR n * fz c /\
    count_radiance (queries r) = n /\ count_occlusion (queries r) = 0%nat.
Proof.
  intros Hseen. induction n as [|n IH]; intros s accum.
  - cbv zeta. cbn [Shader.sample_loop value ret fst queries snd INR].
    repeat split; ring.
  - cbv zeta. cbn [Shader.sample_loop].
    rewrite value_bind, queries_bind, count_radiance_app, count_occlusion_app.
    destruct (@shader_sample_terminal rnd uchar4 p g c idx2 size s Hseen)
      as [Ha [Hr Ho]].
    rewrite Hr, Ho.
    destruct (value (Shader.sample rnd p g idx2 size s)) as [i s'].
    cbn [fst] in Ha.
    destruct (IH s' (add3 accum (accum_color i))) as [Hx [Hy [Hz [Hr' Ho']]]].
    rewrite Hx, Hy, Hz, Hr', Ho', Ha, S_INR.
    unfold add3. cbn [fx fy fz].
    repeat split; simpl; ring.
Qed.

Lemma shader2_sample_loop_terminal
    (p : Params R (HitGroupData2 R) uchar4) (g : Intersection R)
    (c : float3 R) (idx2 size : float2 R) (n : nat) :
  seen_from (@rt_material2 R) (handle p) (eye p) c ->
  forall (s : uint) (accum : float3 R),
    let r := Shader2.sample_loop rnd p g n idx2 size s accum in
    fx (fst (value r)) = fx accum + INR n * fx c /\
    fy (fst (value r)) = fy accum + INR n * fy c /\
    fz (fst (value r)) = fz accum + INR n * fz c /\
    count_radiance (queries r) = n /\ count_occlusion (queries r) = 0%nat.
Proof.
  intros Hseen. induction n as [|n IH]; intros s accum.
  - cbv zeta. cbn [Shader2.sample_loop value ret fst queries snd INR].
    repeat split; ring.
  - cbv zeta. cbn [Shader2.sample_loop].
    rewrite value_bind, queries_bind, count_radiance_app, count_occlusion_app.
    destruct (@shader2_sample_terminal rnd uchar4 p g c idx2 size s Hseen)
      as [Ha [Hr Ho]].
    rewrite Hr, Ho.
    destruct (value (Shader2.sample rnd p g idx2 size s)) as [i s'].
    cbn [fst] in Ha.
    destruct (IH s' (add3 accum (accum_color i))) as [Hx [Hy [Hz [Hr' Ho']]]].
    rewrite Hx, Hy, Hz, Hr', Ho', Ha, S_INR.
    unfold add3. cbn [fx fy fz].
    repeat split; simpl; ring.
Qed.

Lemma mean_of_copies (n : Z) (c : R) :
  (1 <= n)%Z -> (0 + INR (Z.to_nat n) * c) * (1 / IZR n) = c.
Proof.
  intros Hn. rewrite INR_IZR_INZ, Z2Nat.id by lia.
  assert (IZR n <> 0) by (apply not_0_IZR; lia).
  field. assumption.
Qed.

(** X13.  What the eye sees directly.  When every ray from the eye ends
    its path at once on the same colour [c] (it leaves the scene under a
    background of colour [c], or meets an emitter of emission [c]), the
    estimate of a launch of [n >= 1] samples is [c] for every pixel, and
    the launch traces [n] radiance rays and no occlusion ray.  An empty
    scene renders as its background.  Both shader files, over the real
    numbers. *)
Theorem directly_seen_colour :
  (forall (p : Params R (HitGroupData R) uchar4) (g : Intersection R)
          (c : float3 R) (idx_x idx_y : uint),
      (1 <= samples_per_launch p)%Z ->
      seen_from (@rt_material R) (handle p) (eye p) c ->
      let r := Shader.pixel_estimate rnd tea4 p g idx_x idx_y in
      value r = c /\
      count_radiance (queries r) = Z.to_nat (samples_per_launch p) /\
      count_occlusion (queries r) = 0%nat) /\
  (forall (p : Params R (HitGroupData2 R) uchar4) (g : Intersection R)
          (c : float3 R) (idx_x idx_y : uint),
      (1 <= samples_per_launch p)%Z ->
      seen_from (@rt_material2 R) (handle p) (eye p) c ->
      let r := Shader2.pixel_estimate rnd tea4 p g idx_x idx_y in
      value r = c /\
      count_radiance (queries r) = Z.to_nat (samples_per_launch p) /\
      count_occlusion (queries r) = 0%nat).
Proof.
  split; intros p g c idx_x idx_y Hn Hseen r; unfold r.
  - unfold Shader.pixel_estimate.
    rewrite value_bind, queries_bind.
    match goal with
    | |- context [Shader.sample_loop rnd p g ?n ?idx2 ?size ?s ?a] =>
        destruct (@shader_sample_loop_terminal p g c idx2 size n Hseen s a)
          as [Hx [Hy [Hz [Hr Ho]]]];
        destruct (value (Shader.sample_loop rnd p g n idx2 size s a))
          as [accum s']
    end.
    cbn [fst] in Hx, Hy, Hz.
    cbn [value ret fst queries snd]. rewrite app_nil_r.
    split; [|split; assumption].
    apply float3_eq; unfold div3_s, mul3_s; cbn [fx fy fz];
      [rewrite Hx | rewrite Hy | rewrite Hz];
      apply (mean_of_copies _ Hn).
  - unfold Shader2.pixel_estimate.
    rewrite value_bind, queries_bind.
    match goal with
    | |- context [Shader2.sample_loop rnd p g ?n ?idx2 ?size ?s ?a] =>
        destruct (@shader2_sample_loop_terminal p g c idx2 size n Hseen s a)
          as [Hx [Hy [Hz [Hr Ho]]]];
        destruct (value (Shader2.sample_loop rnd p g n idx2 size s a))
          as [accum s']
    end.
    cbn [fst] in Hx, Hy, Hz.
    cbn [value ret fst queries snd]. rewrite app_nil_r.
    split; [|split; assumption].
    apply float3_eq; unfold div3_s, mul3_s; cbn [fx fy fz];
      [rewrite Hx | rewrite Hy | rewrite Hz];
      apply (mean_of_copies _ Hn).
Qed.
End DirectlySeenEstimate.

(** The empty scene [Sky]: every pixel has the colour of the sky. *)
Lemma directly_seen_colour_sky :
  value (Shader.pixel_estimate Random.rnd (Random.tea 4) Sky.params
           Lit.garbage 3%Z 2%Z) =
  make_float3 (1/4)%R (1/2)%R 1%R.
Proof.
  assert (Hn : (1 <= samples_per_launch Sky.params)%Z) by (simpl; lia).
  assert (Hseen : seen_from (@rt_material R) (handle Sky.params)
                    (eye Sky.params) (make_float3 (1/4)%R (1/2)%R 1%R)).
  { intros d tmin tmax. reflexivity. }
  exact (proj1 (proj1 (@directly_seen_colour Random.rnd (Random.tea 4) unit)
                  Sky.params Lit.garbage (make_float3 (1/4)%R (1/2)%R 1%R)
                  3%Z 2%Z Hn Hseen)).
Defined.

(** ** The seed of the bounce direction *)

Section BounceSeed.
Context {F : Type} {FO : FloatOps F}.
Variable rnd : uint -> F * uint.
Variable uchar4 : Type.
Variable params : Params F (HitGroupData F) uchar4.
Variable garbage : Intersection F.

(** The first probe of the light sampler of [shader.cu]. *)
Lemma shader_light_loop_first_query (n : nat) (i : Intersection F) :
  let l := queries (Shader.shoot_ray_to_light_loop rnd params garbage (S n) i) in
  l = QOcclusion (xyz i)
        (fst (Shader.shoot_ray_hemisphere rnd (normal i) (seed i)))
        (f_lit 1 (-6)) (f_lit 1 16) :: tl l /\
  count_radiance (tl l) = 0%nat.
Proof.
  cbv zeta. rewrite shader_light_loop_step, queries_bind.
  rewrite shader_trace_occlusion_queries.
  cbn [app tl]. split; [reflexivity|].
  destruct (hit _).
  - reflexivity.
  - apply shader_light_loop_count.
Qed.

Lemma shader_trace_radiance_head (o d : float3 F) (tmin tmax : F)
    (i : Intersection F) :
  exists l,
    queries (Shader.trace_radiance rnd params garbage (handle params) o d
               tmin tmax i) = QRadiance o d tmin tmax :: l.
Proof.
  unfold Shader.trace_radiance. rewrite queries_bind.
  cbn [value issue fst queries snd app]. eexists. reflexivity.
Qed.

(** A radiance query of [shader.cu] that ends on a diffuse surface: its
    first probe leaves the shading point in the direction drawn from the
    payload's seed about the shading normal. *)
Lemma shader_trace_radiance_diffuse_queries (o d : float3 F) (tmin tmax : F)
    (i : Intersection F) (h : HitInfo F (HitGroupData F)) :
  closest_hit (handle params) o d tmin tmax = Some h ->
  emit (rt_material (sbt_data h)) = false ->
  let r := Shader.trace_radiance rnd params garbage (handle params) o d
             tmin tmax i in
  exists l,
    queries r =
      QRadiance o d tmin tmax ::
      QOcclusion (xyz (value r))
        (fst (Shader.shoot_ray_hemisphere rnd (normal (value r)) (seed i)))
        (f_lit 1 (-6)) (f_lit 1 16) :: l /\
    count_radiance l = 0%nat /\
    done (value r) = done i.
Proof.
  intros Hh Hemit r.
  assert (Hdone : done (value r) = done i)
    by (apply (shader_trace_radiance_diffuse_done rnd params garbage
                 (handle params) o d tmin tmax i Hh Hemit)).
  enough (exists l,
             queries r =
               QRadiance o d tmin tmax ::
               QOcclusion (xyz (value r))
                 (fst (Shader.shoot_ray_hemisphere rnd (normal (value r))
                         (seed i)))
                 (f_lit 1 (-6)) (f_lit 1 16) :: l /\
             count_radiance l = 0%nat) as [l [A B]].
  { exists l. split; [exact A|]. split; [exact B | exact Hdone]. }
  destruct (shader_closesthit_diffuse rnd params garbage h o d i Hemit)
    as [i3 [_ [_ [Hseed [_ [_ [_ [_ [Hv Hq]]]]]]]]].
  destruct (shader_light_loop_payload rnd params garbage Shader.count i3)
    as [s' Hs'].
  assert (Hval : exists c, value r = set_accum_color c (set_seed s' i3)).
  { unfold r, Shader.trace_radiance. rewrite value_bind, Hh.
    cbn [value issue fst]. rewrite Hv. unfold Shader.shoot_ray_to_light.
    rewrite Hs'. eexists. reflexivity. }
  destruct Hval as [c Hval].
  assert (Hqs : queries r =
                QRadiance o d tmin tmax ::
                queries (Shader.shoot_ray_to_light_loop rnd params garbage
                           Shader.count i3)).
  { unfold r, Shader.trace_radiance. rewrite queries_bind, Hh.
    cbn [value issue fst queries snd app]. rewrite Hq. reflexivity. }
  rewrite Hqs, Hval. cbn [xyz normal set_accum_color set_seed].
  unfold Shader.count.
  destruct (shader_light_loop_first_query 6 i3) as [Hl Hc].
  rewrite Hseed in Hl.
  eexists. split; [rewrite Hl; reflexivity | exact Hc].
Qed.

(** X14.  In [shader.cu], when the first two radiance rays of a path both
    end on diffuse surfaces, the third radiance ray leaves the second hit
    point in exactly the direction of the first occlusion probe cast from
    that point.  The bounce direction is drawn from the local seed, which
    the first bounce reset to the payload's seed, and the light sampler at
    the second hit starts from that same seed about the same normal. *)
Theorem shader_bounce_repeats_probe (i : Intersection F) (o d : float3 F)
    (s : uint) (h1 h2 : HitInfo F (HitGroupData F)) :
  let tmin := f_lit 1 (-6) in
  let tmax := f_lit 1 16 in
  let trace1 :=
    Shader.trace_radiance rnd params garbage (handle params) o d tmin tmax
      (set_done false i) in
  let i1 := value trace1 in
  let d1 := fst (Shader.shoot_ray_hemisphere rnd (normal i1) s) in
  closest_hit (handle params) o d tmin tmax = Some h1 ->
  emit (rt_material (sbt_data h1)) = false ->
  closest_hit (handle params) (xyz i1) d1 tmin tmax = Some h2 ->
  emit (rt_material (sbt_data h2)) = false ->
  exists (p2 dir : float3 F) (l1 l2 : list (Query F)),
    queries (Shader.bounce_loop rnd params garbage Shader.nb_bounces
               i o d s) =
      queries trace1 ++
      QRadiance (xyz i1) d1 tmin tmax ::
      QOcclusion p2 dir tmin tmax :: l1 ++
      QRadiance p2 dir tmin tmax :: l2 /\
    count_radiance l1 = 0%nat.
Proof.
  intros tmin tmax trace1 i1 d1 Hh1 He1 Hh2 He2.
  destruct (shader_trace_radiance_diffuse_queries o d tmin tmax
              (set_done false i) Hh1 He1) as [l0 [_ [_ Hd1]]].
  fold trace1 in Hd1. fold i1 in Hd1. cbn [done set_done] in Hd1.
  destruct (shader_trace_radiance_diffuse_queries (xyz i1) d1 tmin tmax
              (set_done false i1) Hh2 He2) as [l1 [Hq2 [Hc2 Hd2]]].
  cbn [done set_done seed] in Hd2, Hq2.
  unfold Shader.nb_bounces.
  rewrite shader_bounce_loop_S, queries_bind.
  fold tmin tmax trace1 i1. rewrite Hd1. fold d1.
  rewrite shader_bounce_loop_S, queries_bind.
  fold tmin tmax. rewrite Hd2, Hq2.
  rewrite shader_bounce_loop_S, queries_bind.
  fold tmin tmax.
  match goal with
  | |- context [queries (Shader.trace_radiance rnd params garbage
                           (handle params) ?o3 ?d3 tmin tmax ?i3)] =>
      destruct (shader_trace_radiance_head o3 d3 tmin tmax i3) as [l3 Hl3];
      rewrite Hl3
  end.
  do 4 eexists. split; [|exact Hc2].
  cbn [app]. reflexivity.
Qed.
End BounceSeed.

(** The closed room [Walls]: every ray ends on plaster, so the third ray
    of the path from the eye repeats the first probe of the second hit. *)
Lemma shader_bounce_repeats_probe_closed_room :
  exists (p2 dir : float3 R) (l0 l1 l2 : list (Query R)),
    queries (Shader.bounce_loop Random.rnd Walls.params Walls.garbage
               Shader.nb_bounces
               (set_seed 0%Z (Intersection_new Walls.garbage))
               (make_float3 0%R 0%R 0%R) (make_float3 0%R 0%R 1%R) 0%Z) =
      l0 ++ QOcclusion p2 dir (f_lit 1 (-6)) (f_lit 1 16) :: l1 ++
      QRadiance p2 dir (f_lit 1 (-6)) (f_lit 1 16) :: l2 /\
    count_radiance l1 = 0%nat.
Proof.
  destruct (@shader_bounce_repeats_probe R R_float Random.rnd unit
              Walls.params Walls.garbage
              (set_seed 0%Z (Intersection_new Walls.garbage))
              (make_float3 0%R 0%R 0%R) (make_float3 0%R 0%R 1%R) 0%Z
              Walls.wall_hit Walls.wall_hit
              eq_refl eq_refl eq_refl eq_refl)
    as [p2 [dir [l1 [l2 [Hq Hc]]]]].
  match type of Hq with
  | _ = ?A ++ ?Q :: _ => exists p2, dir, (A ++ [Q]), l1, l2
  end.
  split; [|exact Hc].
  rewrite Hq, <- app_assoc. reflexivity.
Defined.

(** ** The shading normal of [shader2.cu] *)

Section FaceNormal.
Local Open Scope R_scope.
Variable rnd : uint -> R * uint.
Variable uchar4 : Type.

Lemma dot_normalize_l (v w : float3 R) :
  dot (normalize v) w = dot v w * (1 / sqrt (dot v v)).
Proof. unfold normalize. apply dot_mul3_s_l. Qed.

(** X15.  The normal [shader2.cu] stores at a diffuse hit on a triangle of
    non-zero area is the unit normal of the triangle's plane on the side
    the ray came from: it has length one, it is perpendicular to both
    edges, and its dot product with the ray direction is not positive. *)
Theorem shader2_normal_faces_ray
    (params : Params R (HitGroupData2 R) uchar4)
    (h : HitInfo R (HitGroupData2 R)) (o d : float3 R) (i : Intersection R) :
  emit (rt_material2 (sbt_data h)) = false ->
  let off := wrap_int (primitive_index h * 3) in
  let v1 := make_float3_4 (vertices2 (sbt_data h) (off + 0)%Z) in
  let v2 := make_float3_4 (vertices2 (sbt_data h) (off + 1)%Z) in
  let v3 := make_float3_4 (vertices2 (sbt_data h) (off + 2)%Z) in
  cross (sub3 v2 v1) (sub3 v3 v1) <> make_float3 0 0 0 ->
  let nrm :=
    normal (value (Shader2.__closesthit__radiance rnd params h o d i)) in
  dot nrm nrm = 1 /\ dot nrm d <= 0 /\
  dot nrm (sub3 v2 v1) = 0 /\ dot nrm (sub3 v3 v1) = 0.
Proof.
  intros Hemit off v1 v2 v3 Hne nrm.
  assert (Hn : nrm =
               faceforward (normalize (cross (sub3 v2 v1) (sub3 v3 v1)))
                 (neg3 d) (normalize (cross (sub3 v2 v1) (sub3 v3 v1))))
    by (apply shader2_shading_normal; exact Hemit).
  rewrite Hn.
  set (N_0 := normalize (cross (sub3 v2 v1) (sub3 v3 v1))).
  split; [|split; [|split]].
  - rewrite faceforward_length. apply normalize_unit.
    apply dot_self_pos. exact Hne.
  - pose proof (dot_faceforward N_0 (neg3 d)) as Hf.
    rewrite dot_neg3_l in Hf.
    pose proof (Rabs_pos (dot (neg3 d) N_0)).
    rewrite (dot_comm (faceforward N_0 (neg3 d) N_0) d). lra.
  - unfold faceforward. rewrite dot_mul3_s_l.
    unfold N_0. rewrite dot_normalize_l.
    rewrite (dot_comm (cross _ _)), dot_cross_l. ring.
  - unfold faceforward. rewrite dot_mul3_s_l.
    unfold N_0. rewrite dot_normalize_l.
    rewrite (dot_comm (cross _ _)), dot_cross_r. ring.
Qed.
End FaceNormal.

(** The front wall of [StaleHit], met by the ray from the eye along [z]. *)
Lemma shader2_normal_faces_ray_front_wall :
  let nrm := normal (value StaleHit.bounce1) in
  dot nrm nrm = 1%R /\ (dot nrm (make_float3 0 0 1) <= 0)%R.
Proof.
  assert (Hne : cross
                  (sub3 (make_float3_4 (StaleHit.wall_vertices 1))
                        (make_float3_4 (StaleHit.wall_vertices 0)))
                  (sub3 (make_float3_4 (StaleHit.wall_vertices 2))
                        (make_float3_4 (StaleHit.wall_vertices 0)))
                <> make_float3 0%R 0%R 0%R)
    by (apply cross_nonzero_z; simpl; lra).
  destruct (@shader2_normal_faces_ray Random.rnd unit StaleHit.params
              StaleHit.hit_front (make_float3 0%R 0%R 0%R)
              (make_float3 0%R 0%R 1%R) (Intersection_new StaleHit.zero)
              eq_refl Hne) as [H1 [H2 _]].
  split; [exact H1 | exact H2].
Defined.

(** ** The primary ray *)

Section PrimaryRay.
Local Open Scope R_scope.
Variable rnd : uint -> R * uint.
Variable uchar4 : Type.

Lemma shader2_trace_radiance_head
    (params : Params R (HitGroupData2 R) uchar4) (o d : float3 R)
    (tmin tmax : R) (i : Intersection R) :
  exists l,
    queries (Shader2.trace_radiance rnd params (handle params) o d
               tmin tmax i) = QRadiance o d tmin tmax :: l.
Proof.
  unfold Shader2.trace_radiance. rewrite queries_bind.
  cbn [value issue fst queries snd app]. eexists. reflexivity.
Qed.

(** A jitter within [-1,1] moves the screen coordinate by at most half a
    pixel, a pixel being [2 / w] wide. *)
Lemma screen_offset (x j w : R) :
  0 < w -> -1 <= j <= 1 ->
  Rabs ((x * 2 + j) / w - 1 - (2 * x / w - 1)) <= 1 / w.
Proof.
  intros Hw Hj.
  replace ((x * 2 + j) / w - 1 - (2 * x / w - 1)) with (j * / w)
    by (field; lra).
  assert (Hi : 0 < / w) by (apply Rinv_0_lt_compat; exact Hw).
  unfold Rdiv. apply Rabs_le. split; nra.
Qed.

(** X16.  The primary ray of a sample, in either shader file: the first
    query of the sample is a radiance query from the eye, towards
    [normalize(dx U + dy V + W)], where the screen coordinates [(dx, dy)]
    lie within half a pixel of [2 idx / size - 1] on each axis.  In
    [shader.cu] this holds for any generator, the jitter being normalised;
    in [shader2.cu] for a generator whose draws lie in [0,1]. *)
Theorem primary_ray :
  (forall (p : Params R (HitGroupData R) uchar4) (g : Intersection R)
          (idx2 size : float2 R) (s : uint),
      0 < x2 size -> 0 < y2 size ->
      exists dx dy l,
        queries (Shader.sample rnd p g idx2 size s) =
          QRadiance (eye p)
            (normalize (add3 (add3 (smul3 dx (U p)) (smul3 dy (V p))) (W p)))
            (f_lit 1 (-6)) (f_lit 1 16) :: l /\
        Rabs (dx - (2 * x2 idx2 / x2 size - 1)) <= 1 / x2 size /\
        Rabs (dy - (2 * y2 idx2 / y2 size - 1)) <= 1 / y2 size) /\
  (forall (p : Params R (HitGroupData2 R) uchar4) (g : Intersection R)
          (idx2 size : float2 R) (s : uint),
      (forall t, 0 <= fst (rnd t) <= 1) ->
      0 < x2 size -> 0 < y2 size ->
      exists dx dy l,
        queries (Shader2.sample rnd p g idx2 size s) =
          QRadiance (eye p)
            (normalize (add3 (add3 (smul3 dx (U p)) (smul3 dy (V p))) (W p)))
            (f_lit 1 (-2)) (f_lit 1 16) :: l /\
        Rabs (dx - (2 * x2 idx2 / x2 size - 1)) <= 1 / x2 size /\
        Rabs (dy - (2 * y2 idx2 / y2 size - 1)) <= 1 / y2 size).
Proof.
  split.
  - intros p g idx2 size s Hw Hh.
    unfold Shader.sample. rewrite shader_jitter_draws.
    set (j := normalize2 (fst (draws2 (Shader.rng rnd) s))).
    destruct (normalize2_range (fst (draws2 (Shader.rng rnd) s)))
      as [Hjx Hjy].
    fold j in Hjx, Hjy.
    unfold Shader.nb_bounces. rewrite shader_bounce_loop_S, queries_bind.
    match goal with
    | |- context [queries (Shader.trace_radiance rnd p g (handle p)
                             ?o ?d ?a ?b ?i)] =>
        destruct (shader_trace_radiance_head rnd p g o d a b i) as [l Hl];
        rewrite Hl
    end.
    do 3 eexists. split; [cbn [app]; reflexivity|].
    cbn [fx fy make_float3_2s sub2_s div2 add2 smul2 x2 y2].
    split; [apply (screen_offset _ Hw Hjx) | apply (screen_offset _ Hh Hjy)].
  - intros p g idx2 size s Hrnd Hw Hh.
    unfold Shader2.sample. rewrite shader2_jitter_draws.
    destruct (@draws2_range rnd s Hrnd) as [Hjx Hjy].
    destruct (draws2 (Shader.rng rnd) s) as [j s'].
    cbn [fst] in Hjx, Hjy.
    rewrite queries_bind, queries_ret, app_nil_r.
    unfold Shader2.nb_bounces. rewrite shader2_bounce_loop_S, queries_bind.
    match goal with
    | |- context [queries (Shader2.trace_radiance rnd p (handle p)
                             ?o ?d ?a ?b ?i)] =>
        destruct (shader2_trace_radiance_head p o d a b i) as [l Hl];
        rewrite Hl
    end.
    do 3 eexists. split; [cbn [app]; reflexivity|].
    cbn [fx fy make_float3_2s sub2_s div2 add2 smul2 x2 y2].
    split; [apply (screen_offset _ Hw Hjx) | apply (screen_offset _ Hh Hjy)].
Qed.
End PrimaryRay.

(** The first sample of pixel (3,2) of the image of [Sky.params]. *)
Lemma primary_ray_sky :
  exists dx dy l,
    queries (Shader.sample Random.rnd Sky.params Lit.garbage
               (make_float2 3%R 2%R) (make_float2 640%R 480%R) 0%Z) =
      QRadiance (eye Sky.params)
        (normalize (add3 (add3 (smul3 dx (U Sky.params))
                               (smul3 dy (V Sky.params))) (W Sky.params)))
        (f_lit 1 (-6)) (f_lit 1 16) :: l /\
    (Rabs (dx - (2 * 3 / 640 - 1)) <= 1 / 640)%R /\
    (Rabs (dy - (2 * 2 / 480 - 1)) <= 1 / 480)%R.
Proof.
  assert (Hw : (0 < x2 (make_float2 640 480))%R) by (simpl; lra).
  assert (Hh : (0 < y2 (make_float2 640 480))%R) by (simpl; lra).
  exact (proj1 (@primary_ray Random.rnd unit) Sky.params Lit.garbage
           (make_float2 3%R 2%R) (make_float2 640%R 480%R) 0%Z Hw Hh).
Defined.

(** ** What a radiance query leaves alone *)

Section RadianceFrame.
Context {F : Type} {FO : FloatOps F}.
Variable rnd : uint -> F * uint.
Variable uchar4 : Type.

Lemma shader_trace_radiance_hit_material
    (p : Params F (HitGroupData F) uchar4) (g : Intersection F)
    (sc : Scene F (HitGroupData F)) (o d : float3 F) (tmin tmax : F)
    (i : Intersection F) :
  let r := Shader.trace_radiance rnd p g sc o d tmin tmax i in
  hit (value r) = hit i /\ material (value r) = material i.
Proof.
  cbv zeta. unfold Shader.trace_radiance. rewrite value_bind.
  cbn [value issue fst].
  destruct (closest_hit sc o d tmin tmax) as [h|]; [|split; reflexivity].
  destruct (emit (rt_material (sbt_data h))) eqn:Hemit.
  - unfold Shader.__closesthit__radiance. rewrite Hemit. split; reflexivity.
  - destruct (shader_closesthit_diffuse rnd p g h o d i Hemit)
      as [i3 [Hh [Hm [_ [_ [_ [_ [_ [Hv _]]]]]]]]].
    rewrite Hv. cbn [hit material set_accum_color].
    destruct (shader_light_loop_payload rnd p g Shader.count i3) as [s Hs].
    unfold Shader.shoot_ray_to_light. rewrite Hs.
    cbn [hit material set_seed]. split; assumption.
Qed.

Lemma shader_bounce_loop_hit_material
    (p : Params F (HitGroupData F) uchar4) (g : Intersection F) (n : nat) :
  forall (i : Intersection F) (o d : float3 F) (s : uint),
    let r := Shader.bounce_loop rnd p g n i o d s in
    hit (fst (value r)) = hit i /\ material (fst (value r)) = material i.
Proof.
  induction n as [|n IH]; intros i o d s; [split; reflexivity|].
  cbv zeta. rewrite shader_bounce_loop_S, value_bind.
  destruct (shader_trace_radiance_hit_material p g (handle p) o d
              (f_lit 1 (-6)) (f_lit 1 16) (set_done false i)) as [Hh Hm].
  cbn [hit material set_done] in Hh, Hm.
  destruct (done _).
  - cbn [value ret fst]. split; assumption.
  - match goal with
    | |- context [Shader.bounce_loop rnd p g n ?i' ?o' ?d' ?s'] =>
        destruct (IH i' o' d' s') as [Hh' Hm']
    end.
    rewrite Hh', Hm'. split; assumption.
Qed.

(** X17.  What a radiance query leaves alone.  In [shader.cu] a radiance
    query, and so the whole bounce loop, never writes the [hit] and
    [material] fields of the path's payload: the probes of the light
    sampler run on a payload of their own.  In both shader files a query
    that ends the path, on a miss or on an emitter, issues that one query
    only, sets [done], and leaves every field but [done] and
    [accum_color] as it was. *)
Theorem radiance_query_frame :
  (forall (p : Params F (HitGroupData F) uchar4) (g i : Intersection F)
          (o d : float3 F) (tmin tmax : F),
      let r := Shader.trace_radiance rnd p g (handle p) o d tmin tmax i in
      hit (value r) = hit i /\ material (value r) = material i) /\
  (forall (p : Params F (HitGroupData F) uchar4) (g i : Intersection F)
          (n : nat) (o d : float3 F) (s : uint),
      let r := Shader.bounce_loop rnd p g n i o d s in
      hit (fst (value r)) = hit i /\ material (fst (value r)) = material i) /\
  (forall (p : Params F (HitGroupData F) uchar4) (g i : Intersection F)
          (o d : float3 F) (tmin tmax : F),
      closest_hit (handle p) o d tmin tmax = None \/
      (exists h, closest_hit (handle p) o d tmin tmax = Some h /\
                 emit (rt_material (sbt_data h)) = true) ->
      let r := Shader.trace_radiance rnd p g (handle p) o d tmin tmax i in
      queries r = [QRadiance o d tmin tmax] /\ done (value r) = true /\
      normal (value r) = normal i /\ xyz (value r) = xyz i /\
      mask_color (value r) = mask_color i /\ seed (value r) = seed i) /\
  (forall (p : Params F (HitGroupData2 F) uchar4) (i : Intersection F)
          (o d : float3 F) (tmin tmax : F),
      closest_hit (handle p) o d tmin tmax = None \/
      (exists h, closest_hit (handle p) o d tmin tmax = Some h /\
                 emit (rt_material2 (sbt_data h)) = true) ->
      let r := Shader2.trace_radiance rnd p (handle p) o d tmin tmax i in
      queries r = [QRadiance o d tmin tmax] /\ done (value r) = true /\
      normal (value r) = normal i /\ xyz (value r) = xyz i /\
      mask_color (value r) = mask_color i /\ seed (value r) = seed i /\
      hit (value r) = hit i /\ material (value r) = material i).
Proof.
  split; [|split; [|split]].
  - intros p g i o d tmin tmax.
    apply shader_trace_radiance_hit_material.
  - intros p g i n o d s. apply shader_bounce_loop_hit_material.
  - intros p g i o d tmin tmax Hend. cbv zeta.
    unfold Shader.trace_radiance. rewrite value_bind, queries_bind.
    cbn [value issue fst queries snd].
    destruct Hend as [Hnone | [h [Hsome Hemit]]].
    + rewrite Hnone. repeat split.
    + rewrite Hsome. unfold Shader.__closesthit__radiance.
      rewrite Hemit. repeat split.
  - intros p i o d tmin tmax Hend. cbv zeta.
    unfold Shader2.trace_radiance. rewrite value_bind, queries_bind.
    cbn [value issue fst queries snd].
    destruct Hend as [Hnone | [h [Hsome Hemit]]].
    + rewrite Hnone. repeat split.
    + rewrite Hsome. unfold Shader2.__closesthit__radiance.
      rewrite Hemit. repeat split.
Qed.
End RadianceFrame.

(** A ray that leaves the empty scene [Sky]. *)
Lemma radiance_query_frame_sky :
  let r := Shader.trace_radiance Random.rnd Sky.params Lit.garbage
             (handle Sky.params) (make_float3 0%R 0%R 0%R)
             (make_float3 0%R 0%R 1%R) (f_lit 1 (-6)) (f_lit 1 16)
             Lit.point in
  queries r =
    [QRadiance (make_float3 0%R 0%R 0%R) (make_float3 0%R 0%R 1%R)
       (f_lit 1 (-6)) (f_lit 1 16)] /\
  done (value r) = true /\ normal (value r) = normal Lit.point.
Proof.
  destruct (proj1 (proj2 (proj2 (@radiance_query_frame R R_float Random.rnd
                                   unit)))
              Sky.params Lit.garbage Lit.point (make_float3 0%R 0%R 0%R)
              (make_float3 0%R 0%R 1%R) (f_lit 1 (-6)) (f_lit 1 16)
              (or_introl eq_refl)) as [Hq [Hd [Hn _]]].
  split; [exact Hq|]. split; [exact Hd | exact Hn].
Defined.

(** ** Bounds on the radiance *)

Section RadianceBounds.
Local Open Scope R_scope.
Variable rnd : uint -> R * uint.
Variable uchar4 : Type.

Lemma ch_add3 (k : Channel) (a b : float3 R) :
  ch k (add3 a b) = ch k a + ch k b.
Proof. destruct k; reflexivity. Qed.

Lemma ch_mul3 (k : Channel) (a b : float3 R) :
  ch k (mul3 a b) = ch k a * ch k b.
Proof. destruct k; reflexivity. Qed.

Lemma ch_smul3 (k : Channel) (s : R) (a : float3 R) :
  ch k (smul3 s a) = ch k a * s.
Proof. destruct k; reflexivity. Qed.

Lemma ch_mul3_s (k : Channel) (a : float3 R) (s : R) :
  ch k (mul3_s a s) = ch k a * s.
Proof. destruct k; reflexivity. Qed.

Lemma ch_zero (k : Channel) : ch k (make_float3_s (f_of_Z 0)) = 0.
Proof. destruct k; reflexivity. Qed.

Lemma ch_one (k : Channel) : ch k (make_float3_s (f_of_Z 1)) = 1.
Proof. destruct k; reflexivity. Qed.

Lemma clamp_unit (d : R) : 0 <= clamp d (f_of_Z 0) (f_of_Z 1) <= 1.
Proof.
  unfold clamp. simpl. unfold Rmax, Rmin.
  destruct (Rle_dec d 1); destruct (Rle_dec 0 _); lra.
Qed.

Lemma colours_within_nonneg (Data : Type) (mat : Data -> Material R)
    (sc : Scene R Data) (E : R) :
  colours_within mat sc E -> 0 <= E.
Proof. intros [_ [_ Hbg]]. pose proof (Hbg Red). lra. Qed.

(** One term of the estimate: a colour within [[0, E]] through a mask
    within [[0, 1]]. *)
Lemma grows_by_masked (E : R) (accum c mask : float3 R) :
  colour_within E c -> colour_within 1 mask ->
  grows_within E accum (add3 accum (mul3 c mask)).
Proof.
  intros Hc Hm k. rewrite ch_add3, ch_mul3.
  pose proof (Hc k). pose proof (Hm k). split; nra.
Qed.

(** *** [shader.cu] *)

Lemma shader_light_within (p : Params R (HitGroupData R) uchar4)
    (g : Intersection R) (E : R) (n : nat) :
  colours_within (@rt_material R) (handle p) E ->
  forall i,
    colour_within E
      (fst (value (Shader.shoot_ray_to_light_loop rnd p g n i))).
Proof.
  intros Hsc. pose proof (colours_within_nonneg Hsc) as HE.
  induction n as [|n IH]; intros i.
  - intros k. cbn [Shader.shoot_ray_to_light_loop value ret fst].
    rewrite ch_zero. lra.
  - rewrite shader_light_loop_step, value_bind.
    destruct (hit _) eqn:Hhit.
    + apply shader_probe_hit_iff in Hhit. destruct Hhit as [h [Hh He]].
      cbn [value ret fst].
      rewrite (shader_probe_material _ _ _ _ _ _ Hh He).
      destruct Hsc as [_ [Hfirst _]].
      intros k. rewrite ch_smul3.
      pose proof (Hfirst _ _ _ _ _ Hh k) as Hem.
      pose proof (clamp_unit (dot (normal i) (probe_dir rnd i 0))) as Hc.
      set (t := clamp _ _ _) in *.
      split; nra.
    + apply IH.
Qed.

Lemma shader_trace_radiance_within (p : Params R (HitGroupData R) uchar4)
    (g : Intersection R) (E : R) (o d : float3 R) (tmin tmax : R)
    (i : Intersection R) :
  colours_within (@rt_material R) (handle p) E ->
  colour_within 1 (mask_color i) ->
  let i' := value (Shader.trace_radiance rnd p g (handle p) o d tmin tmax i) in
  grows_within E (accum_color i) (accum_color i') /\
  colour_within 1 (mask_color i').
Proof.
  intros Hsc Hmask. cbv zeta.
  unfold Shader.trace_radiance. rewrite value_bind. cbn [value issue fst].
  destruct (closest_hit (handle p) o d tmin tmax) as [h|] eqn:Hh.
  - destruct (proj1 Hsc _ _ _ _ _ Hh) as [Halb Hem].
    destruct (emit (rt_material (sbt_data h))) eqn:Hemit.
    + unfold Shader.__closesthit__radiance. rewrite Hemit.
      cbn [value ret accum_color mask_color set_done set_accum_color].
      split; [apply grows_by_masked; assumption | exact Hmask].
    + destruct (shader_closesthit_diffuse rnd p g h o d i Hemit)
        as [i3 [_ [_ [_ [_ [Ha [Hm [_ [Hv _]]]]]]]]].
      rewrite Hv. cbn [accum_color mask_color set_accum_color].
      destruct (shader_light_loop_payload rnd p g Shader.count i3)
        as [s Hs].
      unfold Shader.shoot_ray_to_light. rewrite Hs.
      cbn [accum_color mask_color set_seed]. rewrite Ha, Hm.
      assert (Hm' : colour_within 1
                      (mul3 (mask_color i)
                            (diffuse_color (rt_material (sbt_data h))))).
      { intros k. rewrite ch_mul3.
        pose proof (Hmask k). pose proof (Halb k). split; nra. }
      split; [|exact Hm'].
      apply grows_by_masked; [|exact Hm'].
      apply shader_light_within. exact Hsc.
  - cbn [value ret accum_color mask_color Shader.__miss__radiance
         set_done set_accum_color].
    split; [|exact Hmask].
    apply grows_by_masked; [|exact Hmask].
    destruct Hsc as [_ [_ Hbg]]. exact Hbg.
Qed.

Lemma shader_bounce_loop_within (p : Params R (HitGroupData R) uchar4)
    (g : Intersection R) (E : R) (n : nat) :
  colours_within (@rt_material R) (handle p) E ->
  forall (i : Intersection R) (o d : float3 R) (s : uint),
    colour_within 1 (mask_color i) ->
    let i' := fst (value (Shader.bounce_loop rnd p g n i o d s)) in
    forall k,
      ch k (accum_color i) <= ch k (accum_color i') <=
      ch k (accum_color i) + INR n * E.
Proof.
  intros Hsc. pose proof (colours_within_nonneg Hsc) as HE.
  induction n as [|n IH]; intros i o d s Hmask i' k.
  - unfold i'. cbn [Shader.bounce_loop value ret fst INR]. lra.
  - unfold i'. rewrite shader_bounce_loop_S, value_bind.
    destruct (@shader_trace_radiance_within p g E o d (f_lit 1 (-6))
                (f_lit 1 16) (set_done false i) Hsc Hmask) as [Hg Hm].
    specialize (Hg k). cbn [accum_color set_done] in Hg.
    pose proof (pos_INR n) as Hn. rewrite S_INR.
    destruct (done _).
    + cbn [value ret fst]. split; nra.
    + match goal with
      | |- context [Shader.bounce_loop rnd p g n ?i1 ?o1 ?d1 ?s1] =>
          pose proof (IH i1 o1 d1 s1 Hm k) as Hk
      end.
      cbv zeta in Hk. split; nra.
Qed.

Lemma shader_sample_within (p : Params R (HitGroupData R) uchar4)
    (g : Intersection R) (E : R) (idx2 size : float2 R) (s : uint) :
  colours_within (@rt_material R) (handle p) E ->
  colour_within (3 * E)
    (accum_color (fst (value (Shader.sample rnd p g idx2 size s)))).
Proof.
  intros Hsc k. unfold Shader.sample.
  destruct (Shader.antialiasing_jitter rnd s) as [jitter s'].
  match goal with
  | |- context [Shader.bounce_loop rnd p g ?n ?i1 ?o1 ?d1 ?s1] =>
      assert (Hmask : colour_within 1 (mask_color i1))
        by (intros c; cbn [mask_color set_seed Intersection_new];
            rewrite ch_one; lra);
      pose proof (@shader_bounce_loop_within p g E n Hsc i1 o1 d1 s1 Hmask k)
        as Hk
  end.
  cbv zeta in Hk. cbn [accum_color set_seed Intersection_new] in Hk.
  rewrite ch_zero in Hk. unfold Shader.nb_bounces in *. simpl INR in Hk.
  lra.
Qed.

Lemma shader_sample_loop_within (p : Params R (HitGroupData R) uchar4)
    (g : Intersection R) (E : R) (idx2 size : float2 R) (n : nat) :
  colours_within (@rt_material R) (handle p) E ->
  forall (s : uint) (accum : float3 R) k,
    ch k accum <=
    ch k (fst (value (Shader.sample_loop rnd p g n idx2 size s accum))) <=
    ch k accum + INR n * (3 * E).
Proof.
  intros Hsc. induction n as [|n IH]; intros s accum k.
  - cbn [Shader.sample_loop value ret fst INR]. lra.
  - cbn [Shader.sample_loop]. rewrite value_bind.
    pose proof (@shader_sample_within p g E idx2 size s Hsc k) as Hs.
    destruct (value (Shader.sample rnd p g idx2 size s)) as [i s'].
    cbn [fst] in Hs.
    pose proof (IH s' (add3 accum (accum_color i)) k) as Hk.
    rewrite ch_add3 in Hk. rewrite S_INR. lra.
Qed.

(** The mean of [n >= 1] samples, each within [[0, B]]. *)
Lemma mean_within (n : Z) (B a : R) :
  (1 <= n)%Z -> 0 <= a <= 0 + INR (Z.to_nat n) * B ->
  0 <= a * (1 / IZR n) <= B.
Proof.
  intros Hn. rewrite INR_IZR_INZ, Z2Nat.id by lia.
  assert (H1 : 1 <= IZR n) by (apply IZR_le; exact Hn).
  intros Ha.
  assert (Hi : 0 < 1 / IZR n) by (apply Rdiv_lt_0_compat; lra).
  assert (Hu : IZR n * (1 / IZR n) = 1) by (field; lra).
  split; [nra|].
  replace B with (IZR n * B * (1 / IZR n)) by (field; lra).
  apply Rmult_le_compat_r; lra.
Qed.

Lemma shader_pixel_estimate_within (tea4 : uint -> uint -> uint)
    (p : Params R (HitGroupData R) uchar4) (g : Intersection R) (E : R)
    (idx_x idx_y : uint) :
  colours_within (@rt_material R) (handle p) E ->
  (1 <= samples_per_launch p)%Z ->
  colour_within (3 * E)
    (value (Shader.pixel_estimate rnd tea4 p g idx_x idx_y)).
Proof.
  intros Hsc Hn k. unfold Shader.pixel_estimate. rewrite value_bind.
  match goal with
  | |- context [Shader.sample_loop rnd p g ?n ?idx2 ?size ?s ?a] =>
      pose proof (@shader_sample_loop_within p g E idx2 size n Hsc s a k)
        as Hk;
      destruct (value (Shader.sample_loop rnd p g n idx2 size s a))
        as [accum s']
  end.
  cbn [fst] in Hk. rewrite ch_zero in Hk.
  cbn [value ret fst]. unfold div3_s. rewrite ch_mul3_s.
  apply (mean_within Hn Hk).
Qed.
End RadianceBounds.

Section RadianceBounds2.
Local Open Scope R_scope.
Variable rnd : uint -> R * uint.
Variable uchar4 : Type.

(** *** [shader2.cu] *)

Lemma lit_within_fields (E : R) (i j : Intersection R) :
  hit j = hit i -> material j = material i ->
  lit_within E i -> lit_within E j.
Proof. unfold lit_within. intros -> ->. tauto. Qed.

Lemma shader2_probe_lit (p : Params R (HitGroupData2 R) uchar4) (E : R)
    (i : Intersection R) :
  colours_within (@rt_material2 R) (handle p) E ->
  lit_within E i -> lit_within E (probe2 rnd p i).
Proof.
  intros [_ [Hfirst _]] Hlit. unfold lit_within.
  rewrite probe2_hit, probe2_material.
  destruct (first_hit _ _ _ _ _) as [h|] eqn:Hh; [|discriminate].
  destruct (emit (rt_material2 (sbt_data h))).
  - intros _. apply (Hfirst _ _ _ _ _ Hh).
  - exact Hlit.
Qed.

Lemma shader2_light_within (p : Params R (HitGroupData2 R) uchar4) (E : R)
    (n : nat) :
  colours_within (@rt_material2 R) (handle p) E ->
  forall i,
    lit_within E i ->
    let r := value (Shader2.shoot_ray_to_light_loop rnd p n i) in
    colour_within E (fst r) /\ lit_within E (snd r).
Proof.
  intros Hsc. pose proof (colours_within_nonneg Hsc) as HE.
  induction n as [|n IH]; intros i Hlit.
  - cbn [Shader2.shoot_ray_to_light_loop value ret fst snd]. split.
    + intros k. rewrite ch_zero. lra.
    + exact Hlit.
  - cbv zeta. rewrite shader2_light_loop_step, value_bind.
    fold (probe2 rnd p i).
    pose proof (@shader2_probe_lit p E i Hsc Hlit) as Hlit'.
    destruct (hit (probe2 rnd p i)) eqn:Hhit.
    + cbn [value ret fst snd]. split; [|exact Hlit'].
      intros k. rewrite ch_smul3.
      pose proof (Hlit' Hhit k) as Hem.
      pose proof (clamp_unit (dot (normal (probe2 rnd p i))
                                  (probe2_dir rnd i))) as Hc.
      set (t := clamp _ _ _) in *.
      split; nra.
    + apply IH. exact Hlit'.
Qed.

Lemma shader2_trace_radiance_within (p : Params R (HitGroupData2 R) uchar4)
    (E : R) (o d : float3 R) (tmin tmax : R) (i : Intersection R) :
  colours_within (@rt_material2 R) (handle p) E ->
  colour_within 1 (mask_color i) -> lit_within E i ->
  let i' := value (Shader2.trace_radiance rnd p (handle p) o d tmin tmax i) in
  grows_within E (accum_color i) (accum_color i') /\
  colour_within 1 (mask_color i') /\ lit_within E i'.
Proof.
  intros Hsc Hmask Hlit. cbv zeta.
  unfold Shader2.trace_radiance. rewrite value_bind. cbn [value issue fst].
  destruct (closest_hit (handle p) o d tmin tmax) as [h|] eqn:Hh.
  - destruct (proj1 Hsc _ _ _ _ _ Hh) as [Halb Hem].
    destruct (emit (rt_material2 (sbt_data h))) eqn:Hemit.
    + unfold Shader2.__closesthit__radiance. rewrite Hemit.
      cbn [value ret accum_color mask_color set_done set_accum_color].
      split; [apply grows_by_masked; assumption|].
      split; [exact Hmask | exact Hlit].
    + destruct (shader2_closesthit_diffuse rnd p h o d i Hemit)
        as [i3 [Hh3 [Hm3 [_ [_ [Ha [Hm [_ [Hv _]]]]]]]]].
      rewrite Hv.
      assert (Hlit3 : lit_within E i3)
        by (apply (@lit_within_fields E i i3 Hh3 Hm3 Hlit)).
      destruct (@shader2_light_within p E Shader2.count Hsc i3 Hlit3)
        as [Hlight Hlit4].
      destruct (shader2_light_loop_payload rnd p Shader2.count i3)
        as [_ [_ [Hmk [Hac _]]]].
      unfold Shader2.shoot_ray_to_light.
      cbn [accum_color mask_color set_accum_color].
      rewrite Hmk, Hac, Ha, Hm.
      assert (Hm' : colour_within 1
                      (mul3 (mask_color i)
                            (diffuse_color (rt_material2 (sbt_data h))))).
      { intros k. rewrite ch_mul3.
        pose proof (Hmask k). pose proof (Halb k). split; nra. }
      split; [apply grows_by_masked; assumption|].
      split; [exact Hm'|].
      apply (@lit_within_fields E
               (snd (value (Shader2.shoot_ray_to_light_loop rnd p
                              Shader2.count i3))));
        [reflexivity | reflexivity | exact Hlit4].
  - cbn [value ret accum_color mask_color Shader2.__miss__radiance
         set_done set_accum_color].
    split; [|split; [exact Hmask | exact Hlit]].
    apply grows_by_masked; [|exact Hmask].
    exact (proj2 (proj2 Hsc)).
Qed.

Lemma shader2_bounce_loop_within (p : Params R (HitGroupData2 R) uchar4)
    (E : R) (n : nat) :
  colours_within (@rt_material2 R) (handle p) E ->
  forall (i : Intersection R) (o d : float3 R),
    colour_within 1 (mask_color i) -> lit_within E i ->
    let i' := value (Shader2.bounce_loop rnd p n i o d) in
    forall k,
      ch k (accum_color i) <= ch k (accum_color i') <=
      ch k (accum_color i) + INR n * E.
Proof.
  intros Hsc. pose proof (colours_within_nonneg Hsc) as HE.
  induction n as [|n IH]; intros i o d Hmask Hlit i' k.
  - unfold i'. cbn [Shader2.bounce_loop value ret fst INR]. lra.
  - unfold i'. rewrite shader2_bounce_loop_S, value_bind.
    destruct (@shader2_trace_radiance_within p E o d (f_lit 1 (-2))
                (f_lit 1 16) (set_done false i) Hsc Hmask Hlit)
      as [Hg [Hm Hl]].
    specialize (Hg k). cbn [accum_color set_done] in Hg.
    pose proof (pos_INR n) as Hn. rewrite S_INR.
    destruct (done _).
    + cbn [value ret fst]. split; nra.
    + match goal with
      | |- context [Shader2.shoot_ray_hemisphere rnd ?i1] =>
          destruct (shader2_hemisphere_payload rnd i1) as [s1 Hs1];
          rewrite Hs1;
          pose proof (IH (set_seed s1 i1) (xyz i1)
                        (fst (Shader2.shoot_ray_hemisphere rnd i1))
                        Hm Hl k) as Hk
      end.
      cbv zeta in Hk. cbn [accum_color set_seed] in Hk. split; nra.
Qed.

Lemma shader2_sample_within (p : Params R (HitGroupData2 R) uchar4)
    (g : Intersection R) (E : R) (idx2 size : float2 R) (s : uint) :
  colours_within (@rt_material2 R) (handle p) E ->
  colour_within (3 * E)
    (accum_color (fst (value (Shader2.sample rnd p g idx2 size s)))).
Proof.
  intros Hsc k. unfold Shader2.sample.
  destruct (Shader2.antialiasing_jitter rnd s) as [jitter s'].
  rewrite value_bind. cbn [value ret fst].
  match goal with
  | |- context [Shader2.bounce_loop rnd p ?n ?i1 ?o1 ?d1] =>
      assert (Hmask : colour_within 1 (mask_color i1))
        by (intros c; cbn [mask_color set_seed Intersection_new];
            rewrite ch_one; lra);
      assert (Hlit : lit_within E i1) by (intros Hhit; discriminate Hhit);
      pose proof (@shader2_bounce_loop_within p E n Hsc i1 o1 d1 Hmask Hlit k)
        as Hk
  end.
  cbv zeta in Hk. cbn [accum_color set_seed Intersection_new] in Hk.
  rewrite ch_zero in Hk. unfold Shader2.nb_bounces in *. simpl INR in Hk.
  unfold value in *. lra.
Qed.

Lemma shader2_sample_loop_within (p : Params R (HitGroupData2 R) uchar4)
    (g : Intersection R) (E : R) (idx2 size : float2 R) (n : nat) :
  colours_within (@rt_material2 R) (handle p) E ->
  forall (s : uint) (accum : float3 R) k,
    ch k accum <=
    ch k (fst (value (Shader2.sample_loop rnd p g n idx2 size s accum))) <=
    ch k accum + INR n * (3 * E).
Proof.
  intros Hsc. induction n as [|n IH]; intros s accum k.
  - cbn [Shader2.sample_loop value ret fst INR]. lra.
  - cbn [Shader2.sample_loop]. rewrite value_bind.
    pose proof (@shader2_sample_within p g E idx2 size s Hsc k) as Hs.
    destruct (value (Shader2.sample rnd p g idx2 size s)) as [i s'].
    cbn [fst] in Hs.
    pose proof (IH s' (add3 accum (accum_color i)) k) as Hk.
    rewrite ch_add3 in Hk. rewrite S_INR. lra.
Qed.

Lemma shader2_pixel_estimate_within (tea4 : uint -> uint -> uint)
    (p : Params R (HitGroupData2 R) uchar4) (g : Intersection R) (E : R)
    (idx_x idx_y : uint) :
  colours_within (@rt_material2 R) (handle p) E ->
  (1 <= samples_per_launch p)%Z ->
  colour_within (3 * E)
    (value (Shader2.pixel_estimate rnd tea4 p g idx_x idx_y)).
Proof.
  intros Hsc Hn k. unfold Shader2.pixel_estimate. rewrite value_bind.
  match goal with
  | |- context [Shader2.sample_loop rnd p g ?n ?idx2 ?size ?s ?a] =>
      pose proof (@shader2_sample_loop_within p g E idx2 size n Hsc s a k)
        as Hk;
      destruct (value (Shader2.sample_loop rnd p g n idx2 size s a))
        as [accum s']
  end.
  cbn [fst] in Hk. rewrite ch_zero in Hk.
  cbn [value ret fst]. unfold div3_s. rewrite ch_mul3_s.
  apply (mean_within Hn Hk).
Qed.

(** X18.  Bounds on the radiance.  In a scene whose emitters and
    background emit within [[0, E]] on every channel and whose albedos lie
    within [[0, 1]], a radiance query run under a mask within [[0, 1]]
    never lowers a channel of [accum_color] and raises it by at most [E],
    and the estimate of a launch of [n >= 1] samples lies within
    [[0, 3 E]] on every channel: never negative, and at most one [E] for
    each of the three bounces.  Both shader files, over the real
    numbers. *)
Theorem radiance_bounds (tea4 : uint -> uint -> uint) (E : R) :
  (forall (p : Params R (HitGroupData R) uchar4) (g : Intersection R),
      colours_within (@rt_material R) (handle p) E ->
      (forall o d tmin tmax i,
          colour_within 1 (mask_color i) ->
          grows_within E (accum_color i)
            (accum_color (value (Shader.trace_radiance rnd p g (handle p)
                                   o d tmin tmax i)))) /\
      (forall idx_x idx_y,
          (1 <= samples_per_launch p)%Z ->
          colour_within (3 * E)
            (value (Shader.pixel_estimate rnd tea4 p g idx_x idx_y)))) /\
  (forall (p : Params R (HitGroupData2 R) uchar4) (g : Intersection R),
      colours_within (@rt_material2 R) (handle p) E ->
      (forall o d tmin tmax i,
          colour_within 1 (mask_color i) -> lit_within E i ->
          grows_within E (accum_color i)
            (accum_color (value (Shader2.trace_radiance rnd p (handle p)
                                   o d tmin tmax i)))) /\
      (forall idx_x idx_y,
          (1 <= samples_per_launch p)%Z ->
          colour_within (3 * E)
            (value (Shader2.pixel_estimate rnd tea4 p g idx_x idx_y)))).
Proof.
  split; intros p g Hsc; split.
  - intros o d tmin tmax i Hmask.
    apply (@shader_trace_radiance_within rnd uchar4 p g E o d tmin tmax i
             Hsc Hmask).
  - intros idx_x idx_y Hn.
    apply shader_pixel_estimate_within; assumption.
  - intros o d tmin tmax i Hmask Hlit.
    apply (@shader2_trace_radiance_within p E o d tmin tmax i
             Hsc Hmask Hlit).
  - intros idx_x idx_y Hn.
    apply shader2_pixel_estimate_within; assumption.
Qed.
End RadianceBounds2.

(** A sky of lamps: the scene [Lit], whose lamp emits (1,1,1). *)
Lemma radiance_bounds_lit :
  colour_within (3 * 1)
    (value (Shader.pixel_estimate Random.rnd (Random.tea 4) Lit.params
              Lit.garbage 0%Z 0%Z)).
Proof.
  assert (Hsc : colours_within (@rt_material R) (handle Lit.params) 1%R).
  { split; [|split].
    - intros o d tmin tmax h Hh. simpl in Hh. injection Hh as <-.
      split; intros k; destruct k; simpl; lra.
    - intros o d tmin tmax h Hh. simpl in Hh. injection Hh as <-.
      intros k; destruct k; simpl; lra.
    - intros k; destruct k; simpl; lra. }
  assert (Hn : (1 <= samples_per_launch Lit.params)%Z) by (simpl; lia).
  exact (proj2 (proj1 (@radiance_bounds Random.rnd unit (Random.tea 4) 1%R)
                  Lit.params Lit.garbage Hsc) 0%Z 0%Z Hn).
Defined.

(** ** The draws of the light sampler *)

Section LightSamplerSeed.
Context {F : Type} {FO : FloatOps F}.
Variable rnd : uint -> F * uint.
Variable uchar4 : Type.
Variable params : Params F (HitGroupData F) uchar4.
Variable garbage : Intersection F.

Lemma probe_seed_S (nrm : float3 F) (k : nat) (s : uint) :
  probe_seed rnd nrm (S k) s =
  probe_seed rnd nrm k (snd (Shader.shoot_ray_hemisphere rnd nrm s)).
Proof. reflexivity. Qed.

(** X19.  The draws of the light sampler of [shader.cu]: it leaves the
    payload as it found it but for the seed, and the seed it leaves is the
    seed it found advanced by one hemisphere sample, three draws, for each
    occlusion probe it issued, no more. *)
Theorem light_sampler_seed (i : Intersection F) :
  let r := Shader.shoot_ray_to_light rnd params garbage i in
  snd (value r) =
  set_seed (probe_seed rnd (normal i) (count_occlusion (queries r)) (seed i))
           i.
Proof.
  cbv zeta. unfold Shader.shoot_ray_to_light.
  generalize Shader.count. intros n. revert i.
  induction n as [|n IH]; intros i.
  - cbn [Shader.shoot_ray_to_light_loop value ret fst snd queries].
    destruct i; reflexivity.
  - rewrite shader_light_loop_step, value_bind, queries_bind.
    rewrite shader_trace_occlusion_queries, count_occlusion_app.
    change (count_occlusion [probe_query rnd i 0]) with 1%nat.
    cbn [Nat.add]. rewrite probe_seed_S.
    destruct (hit _).
    + cbn [value ret fst snd queries]. reflexivity.
    + rewrite IH. cbn [normal seed set_seed].
      destruct i; reflexivity.
Qed.
End LightSamplerSeed.

(** ** The first probe of a sample *)

Section FirstProbe.
Context {F : Type} {FO : FloatOps F}.
Variable rnd : uint -> F * uint.
Variable uchar4 : Type.

Lemma shader_sample_as_loop (p : Params F (HitGroupData F) uchar4)
    (g : Intersection F) (idx2 size : float2 F) (s : uint) :
  Shader.sample rnd p g idx2 size s =
  Shader.bounce_loop rnd p g Shader.nb_bounces
    (set_seed s (Intersection_new g)) (eye p)
    (camera_ray_direction p idx2 size
       (fst (Shader.antialiasing_jitter rnd s)))
    (snd (Shader.antialiasing_jitter rnd s)).
Proof.
  unfold Shader.sample.
  destruct (Shader.antialiasing_jitter rnd s). reflexivity.
Qed.

Lemma shader2_sample_queries (p : Params F (HitGroupData2 F) uchar4)
    (g : Intersection F) (idx2 size : float2 F) (s : uint) :
  queries (Shader2.sample rnd p g idx2 size s) =
  queries (Shader2.bounce_loop rnd p Shader2.nb_bounces
             (set_seed s (Intersection_new g)) (eye p)
             (camera_ray_direction p idx2 size
                (fst (Shader2.antialiasing_jitter rnd s)))).
Proof.
  unfold Shader2.sample.
  destruct (Shader2.antialiasing_jitter rnd s).
  rewrite queries_bind, queries_ret, app_nil_r. reflexivity.
Qed.

Lemma draws3_extends_draws2 (rng : uint -> F * uint) (s : uint) :
  exists c,
    fst (draws3 rng s) =
    make_float3 (x2 (fst (draws2 rng s))) (y2 (fst (draws2 rng s))) c.
Proof.
  unfold draws3, draws2.
  destruct (rng s) as [a s1]. destruct (rng s1) as [b s2].
  destruct (rng s2) as [c s3]. exists c. reflexivity.
Qed.

Lemma shader2_trace_radiance_diffuse_queries
    (p : Params F (HitGroupData2 F) uchar4) (o d : float3 F) (tmin tmax : F)
    (i : Intersection F) (h : HitInfo F (HitGroupData2 F)) :
  closest_hit (handle p) o d tmin tmax = Some h ->
  emit (rt_material2 (sbt_data h)) = false ->
  exists i3 l,
    seed i3 = seed i /\
    queries (Shader2.trace_radiance rnd p (handle p) o d tmin tmax i) =
      QRadiance o d tmin tmax ::
      QOcclusion (xyz i3) (fst (Shader2.shoot_ray_hemisphere rnd i3))
        (f_lit 1 (-2)) (f_lit 1 16) :: l.
Proof.
  intros Hh Hemit.
  destruct (shader2_closesthit_diffuse rnd p h o d i Hemit)
    as [i3 [_ [_ [Hseed [_ [_ [_ [_ [_ Hq]]]]]]]]].
  exists i3.
  assert (Hqs : queries (Shader2.trace_radiance rnd p (handle p) o d
                           tmin tmax i) =
                QRadiance o d tmin tmax ::
                queries (Shader2.shoot_ray_to_light_loop rnd p
                           Shader2.count i3)).
  { unfold Shader2.trace_radiance. rewrite queries_bind, Hh.
    cbn [value issue fst queries snd app]. rewrite Hq. reflexivity. }
  assert (Hl : queries (Shader2.shoot_ray_to_light_loop rnd p
                          Shader2.count i3) =
               QOcclusion (xyz i3) (fst (Shader2.shoot_ray_hemisphere rnd i3))
                 (f_lit 1 (-2)) (f_lit 1 16) ::
               tl (queries (Shader2.shoot_ray_to_light_loop rnd p
                              Shader2.count i3))).
  { unfold Shader2.count.
    rewrite shader2_light_loop_step, queries_bind.
    rewrite shader2_trace_occlusion_queries. cbn [app tl].
    destruct (shader2_hemisphere_payload rnd i3) as [s' Hs'].
    rewrite Hs'. reflexivity. }
  eexists. split; [exact Hseed|]. rewrite Hqs, Hl. reflexivity.
Qed.

(** X20.  The first probe of a sample re-uses the draws of the jitter.
    In both shader files the payload of a sample is given the sample's
    seed before the anti-aliasing jitter is drawn from it, and the light
    sampler draws from the payload's seed.  So when the primary ray ends
    on a diffuse surface, the random vector of the first occlusion probe
    has the two draws of the jitter, [j], as its first two components. *)
Theorem first_probe_reuses_jitter :
  (forall (p : Params F (HitGroupData F) uchar4) (g : Intersection F)
          (idx2 size : float2 F) (s : uint)
          (h : HitInfo F (HitGroupData F)),
      let j := fst (draws2 (Shader.rng rnd) s) in
      let d0 := camera_ray_direction p idx2 size (normalize2 j) in
      closest_hit (handle p) (eye p) d0 (f_lit 1 (-6)) (f_lit 1 16)
        = Some h ->
      emit (rt_material (sbt_data h)) = false ->
      exists pt nrm c l,
        queries (Shader.sample rnd p g idx2 size s) =
          QRadiance (eye p) d0 (f_lit 1 (-6)) (f_lit 1 16) ::
          QOcclusion pt
            (let r := normalize (make_float3 (x2 j) (y2 j) c) in
             faceforward r nrm r)
            (f_lit 1 (-6)) (f_lit 1 16) :: l) /\
  (forall (p : Params F (HitGroupData2 F) uchar4) (g : Intersection F)
          (idx2 size : float2 F) (s : uint)
          (h : HitInfo F (HitGroupData2 F)),
      let j := fst (draws2 (Shader2.rng rnd) s) in
      let d0 := camera_ray_direction p idx2 size j in
      closest_hit (handle p) (eye p) d0 (f_lit 1 (-2)) (f_lit 1 16)
        = Some h ->
      emit (rt_material2 (sbt_data h)) = false ->
      exists pt nrm c l,
        queries (Shader2.sample rnd p g idx2 size s) =
          QRadiance (eye p) d0 (f_lit 1 (-2)) (f_lit 1 16) ::
          QOcclusion pt
            (let r := make_float3 (x2 j) (y2 j) c in
             normalize (faceforward r nrm r))
            (f_lit 1 (-2)) (f_lit 1 16) :: l).
Proof.
  split.
  - intros p g idx2 size s h j d0 Hh Hemit.
    rewrite shader_sample_as_loop, shader_jitter_draws.
    cbn [fst snd]. fold j. fold d0.
    unfold Shader.nb_bounces. rewrite shader_bounce_loop_S, queries_bind.
    destruct (shader_trace_radiance_diffuse_queries rnd p g (eye p) d0
                (f_lit 1 (-6)) (f_lit 1 16)
                (set_done false (set_seed s (Intersection_new g)))
                Hh Hemit) as [l [Hq _]].
    cbn [seed set_done set_seed] in Hq.
    rewrite shader_hemisphere_draws in Hq. cbn [fst] in Hq.
    destruct (draws3_extends_draws2 (Shader.rng rnd) s) as [c Hc].
    fold j in Hc. rewrite Hc in Hq.
    do 4 eexists. rewrite Hq. cbn [app]. reflexivity.
  - intros p g idx2 size s h. rewrite shader2_rng_eq.
    intros j d0 Hh Hemit.
    rewrite shader2_sample_queries, shader2_jitter_draws.
    fold j. fold d0.
    unfold Shader2.nb_bounces. rewrite shader2_bounce_loop_S, queries_bind.
    destruct (@shader2_trace_radiance_diffuse_queries p (eye p) d0
                (f_lit 1 (-2)) (f_lit 1 16)
                (set_done false (set_seed s (Intersection_new g))) h
                Hh Hemit) as [i3 [l [Hseed Hq]]].
    cbn [seed set_done set_seed] in Hseed.
    rewrite shader2_hemisphere_draws in Hq. cbn [fst] in Hq.
    rewrite Hseed in Hq.
    destruct (draws3_extends_draws2 (Shader.rng rnd) s) as [c Hc].
    fold j in Hc. rewrite Hc in Hq.
    do 4 eexists. rewrite Hq. cbn [app]. reflexivity.
Qed.
End FirstProbe.

(** The first sample in the closed room [Walls], for the pixel (0,0) of
    its one-pixel image. *)
Lemma first_probe_reuses_jitter_closed_room :
  let j := fst (draws2 (Shader.rng Random.rnd) 0%Z) in
  exists pt nrm c l,
    queries (Shader.sample Random.rnd Walls.params Walls.garbage
               (make_float2 0%R 0%R) (make_float2 1%R 1%R) 0%Z) =
      QRadiance (eye Walls.params)
        (camera_ray_direction Walls.params (make_float2 0%R 0%R)
           (make_float2 1%R 1%R) (normalize2 j))
        (f_lit 1 (-6)) (f_lit 1 16) ::
      QOcclusion pt
        (let r := normalize (make_float3 (x2 j) (y2 j) c) in
         faceforward r nrm r)
        (f_lit 1 (-6)) (f_lit 1 16) :: l.
Proof.
  exact (proj1 (@first_probe_reuses_jitter R R_float Random.rnd unit)
           Walls.params Walls.garbage (make_float2 0%R 0%R)
           (make_float2 1%R 1%R) 0%Z Walls.wall_hit eq_refl eq_refl).
Defined.

(** ** The seed a sample hands to the next *)

Section SeedHandover.
Context {F : Type} {FO : FloatOps F}.
Variable rnd : uint -> F * uint.
Variable uchar4 : Type.

(** A radiance query of [shader.cu] that sets [done] has drawn nothing. *)
Lemma shader_trace_radiance_done_seed
    (p : Params F (HitGroupData F) uchar4) (g : Intersection F)
    (o d : float3 F) (tmin tmax : F) (i : Intersection F) :
  let i' := value (Shader.trace_radiance rnd p g (handle p) o d tmin tmax
                     (set_done false i)) in
  done i' = true -> seed i' = seed i.
Proof.
  intros i' Hdone. unfold i' in *.
  destruct (closest_hit (handle p) o d tmin tmax) as [h|] eqn:Hh.
  - destruct (emit (rt_material (sbt_data h))) eqn:Hemit.
    + unfold Shader.trace_radiance. rewrite value_bind, Hh.
      cbn [value issue fst]. unfold Shader.__closesthit__radiance.
      rewrite Hemit. reflexivity.
    + rewrite (shader_trace_radiance_diffuse_done rnd p g (handle p) o d
                 tmin tmax (set_done false i) Hh Hemit) in Hdone.
      discriminate Hdone.
  - unfold Shader.trace_radiance. rewrite value_bind, Hh. reflexivity.
Qed.

(** Once the local seed is the payload's, it stays so. *)
Lemma shader_bounce_loop_seed_kept (p : Params F (HitGroupData F) uchar4)
    (g : Intersection F) (n : nat) :
  forall (i : Intersection F) (o d : float3 F),
    let r := value (Shader.bounce_loop rnd p g n i o d (seed i)) in
    snd r = seed (fst r).
Proof.
  induction n as [|n IH]; intros i o d; [reflexivity|].
  cbv zeta. rewrite shader_bounce_loop_S, value_bind.
  pose proof (@shader_trace_radiance_done_seed p g o d (f_lit 1 (-6))
                (f_lit 1 16) i) as Hseed.
  cbv zeta in Hseed.
  destruct (done _).
  - cbn [value ret fst snd]. symmetry. apply Hseed. reflexivity.
  - apply IH.
Qed.

(** X21.  The seed a sample hands to the next one.  In [shader.cu], when
    the primary ray ends the path the local seed is the one the jitter
    left and the payload still holds the seed the sample started from;
    otherwise the sample ends with the local seed equal to the payload's,
    which only the light sampler has advanced.  In [shader2.cu] the bounce
    loop never touches the local seed: the next sample starts from the
    seed the jitter left, whatever the path drew. *)
Theorem sample_seed_handover :
  (forall (p : Params F (HitGroupData F) uchar4) (g : Intersection F)
          (idx2 size : float2 F) (s : uint),
      let r := value (Shader.sample rnd p g idx2 size s) in
      let first :=
        value (Shader.trace_radiance rnd p g (handle p) (eye p)
                 (camera_ray_direction p idx2 size
                    (fst (Shader.antialiasing_jitter rnd s)))
                 (f_lit 1 (-6)) (f_lit 1 16)
                 (set_done false (set_seed s (Intersection_new g)))) in
      (done first = true ->
       snd r = snd (Shader.antialiasing_jitter rnd s) /\
       seed (fst r) = s) /\
      (done first = false -> snd r = seed (fst r))) /\
  (forall (p : Params F (HitGroupData2 F) uchar4) (g : Intersection F)
          (idx2 size : float2 F) (s : uint),
      snd (value (Shader2.sample rnd p g idx2 size s)) =
      snd (Shader2.antialiasing_jitter rnd s)).
Proof.
  split.
  - intros p g idx2 size s r first. unfold r.
    rewrite shader_sample_as_loop.
    unfold Shader.nb_bounces. rewrite shader_bounce_loop_S, value_bind.
    fold first.
    pose proof (@shader_trace_radiance_done_seed p g (eye p)
                  (camera_ray_direction p idx2 size
                     (fst (Shader.antialiasing_jitter rnd s)))
                  (f_lit 1 (-6)) (f_lit 1 16)
                  (set_seed s (Intersection_new g))) as Hseed.
    cbv zeta in Hseed. fold first in Hseed. cbn [seed set_seed] in Hseed.
    split; intros Hdone; rewrite Hdone.
    + cbn [value ret fst snd]. split; [reflexivity | apply Hseed, Hdone].
    + apply shader_bounce_loop_seed_kept.
  - intros p g idx2 size s. unfold Shader2.sample.
    destruct (Shader2.antialiasing_jitter rnd s) as [jitter s'].
    rewrite value_bind. reflexivity.
Qed.
End SeedHandover.

(** The empty scene [Sky]: the primary ray ends the path. *)
Lemma sample_seed_handover_sky :
  let r := value (Shader.sample Random.rnd Sky.params Lit.garbage
                    (make_float2 3%R 2%R) (make_float2 640%R 480%R) 0%Z) in
  snd r = snd (Shader.antialiasing_jitter Random.rnd 0%Z) /\
  seed (fst r) = 0%Z.
Proof.
  exact (proj1 (proj1 (@sample_seed_handover R R_float Random.rnd unit)
                  Sky.params Lit.garbage (make_float2 3%R 2%R)
                  (make_float2 640%R 480%R) 0%Z) eq_refl).
Defined.

(** ** The cosine factor of the light sampler *)

Section CosineFactor.
Local Open Scope R_scope.
Variable rnd : uint -> R * uint.
Variable uchar4 : Type.

Lemma clamp_unit_inside (c : R) :
  0 <= c <= 1 -> clamp c (f_of_Z 0) (f_of_Z 1) = Rmax c 0.
Proof.
  intros Hc. unfold clamp. simpl.
  rewrite Rmin_left by lra. rewrite (Rmax_comm 0 c). reflexivity.
Qed.

Lemma unit_direction_factor (n dir : float3 R) :
  dot n n <= 1 -> dot dir dir = 1 -> 0 <= dot dir n ->
  0 <= dot n dir <= 1 /\
  clamp (dot n dir) (f_of_Z 0) (f_of_Z 1) = Rmax (dot n dir) 0.
Proof.
  intros Hn Hunit Hside.
  assert (Hc : 0 <= dot n dir <= 1).
  { split; [rewrite dot_comm; exact Hside | apply dot_le_one; assumption]. }
  split; [exact Hc | apply clamp_unit_inside; exact Hc].
Qed.

(** X22.  At a shading point whose normal is no longer than one (the
    interpolation of unit vertex normals inside a triangle in [shader.cu],
    the unit normal of the triangle in [shader2.cu]), the light sampler
    of either shader file weighs the emitter it finds by the cosine term
    itself: [dot(normal, direction)] lies within [[0, 1]], the sampled
    direction being a unit vector on the normal's side, so the clamp does
    nothing and the result is [max(dot(normal, direction), 0)] times the
    emission colour.  The probe's three draws must not all be zero. *)
Theorem light_factor_cosine :
  (forall (p : Params R (HitGroupData R) uchar4) (g i : Intersection R)
          (k : nat),
      dot (normal i) (normal i) <= 1 ->
      fst (draws3 (Shader.rng rnd) (probe_seed rnd (normal i) k (seed i)))
        <> make_float3 0 0 0 ->
      (k < 7)%nat ->
      (forall j, (j < k)%nat -> hit (probe_temp rnd p g i j) = false) ->
      hit (probe_temp rnd p g i k) = true ->
      let c := dot (normal i) (probe_dir rnd i k) in
      0 <= c <= 1 /\
      fst (value (Shader.shoot_ray_to_light rnd p g i)) =
        smul3 (Rmax c 0)
              (emission_color (material (probe_temp rnd p g i k)))) /\
  (forall (p : Params R (HitGroupData2 R) uchar4) (i : Intersection R)
          (k : nat),
      let before := payload2 rnd p k i in
      let after := probe2 rnd p before in
      dot (normal i) (normal i) <= 1 ->
      fst (draws3 (Shader.rng rnd) (seed before)) <> make_float3 0 0 0 ->
      (k < 7)%nat ->
      (forall j, (j < k)%nat ->
         hit (probe2 rnd p (payload2 rnd p j i)) = false) ->
      hit after = true ->
      let c := dot (normal i) (probe2_dir rnd before) in
      0 <= c <= 1 /\
      fst (value (Shader2.shoot_ray_to_light rnd p i)) =
        smul3 (Rmax c 0) (emission_color (material after))).
Proof.
  split.
  - intros p g i k Hn Hr Hk Hbefore Hhit c.
    assert (Hdir : dot (probe_dir rnd i k) (probe_dir rnd i k) = 1 /\
                   0 <= dot (probe_dir rnd i k) (normal i)).
    { unfold probe_dir. rewrite shader_hemisphere_draws. cbn [fst].
      cbv zeta.
      destruct (@hemisphere_direction _ (normal i) Hr) as [_ [_ H]].
      exact H. }
    destruct Hdir as [Hunit Hside].
    destruct (unit_direction_factor Hn Hunit Hside) as [Hc Hclamp].
    split; [exact Hc|].
    unfold Shader.shoot_ray_to_light.
    destruct (@shader_light_loop_lit R R_float rnd uchar4 p g Shader.count
                i k Hk Hbefore Hhit) as [Hv _].
    rewrite Hv, Hclamp. reflexivity.
  - intros p i k before after Hn Hr Hk Hbefore Hhit c.
    assert (Hnb : normal before = normal i)
      by (apply (@payload2_same_path R R_float rnd uchar4 p k i)).
    assert (Hna : normal after = normal i).
    { destruct (@probe2_same_path R R_float rnd uchar4 p before) as [H _].
      fold after in H. rewrite H. exact Hnb. }
    assert (Hdir : dot (probe2_dir rnd before) (probe2_dir rnd before) = 1 /\
                   0 <= dot (probe2_dir rnd before) (normal i)).
    { unfold probe2_dir. rewrite shader2_hemisphere_draws. cbn [fst].
      cbv zeta. rewrite Hnb.
      rewrite normalize_faceforward by (apply dot_self_pos; exact Hr).
      destruct (@hemisphere_direction _ (normal i) Hr) as [_ [_ H]].
      exact H. }
    destruct Hdir as [Hunit Hside].
    destruct (unit_direction_factor Hn Hunit Hside) as [Hc Hclamp].
    split; [exact Hc|].
    unfold Shader2.shoot_ray_to_light.
    destruct (@shader2_light_loop_lit R R_float rnd uchar4 p Shader2.count
                i k Hk Hbefore Hhit) as [Hv _].
    fold before in Hv. fold after in Hv.
    rewrite Hv. cbn [fst]. rewrite Hna, Hclamp. reflexivity.
Qed.
End CosineFactor.

(** The lamp of [Lit] seen from a point with the unit normal (0,0,1). *)
Lemma light_factor_cosine_lit :
  let i := set_normal (make_float3 0%R 0%R 1%R) Lit.point in
  let c := dot (normal i) (probe_dir Random.rnd i 0) in
  (0 <= c <= 1)%R /\
  fst (value (Shader.shoot_ray_to_light Random.rnd Lit.params Lit.garbage i))
  = smul3 (Rmax c 0)
      (emission_color
         (material (probe_temp Random.rnd Lit.params Lit.garbage i 0))).
Proof.
  intros i.
  assert (Hn : (dot (normal i) (normal i) <= 1)%R)
    by (unfold dot; simpl; lra).
  assert (Hk : (0 < 7)%nat) by lia.
  assert (Hbefore : forall j, (j < 0)%nat ->
            hit (probe_temp Random.rnd Lit.params Lit.garbage i j) = false)
    by (intros j Hj; lia).
  exact (proj1 (@light_factor_cosine Random.rnd unit) Lit.params Lit.garbage
           i 0%nat Hn (@random_draws3_nonzero _) Hk Hbefore eq_refl).
Defined.

(** * The temporal blend, the hemisphere sampler and the light sampler *)

(** ** The temporal blend *)

Section BlendStore.
Context {F : Type} {FO : FloatOps F}.
Context {Data uchar4 : Type}.
Variable make_color : float3 F -> uchar4.

Lemma pixel_cell_set_subframe_index (p : Params F Data uchar4) (k : Z)
    (idx_x idx_y : uint) :
  pixel_cell (set_subframe_index p k) idx_x idx_y = pixel_cell p idx_x idx_y.
Proof. reflexivity. Qed.

(** The launch of frame index 0 stores the estimate itself. *)
Lemma accumulate_frame_0 (p : Params F Data uchar4) (idx_x idx_y : uint)
    (e : float3 F) :
  pixel_cell (accumulate make_color (set_subframe_index p 0) idx_x idx_y e)
             idx_x idx_y = e.
Proof.
  destruct (pixel_cell_accumulate make_color (set_subframe_index p 0)
              idx_x idx_y e) as [H _].
  exact H.
Qed.

(** The launch of frame index [k > 0] stores the blend. *)
Lemma accumulate_frame_k (p : Params F Data uchar4) (idx_x idx_y : uint)
    (e : float3 F) (k : Z) :
  (0 < k < 2 ^ 31 - 1)%Z ->
  pixel_cell (accumulate make_color (set_subframe_index p k) idx_x idx_y e)
             idx_x idx_y =
  lerp (pixel_cell p idx_x idx_y) e (f_of_Z 1 / f_of_Z (k + 1))%f.
Proof.
  intros Hk.
  destruct (pixel_cell_accumulate make_color (set_subframe_index p k)
              idx_x idx_y e) as [H _].
  rewrite H. cbn [subframe_index set_subframe_index].
  replace (0 <? k)%Z with true by (symmetry; apply Z.ltb_lt; lia).
  rewrite wrap_int_small by lia.
  rewrite pixel_cell_set_subframe_index. reflexivity.
Qed.
End BlendStore.

Section BlendMean.
Local Open Scope R_scope.
Context {Data uchar4 : Type}.
Variable make_color : float3 R -> uchar4.

(** Over the real numbers the launches of frame indices 0, ..., N leave
    the mean of their estimates. *)
Lemma accumulate_frames_mean (p : Params R Data uchar4) (idx_x idx_y : uint)
    (es : list (float3 R)) :
  es <> [] ->
  (Z.of_nat (length es) < 2 ^ 31)%Z ->
  pixel_cell (accumulate_frames make_color p idx_x idx_y es 0) idx_x idx_y =
  mean3 es.
Proof.
  intros Hne Hlen. destruct es as [|e0 es']; [congruence|].
  cbn [accumulate_frames]. cbn [length] in Hlen.
  rewrite Nat2Z.inj_succ in Hlen.
  rewrite pixel_cell_accumulate_frames_from by lia. cbv zeta.
  rewrite accumulate_first.
  unfold mean3. cbn [length sum3 fold_right].
  rewrite Nat2Z.inj_succ.
  replace (0 + 1 + Z.of_nat (length es'))%Z
    with (Z.succ (Z.of_nat (length es'))) by lia.
  assert (Hn : IZR (Z.succ (Z.of_nat (length es'))) <> 0)
    by (apply not_0_IZR; lia).
  fold (sum3 es').
  apply float3_eq; simpl;
    generalize dependent (IZR (Z.succ (Z.of_nat (length es'))));
    intros N HN; field; exact HN.
Qed.
End BlendMean.

(** In single precision a blend of weight one is not a store: from the
    cell 1e8 towards white it leaves black. *)
Lemma blend_weight_one_rounds :
  lerp (make_float3_s (f_of_Z 100000000)) Single.white
       (f_of_Z 1 / f_of_Z 1)%f = Single.black.
Proof. vm_compute. reflexivity. Qed.

(** C3, amended.  For one pixel, the launch of frame index 0 stores its
    estimate as it is, in every arithmetic and whatever the buffer held: no
    blend.  The launch of frame index [k > 0] stores
    [lerp(previous, estimate, 1 / (k+1))], computed in the arithmetic of the
    device.  In exact arithmetic the launches of frame indices 0, ..., N,
    each finding the buffer as the one before left it, leave the arithmetic
    mean of the N+1 estimates in the cell: [e_0] after frame 0,
    [(e_0 + e_1) / 2] after frame 1.  The frame index is an [int]: the
    count of frames stays below 2^31. *)
Theorem temporal_blend_mean :
  (forall (F : Type) (FO : FloatOps F) (Data uchar4 : Type)
          (make_color : float3 F -> uchar4) (p : Params F Data uchar4)
          (idx_x idx_y : uint) (e : float3 F),
      pixel_cell (accumulate make_color (set_subframe_index p 0)
                    idx_x idx_y e) idx_x idx_y = e /\
      (forall k : Z,
          (0 < k < 2 ^ 31 - 1)%Z ->
          pixel_cell (accumulate make_color (set_subframe_index p k)
                        idx_x idx_y e) idx_x idx_y =
          lerp (pixel_cell p idx_x idx_y) e
               (f_of_Z 1 / f_of_Z (k + 1))%f)) /\
  (forall (Data uchar4 : Type) (make_color : float3 R -> uchar4)
          (p : Params R Data uchar4) (idx_x idx_y : uint)
          (es : list (float3 R)),
      es <> [] ->
      (Z.of_nat (length es) < 2 ^ 31)%Z ->
      let cell := pixel_cell (accumulate_frames make_color p idx_x idx_y es 0)
                             idx_x idx_y in
      cell = mean3 es /\
      (forall e0, es = [e0] -> cell = e0) /\
      (forall e0 e1, es = [e0; e1] ->
         cell = make_float3 ((fx e0 + fx e1) / 2)%R ((fy e0 + fy e1) / 2)%R
                            ((fz e0 + fz e1) / 2)%R)).
Proof.
  split.
  - intros F FO Data uchar4 make_color p idx_x idx_y e. split.
    + apply accumulate_frame_0.
    + intros k Hk. apply accumulate_frame_k. exact Hk.
  - intros Data uchar4 make_color p idx_x idx_y es Hne Hlen cell.
    assert (Hmean : cell = mean3 es)
      by (apply accumulate_frames_mean; assumption).
    split; [exact Hmean|]. split.
    + intros e0 He. rewrite Hmean, He. unfold mean3.
      apply float3_eq; simpl; field.
    + intros e0 e1 He. rewrite Hmean, He. unfold mean3.
      apply float3_eq; simpl; field.
Qed.

(** The blend at work: in single precision, frame 0 stores the grey [0.1f]
    over whatever the buffer held; over the real numbers, three frames
    leave the mean of red, green and blue. *)
Lemma temporal_blend_mean_rgb :
  pixel_cell (accumulate (fun _ => tt) (set_subframe_index Single.params 0)
                0%Z 0%Z Single.grey1) 0%Z 0%Z = Single.grey1 /\
  pixel_cell (accumulate (fun _ => tt) (set_subframe_index Single.params 2)
                0%Z 0%Z Single.black) 0%Z 0%Z =
    lerp (pixel_cell Single.params 0%Z 0%Z) Single.black
         (f_of_Z 1 / f_of_Z 3)%f /\
  pixel_cell (accumulate_frames (fun _ => tt) Lit.params 0%Z 0%Z
                Lit.estimates 0) 0%Z 0%Z =
  mean3 Lit.estimates.
Proof.
  destruct temporal_blend_mean as [Hany Hreal].
  destruct (Hany binary32 B32_float (HitGroupData binary32) unit
              (fun _ => tt) Single.params 0%Z 0%Z Single.grey1) as [H0 _].
  destruct (Hany binary32 B32_float (HitGroupData binary32) unit
              (fun _ => tt) Single.params 0%Z 0%Z Single.black) as [_ Hk].
  split; [exact H0|]. split.
  - apply (Hk 2%Z). lia.
  - assert (Hne : Lit.estimates <> []) by discriminate.
    assert (Hlen : (Z.of_nat (length Lit.estimates) < 2 ^ 31)%Z)
      by reflexivity.
    exact (proj1 (Hreal (HitGroupData R) unit (fun _ => tt) Lit.params
                    0%Z 0%Z Lit.estimates Hne Hlen)).
Defined.

(** C3 as stated fails in single precision.  After the frames white, white,
    black the cell holds 11184810 * 2^-24 (0.66666663): less than the mean
    2/3 of the three, and not the [float] nearest to it, 11184811 * 2^-24
    (0.6666667), which is what summing and dividing gives.  After the frames
    [0.1f], [0.7f] it holds 13421772 * 2^-25 (0.39999998): less than the
    mean of the two, where [(e_0 + e_1) / 2] gives 13421773 * 2^-25 (0.4). *)
Lemma temporal_blend_rounds :
  let three := [Single.white; Single.white; Single.black] in
  let two := [Single.grey1; Single.grey7] in
  let cell es :=
    pixel_cell (accumulate_frames (fun _ => tt) Single.params 0%Z 0%Z es 0)
               0%Z 0%Z in
  (cell three = make_float3_s (SpecFloat.S754_finite false 11184810 (-24)) /\
   mean3 three = make_float3_s (SpecFloat.S754_finite false 11184811 (-24)) /\
   cell three <> mean3 three /\
   (Single.real (fx (cell three)) <
    (Single.real (fx Single.white) + Single.real (fx Single.white) +
     Single.real (fx Single.black)) / 3)%R) /\
  (cell two = make_float3_s (SpecFloat.S754_finite false 13421772 (-25)) /\
   Single.half_sum Single.grey1 Single.grey7 =
     make_float3_s (SpecFloat.S754_finite false 13421773 (-25)) /\
   cell two <> Single.half_sum Single.grey1 Single.grey7 /\
   (Single.real (fx (cell two)) <
    (Single.real (fx Single.grey1) + Single.real (fx Single.grey7)) / 2)%R).
Proof.
  intros three two cell.
  assert (H3 : cell three =
               make_float3_s (SpecFloat.S754_finite false 11184810 (-24)))
    by (vm_compute; reflexivity).
  assert (H2 : cell two =
               make_float3_s (SpecFloat.S754_finite false 13421772 (-25)))
    by (vm_compute; reflexivity).
  assert (Hw : Single.white =
               make_float3_s (SpecFloat.S754_finite false 8388608 (-23)))
    by (vm_compute; reflexivity).
  assert (Hb : Single.black = make_float3_s (SpecFloat.S754_zero false))
    by (vm_compute; reflexivity).
  assert (H1 : Single.grey1 =
               make_float3_s (SpecFloat.S754_finite false 13421773 (-27)))
    by (vm_compute; reflexivity).
  assert (H7 : Single.grey7 =
               make_float3_s (SpecFloat.S754_finite false 11744051 (-24)))
    by (vm_compute; reflexivity).
  split; (split; [assumption|]); (split; [vm_compute; reflexivity|]).
  - split; [vm_compute; intros H; discriminate H|].
    rewrite H3, Hw, Hb. unfold make_float3_s, Single.real. cbn [fx].
    simpl powerRZ. lra.
  - split; [vm_compute; intros H; discriminate H|].
    rewrite H2, H1, H7. unfold make_float3_s, Single.real. cbn [fx].
    simpl powerRZ. lra.
Qed.

(** ** The hemisphere sampler *)

Section SignedSamples.
Context {F : Type} {FO : FloatOps F}.
Variable rnd : uint -> F * uint.

(** Three draws of [rng] are three draws of [rnd], each made a signed
    sample, and leave the seed the three draws of [rnd] leave. *)
Lemma rng_draws3 (s : uint) :
  draws3 (Shader.rng rnd) s =
  (signed3 (fst (draws3 rnd s)), snd (draws3 rnd s)).
Proof.
  unfold draws3, Shader.rng.
  destruct (rnd s) as [a s1].
  destruct (rnd s1) as [b s2].
  destruct (rnd s2) as [c s3]. reflexivity.
Qed.
End SignedSamples.

Section SignedSamplesOverReals.
Local Open Scope R_scope.

(** A signed sample is zero for the draw 1/2 only. *)
Lemma signed3_zero (d : float3 R) :
  signed3 d = make_float3 0 0 0 -> d = make_float3 (1/2) (1/2) (1/2).
Proof.
  destruct d as [a b c]. unfold signed3, signed. cbn [fx fy fz].
  intros H. injection H as Ha Hb Hc.
  change (a * 2 - 1 = 0) in Ha. change (b * 2 - 1 = 0) in Hb.
  change (c * 2 - 1 = 0) in Hc.
  apply float3_eq; cbn [fx fy fz]; lra.
Qed.

(** The generator of [random.h] never draws 1/2 three times running. *)
Lemma random_draws3_not_centre (s : uint) :
  fst (draws3 (Random.rnd (F := R)) s) <> make_float3 (1/2) (1/2) (1/2).
Proof.
  intros H. apply (@random_draws3_nonzero s).
  rewrite rng_draws3. cbn [fst]. rewrite H.
  unfold signed3, signed. cbn [fx fy fz].
  apply float3_eq; cbn [fx fy fz];
    change ((1 / 2) * 2 - 1 = 0); lra.
Qed.

(** The first three draws from the seed 0. *)
Lemma random_draws3_seed_0 :
  fst (draws3 (Random.rnd (F := R)) 0%Z) =
  make_float3 (7271263 / 16777216) (5253426 / 16777216)
              (13432553 / 16777216).
Proof.
  destruct lcg_run_0 as [H1 [H2 H3]].
  unfold draws3.
  rewrite random_rnd_value, H1. cbn [fst snd].
  rewrite random_rnd_value, H2. cbn [fst snd].
  rewrite random_rnd_value, H3. cbn [fst snd].
  reflexivity.
Qed.

(** A vector that points up lies on the side of [(0,0,1)] and away from
    [(0,0,-1)]. *)
Lemma dot_normalize_vertical (v : float3 R) :
  0 < fz v ->
  0 <= dot (normalize v) (make_float3 0 0 1) /\
  dot (normalize v) (make_float3 0 0 (-1)) < 0.
Proof.
  intros Hz.
  assert (Hq : 0 < dot v v).
  { unfold dot. destruct v as [a b c]. cbn [fx fy fz] in *.
    change (0 < a * a + b * b + c * c). nra. }
  pose proof (inv_length_pos Hq) as Hu.
  rewrite normalize_as_scale.
  set (u := 1 / sqrt (dot v v)) in *.
  unfold dot, mul3_s. cbn [fx fy fz].
  change (0 <= fx v * u * 0 + fy v * u * 0 + fz v * u * 1 /\
          fx v * u * 0 + fy v * u * 0 + fz v * u * (-1) < 0).
  split; nra.
Qed.
End SignedSamplesOverReals.

(** C6, amended.  For every shading normal and every seed, the hemisphere
    sampler of either shader file takes three successive draws of the
    generator and makes each a signed sample [2u - 1]; the generator of
    [random.h] never draws 1/2 three times running, so the three samples are
    never all zero.  For such a generator and in exact arithmetic the
    sampler returns the normalised vector of the samples, negated when its
    dot product with the normal is negative: a direction of length one with
    [dot(direction, normal) >= 0] ([shader2.cu] flips first and normalises
    then, to the same direction).  The seed it leaves is the seed after the
    three draws. *)
Theorem hemisphere_sampler :
  (forall s : uint,
      fst (draws3 (Random.rnd (F := R)) s) <>
      make_float3 (1 / 2)%R (1 / 2)%R (1 / 2)%R) /\
  (forall rnd : uint -> R * uint,
      (forall s : uint,
          fst (draws3 rnd s) <> make_float3 (1 / 2)%R (1 / 2)%R (1 / 2)%R) ->
      (forall (nrm : float3 R) (s : uint),
          let r := signed3 (fst (draws3 rnd s)) in
          let dir := fst (Shader.shoot_ray_hemisphere rnd nrm s) in
          snd (Shader.shoot_ray_hemisphere rnd nrm s) = snd (draws3 rnd s) /\
          (dot (normalize r) nrm < 0 -> dir = neg3 (normalize r))%R /\
          (0 <= dot (normalize r) nrm -> dir = normalize r)%R /\
          dot dir dir = 1%R /\ (0 <= dot dir nrm)%R) /\
      (forall i : Intersection R,
          let r := signed3 (fst (draws3 rnd (seed i))) in
          let dir := fst (Shader2.shoot_ray_hemisphere rnd i) in
          snd (Shader2.shoot_ray_hemisphere rnd i) =
            set_seed (snd (draws3 rnd (seed i))) i /\
          (dot (normalize r) (normal i) < 0 -> dir = neg3 (normalize r))%R /\
          (0 <= dot (normalize r) (normal i) -> dir = normalize r)%R /\
          dot dir dir = 1%R /\ (0 <= dot dir (normal i))%R)).
Proof.
  split; [exact random_draws3_not_centre|].
  intros rnd Hrnd.
  assert (Hr : forall s,
             signed3 (fst (draws3 rnd s)) <> make_float3 0%R 0%R 0%R).
  { intros s H. apply (Hrnd s). apply signed3_zero. exact H. }
  split.
  - intros nrm s r dir. unfold dir.
    rewrite shader_hemisphere_draws, rng_draws3. cbn [fst snd]. cbv zeta.
    fold r. split; [reflexivity|].
    apply hemisphere_direction. apply Hr.
  - intros i r dir. unfold dir.
    rewrite shader2_hemisphere_draws, rng_draws3. cbn [fst snd]. cbv zeta.
    fold r. split; [reflexivity|].
    rewrite normalize_faceforward by (apply dot_self_pos; apply Hr).
    apply hemisphere_direction. apply Hr.
Qed.

(** Both samplers with the generator of [random.h], from the seed 0, whose
    third sample is positive: about the normal [(0,0,-1)] the direction is
    the negated unit vector of the samples, about [(0,0,1)] that unit
    vector itself. *)
Lemma hemisphere_sampler_seed_0 :
  let up := make_float3 0%R 0%R 1%R in
  let down := make_float3 0%R 0%R (-1)%R in
  let r := signed3 (fst (draws3 (Random.rnd (F := R)) 0%Z)) in
  let d1 := fst (Shader.shoot_ray_hemisphere Random.rnd down 0%Z) in
  let d2 := fst (Shader2.shoot_ray_hemisphere Random.rnd
                   (set_normal down Seen.point)) in
  let d3 := fst (Shader.shoot_ray_hemisphere Random.rnd up 0%Z) in
  let d4 := fst (Shader2.shoot_ray_hemisphere Random.rnd Seen.point) in
  (d1 = neg3 (normalize r) /\ dot d1 d1 = 1%R /\ (0 <= dot d1 down)%R) /\
  (d2 = neg3 (normalize r) /\ dot d2 d2 = 1%R /\ (0 <= dot d2 down)%R) /\
  (d3 = normalize r /\ dot d3 d3 = 1%R /\ (0 <= dot d3 up)%R) /\
  (d4 = normalize r /\ dot d4 d4 = 1%R /\ (0 <= dot d4 up)%R).
Proof.
  intros up down r d1 d2 d3 d4.
  destruct hemisphere_sampler as [Hgen Hall].
  destruct (Hall Random.rnd Hgen) as [H1 H2].
  assert (Hz : (0 < fz r)%R).
  { unfold r. rewrite random_draws3_seed_0.
    unfold signed3, signed. cbn [fx fy fz].
    change (0 < 13432553 / 16777216 * 2 - 1)%R. lra. }
  destruct (@dot_normalize_vertical r Hz) as [Hup Hdown].
  destruct (H1 down 0%Z) as [_ [Hneg1 [_ [Hu1 Hd1]]]].
  destruct (H2 (set_normal down Seen.point)) as [_ [Hneg2 [_ [Hu2 Hd2]]]].
  destruct (H1 up 0%Z) as [_ [_ [Hpos3 [Hu3 Hd3]]]].
  destruct (H2 Seen.point) as [_ [_ [Hpos4 [Hu4 Hd4]]]].
  repeat split.
  - apply Hneg1. exact Hdown.
  - exact Hu1.
  - exact Hd1.
  - apply Hneg2. exact Hdown.
  - exact Hu2.
  - exact Hd2.
  - apply Hpos3. exact Hup.
  - exact Hu3.
  - exact Hd3.
  - apply Hpos4. exact Hup.
  - exact Hu4.
  - exact Hd4.
Defined.

(** C6 as stated fails in single precision.  From the seed 0 and about the
    normal [(0,0,1)] the direction either sampler returns is not of length
    one: the sum of the squares of its components is below 1, and
    [dot(direction, direction)] is 16777215 * 2^-24, the [float] below 1.
    About a normal across the three samples, the sampler of [shader2.cu]
    returns a direction on the far side of the normal: the sum of the
    products of their components is negative, and [dot(direction, normal)]
    is - 2^-25. *)
Lemma hemisphere_sampler_rounds :
  let d1 := fst (Shader.shoot_ray_hemisphere Random.rnd Single.up 0%Z) in
  let d2 := fst (Shader2.shoot_ray_hemisphere Random.rnd
                   (Single.payload Single.up)) in
  let d3 := fst (Shader2.shoot_ray_hemisphere Random.rnd
                   (Single.payload Single.across)) in
  (dot d1 d1 = SpecFloat.S754_finite false 16777215 (-24) /\
   dot d1 d1 <> f_of_Z 1 /\
   (dot (Single.real3 d1) (Single.real3 d1) < 1)%R) /\
  (dot d2 d2 = SpecFloat.S754_finite false 16777215 (-24) /\
   dot d2 d2 <> f_of_Z 1 /\
   (dot (Single.real3 d2) (Single.real3 d2) < 1)%R) /\
  (dot d3 Single.across = SpecFloat.S754_finite true 8388608 (-48) /\
   SpecFloat.SFltb (dot d3 Single.across) (f_of_Z 0) = true /\
   (dot (Single.real3 d3) (Single.real3 Single.across) < 0)%R).
Proof.
  intros d1 d2 d3.
  set (d := make_float3 (SpecFloat.S754_finite true 12408135 (-26))
                        (SpecFloat.S754_finite true 8704062 (-24))
                        (SpecFloat.S754_finite false 14003273 (-24))).
  assert (H1 : d1 = d) by (vm_compute; reflexivity).
  assert (H2 : d2 = d) by (vm_compute; reflexivity).
  assert (H3 : d3 = d) by (vm_compute; reflexivity).
  assert (Ha : Single.across =
               make_float3 (SpecFloat.S754_zero false)
                           (SpecFloat.S754_finite false 10087890 (-24))
                           (SpecFloat.S754_finite false 12540728 (-25)))
    by (vm_compute; reflexivity).
  assert (Hlen : (dot (Single.real3 d) (Single.real3 d) < 1)%R).
  { unfold d, Single.real3, Single.real, dot. cbn [fx fy fz].
    simpl powerRZ. change fmul with Rmult. change fadd with Rplus. lra. }
  split; [|split].
  - split; [vm_compute; reflexivity|].
    split; [vm_compute; intros H; discriminate H|].
    rewrite H1. exact Hlen.
  - split; [vm_compute; reflexivity|].
    split; [vm_compute; intros H; discriminate H|].
    rewrite H2. exact Hlen.
  - split; [vm_compute; reflexivity|].
    split; [vm_compute; reflexivity|].
    rewrite H3, Ha. unfold d, Single.real3, Single.real, dot.
    cbn [fx fy fz]. simpl powerRZ.
    change fmul with Rmult. change fadd with Rplus. lra.
Qed.

(** ** The light sampler and the emitters its probes end on *)

Section EmitterProbes.
Context {F : Type} {FO : FloatOps F}.
Variable rnd : uint -> F * uint.
Variable uchar4 : Type.

(** [shader.cu]: the flag of the probe's payload is up exactly when the
    probe ended on an emitter, and the payload then holds its material. *)
Lemma shader_probe_emitter (params : Params F (HitGroupData F) uchar4)
    (garbage i : Intersection F) (k : nat) :
  match probe_emitter rnd params i k with
  | Some m => hit (probe_temp rnd params garbage i k) = true /\
              material (probe_temp rnd params garbage i k) = m
  | None => hit (probe_temp rnd params garbage i k) = false
  end.
Proof.
  unfold probe_emitter, probe_temp, emitter.
  rewrite shader_trace_occlusion_value.
  destruct (first_hit (handle params) (xyz i) (probe_dir rnd i k)
              (f_lit 1 (-6)) (f_lit 1 16)) as [h|]; [|reflexivity].
  unfold Shader.__closesthit__occlusion.
  destruct (emit (rt_material (sbt_data h))); [split|]; reflexivity.
Qed.

Lemma shader_probe_emitter_none (params : Params F (HitGroupData F) uchar4)
    (garbage i : Intersection F) (k : nat) :
  probe_emitter rnd params i k = None ->
  hit (probe_temp rnd params garbage i k) = false.
Proof.
  intros H. pose proof (shader_probe_emitter params garbage i k) as P.
  rewrite H in P. exact P.
Qed.

Lemma shader_probe_emitter_some (params : Params F (HitGroupData F) uchar4)
    (garbage i : Intersection F) (k : nat) (m : Material F) :
  probe_emitter rnd params i k = Some m ->
  hit (probe_temp rnd params garbage i k) = true /\
  material (probe_temp rnd params garbage i k) = m.
Proof.
  intros H. pose proof (shader_probe_emitter params garbage i k) as P.
  rewrite H in P. exact P.
Qed.

(** [shader2.cu]: a probe that ends on an emitter raises the flag of the
    path's payload and writes the emitter's material there; any other
    probe leaves a lowered flag down. *)
Lemma probe2_emitter_some (params : Params F (HitGroupData2 F) uchar4)
    (i : Intersection F) (m : Material F) :
  probe2_emitter rnd params i = Some m ->
  hit (probe2 rnd params i) = true /\ material (probe2 rnd params i) = m.
Proof.
  unfold probe2_emitter, emitter. rewrite probe2_hit, probe2_material.
  destruct (first_hit (handle params) (xyz i) (probe2_dir rnd i)
              (f_lit 1 (-2)) (f_lit 1 16)) as [h|]; [|discriminate].
  destruct (emit (rt_material2 (sbt_data h))); [|discriminate].
  intros H. injection H as H. split; [reflexivity | exact H].
Qed.

Lemma probe2_emitter_none (params : Params F (HitGroupData2 F) uchar4)
    (i : Intersection F) :
  hit i = false ->
  probe2_emitter rnd params i = None ->
  hit (probe2 rnd params i) = false.
Proof.
  unfold probe2_emitter, emitter. rewrite probe2_hit.
  destruct (first_hit (handle params) (xyz i) (probe2_dir rnd i)
              (f_lit 1 (-2)) (f_lit 1 16)) as [h|]; [|reflexivity].
  destruct (emit (rt_material2 (sbt_data h))); [discriminate|].
  intros H _. exact H.
Qed.

(** As long as no probe ends on an emitter, a flag that was down when the
    sampler was entered stays down. *)
Lemma payload2_dark (params : Params F (HitGroupData2 F) uchar4) (k : nat) :
  forall i : Intersection F,
    hit i = false ->
    (forall j, (j < k)%nat ->
       probe2_emitter rnd params (payload2 rnd params j i) = None) ->
    hit (payload2 rnd params k i) = false.
Proof.
  induction k as [|k IH]; intros i Hi Hnone.
  - exact Hi.
  - cbn [payload2]. apply IH.
    + apply probe2_emitter_none; [exact Hi|]. apply (Hnone 0%nat). lia.
    + intros j Hj. apply (Hnone (S j)). lia.
Qed.

(** The seed a probe leaves is the seed after three draws. *)
Lemma probe2_seed (params : Params F (HitGroupData2 F) uchar4)
    (i : Intersection F) :
  seed (probe2 rnd params i) = snd (draws3 rnd (seed i)).
Proof.
  unfold probe2.
  match goal with
  | |- seed (value (Shader2.trace_occlusion ?sc ?o ?d ?a ?b ?j)) = _ =>
      destruct (shader2_trace_occlusion_frame sc o d a b j)
        as [_ [_ [_ [_ [_ Hs]]]]]
  end.
  rewrite Hs, shader2_hemisphere_draws, rng_draws3. reflexivity.
Qed.

(** C2, amended.  [shoot_ray_to_light] issues at most 7 occlusion probes, in
    either shader file.  In [shader.cu] the [hit] flag it tests after a
    probe is up exactly when the probe ended on an emitter; the sampler
    returns at the first such probe, with
    [clamp(dot(normal, direction), 0, 1)] times the emission colour of the
    emitter the probe ended on, having issued no probe beyond that one; when
    none of the 7 probes ends on an emitter it returns (0,0,0).  In
    [shader2.cu] all of this holds for a payload whose [hit] flag is down
    when the sampler is entered. *)
Theorem light_sampler_contract :
  (forall (params : Params F (HitGroupData F) uchar4)
          (garbage i : Intersection F),
      let r := Shader.shoot_ray_to_light rnd params garbage i in
      let temp := probe_temp rnd params garbage i in
      let found := probe_emitter rnd params i in
      (count_occlusion (queries r) <= 7)%nat /\
      (forall k, hit (temp k) = true <-> found k <> None) /\
      (forall k m, (k < 7)%nat ->
         (forall j, (j < k)%nat -> found j = None) ->
         found k = Some m ->
         fst (value r) =
           smul3 (clamp (dot (normal i) (probe_dir rnd i k))
                        (f_of_Z 0) (f_of_Z 1))
                 (emission_color m) /\
         queries r = map (probe_query rnd i) (seq 0 (S k))) /\
      ((forall k, (k < 7)%nat -> found k = None) ->
         fst (value r) = make_float3_s (f_of_Z 0) /\
         queries r = map (probe_query rnd i) (seq 0 7))) /\
  (forall (params : Params F (HitGroupData2 F) uchar4) (i : Intersection F),
      let r := Shader2.shoot_ray_to_light rnd params i in
      let before k := payload2 rnd params k i in
      let found k := probe2_emitter rnd params (before k) in
      (count_occlusion (queries r) <= 7)%nat /\
      (hit i = false ->
       (forall k,
          (forall j, (j < k)%nat -> found j = None) ->
          (hit (probe2 rnd params (before k)) = true <-> found k <> None)) /\
       (forall k m, (k < 7)%nat ->
          (forall j, (j < k)%nat -> found j = None) ->
          found k = Some m ->
          fst (value r) =
            smul3 (clamp (dot (normal i) (probe2_dir rnd (before k)))
                         (f_of_Z 0) (f_of_Z 1))
                  (emission_color m) /\
          queries r =
            map (fun j => probe2_query rnd (before j)) (seq 0 (S k))) /\
       ((forall k, (k < 7)%nat -> found k = None) ->
          fst (value r) = make_float3_s (f_of_Z 0) /\
          queries r =
            map (fun j => probe2_query rnd (before j)) (seq 0 7)))).
Proof.
  split.
  - intros params garbage i r temp found.
    unfold r, temp, found, Shader.shoot_ray_to_light.
    split; [apply shader_light_loop_count|]. split; [|split].
    + intros k. pose proof (shader_probe_emitter params garbage i k) as P.
      destruct (probe_emitter rnd params i k) as [m|].
      * split; [discriminate | intros _; apply P].
      * rewrite P. split; [discriminate | congruence].
    + intros k m Hk Hbefore Hfound.
      destruct (shader_probe_emitter_some params garbage i k Hfound)
        as [Hhit Hmat].
      destruct (@shader_light_loop_lit F FO rnd uchar4 params garbage
                  Shader.count i k Hk) as [Hv Hq].
      * intros j Hj. apply shader_probe_emitter_none. apply Hbefore. exact Hj.
      * exact Hhit.
      * rewrite Hv, Hmat. split; [reflexivity | exact Hq].
    + intros Hdark. apply shader_light_loop_dark.
      intros k Hk. apply shader_probe_emitter_none. apply Hdark. exact Hk.
  - intros params i r before found.
    unfold r, found, before, Shader2.shoot_ray_to_light.
    split; [apply shader2_light_loop_count|].
    intros Hi.
    assert (Hflag : forall k,
               (forall j, (j < k)%nat ->
                  probe2_emitter rnd params (payload2 rnd params j i) = None) ->
               forall j, (j < k)%nat ->
                 hit (probe2 rnd params (payload2 rnd params j i)) = false).
    { intros k Hnone j Hj. apply probe2_emitter_none.
      - apply payload2_dark; [exact Hi|].
        intros j' Hj'. apply Hnone. lia.
      - apply Hnone. exact Hj. }
    split; [|split].
    + intros k Hbefore.
      assert (Hk : hit (payload2 rnd params k i) = false)
        by (apply payload2_dark; assumption).
      destruct (probe2_emitter rnd params (payload2 rnd params k i))
        as [m|] eqn:E.
      * split; [intros _; discriminate|]. intros _.
        exact (proj1 (probe2_emitter_some params (payload2 rnd params k i)
                        E)).
      * rewrite (probe2_emitter_none params (payload2 rnd params k i) Hk E).
        split; [discriminate | congruence].
    + intros k m Hk Hbefore Hfound.
      destruct (probe2_emitter_some params (payload2 rnd params k i) Hfound)
        as [Hhit Hmat].
      destruct (@shader2_light_loop_lit F FO rnd uchar4 params Shader2.count
                  i k Hk (Hflag k Hbefore) Hhit) as [Hv Hq].
      rewrite Hv. cbn [fst]. rewrite Hmat.
      destruct (probe2_same_path rnd params (payload2 rnd params k i))
        as [Hn _].
      destruct (payload2_same_path rnd params k i) as [Hn' _].
      rewrite Hn, Hn'. split; [reflexivity | exact Hq].
    + intros Hdark.
      destruct (@shader2_light_loop_dark F FO rnd uchar4 params Shader2.count
                  i (Hflag 7%nat Hdark)) as [Hv Hq].
      rewrite Hv. split; [reflexivity | exact Hq].
Qed.
End EmitterProbes.

Section LightSamplerRuns.
Local Open Scope R_scope.

(** From [Seen.point] a probe ends on the lamp. *)
Lemma seen_point_emitter :
  probe2_emitter Random.rnd StaleHit.params Seen.point = Some StaleHit.light.
Proof.
  unfold probe2_emitter. cbn [handle StaleHit.params].
  rewrite stale_scene_first_hit. cbn [xyz Seen.point fz].
  destruct (Rle_dec 0 1) as [_|Hn]; [reflexivity | exfalso; lra].
Qed.

(** The closest-hit program of [shader.cu] on the floor runs the light
    sampler on [Floor.point]. *)
Lemma floor_bounce_sampler :
  Floor.bounce =
  ('(light, intersection) <-
     Shader.shoot_ray_to_light Random.rnd Floor.params Walls.garbage
       Floor.point ;;
   ret (set_accum_color
          (add3 (accum_color intersection)
                (mul3 light (mask_color intersection)))
          intersection))%traced.
Proof. reflexivity. Qed.

(** The normal of [Floor.point] is the normal of the vertices, of length
    two: the interpolation does not normalise. *)
Lemma floor_point_normal : normal Floor.point = Floor.vertex_normal.
Proof.
  unfold Floor.point. cbv zeta. cbn [normal set_normal set_mask_color].
  unfold Shader.barycentric_normal. apply float3_eq; simpl; field.
Qed.

(** There the cosine term exceeds 1. *)
Lemma floor_point_dot :
  1 < dot (normal Floor.point) (probe_dir Random.rnd Floor.point 0).
Proof.
  unfold probe_dir. cbn [probe_seed]. rewrite floor_point_normal.
  change (seed Floor.point) with 0%Z.
  exact lit_point_dot.
Qed.

(** The sampler of [shader.cu] at [Floor.point]: the lamp's colour, times
    one. *)
Lemma floor_point_light :
  fst (value (Shader.shoot_ray_to_light Random.rnd Floor.params Walls.garbage
                Floor.point)) =
  emission_color Lit.lamp.
Proof.
  destruct (@shader_light_loop_lit R R_float Random.rnd unit Floor.params
              Walls.garbage Shader.count Floor.point 0%nat) as [Hv _].
  - unfold Shader.count. lia.
  - intros j Hj. lia.
  - reflexivity.
  - unfold Shader.shoot_ray_to_light. rewrite Hv.
    change (material (probe_temp Random.rnd Floor.params Walls.garbage
                        Floor.point 0)) with Lit.lamp.
    rewrite clamp_unit_above by exact floor_point_dot.
    apply float3_eq; simpl; ring.
Qed.
End LightSamplerRuns.

Section SecondBounceRun.
Local Open Scope R_scope.

(** The second bounce of [StaleHit] runs the light sampler on
    [SecondBounce.point]. *)
Lemma second_bounce_sampler :
  StaleHit.bounce2 =
  ('(light, intersection) <-
     Shader2.shoot_ray_to_light Random.rnd StaleHit.params SecondBounce.point ;;
   ret (set_accum_color
          (add3 (accum_color intersection)
                (mul3 light (mask_color intersection)))
          intersection))%traced.
Proof. reflexivity. Qed.

(** The seed the first bounce leaves: its one probe took three draws from
    the seed 0. *)
Lemma stale_bounce1_seed : seed (value StaleHit.bounce1) = 3519870697%Z.
Proof.
  unfold StaleHit.bounce1.
  destruct (shader2_closesthit_diffuse Random.rnd StaleHit.params
              StaleHit.hit_front (make_float3 0 0 0) (make_float3 0 0 1)
              (Intersection_new StaleHit.zero) eq_refl)
    as [i3 [Hhit [Hmat [Hseed [Hdone [Hacc [Hmask [Hxyz [Hv Hq]]]]]]]]].
  assert (Hp : hit (probe2 Random.rnd StaleHit.params i3) = true).
  { rewrite probe2_hit. simpl handle. rewrite stale_scene_first_hit, Hxyz.
    simpl.
    destruct (Rle_dec 0 (0 + 1 * 1)) as [_|Hn]; [reflexivity | exfalso; lra]. }
  destruct (@shader2_light_loop_lit R R_float Random.rnd unit StaleHit.params
              Shader2.count i3 0%nat) as [Hl _].
  { unfold Shader2.count; lia. }
  { intros j Hj; lia. }
  { exact Hp. }
  unfold Shader2.shoot_ray_to_light in Hv. rewrite Hl in Hv.
  cbn [fst snd payload2] in Hv. rewrite Hv.
  cbn [seed set_accum_color].
  rewrite probe2_seed, Hseed.
  cbn [seed Intersection_new StaleHit.zero].
  unfold draws3.
  destruct lcg_run_0 as [H1 [H2 H3]].
  rewrite random_rnd_value, H1. cbn [fst snd].
  rewrite random_rnd_value, H2. cbn [fst snd].
  rewrite random_rnd_value, H3. cbn [fst snd].
  reflexivity.
Qed.

(** What [SecondBounce.point] holds: the flag and the lamp of the first
    bounce, the point [(0,0,-2)] of the back wall and its normal
    [(0,0,1)]. *)
Lemma second_point_fields :
  hit SecondBounce.point = true /\
  material SecondBounce.point = StaleHit.light /\
  seed SecondBounce.point = 3519870697%Z /\
  fz (xyz SecondBounce.point) < 0 /\
  normal SecondBounce.point = make_float3 0 0 1.
Proof.
  destruct stale_bounce1 as [H1hit [H1mat H1xyz]].
  split; [exact H1hit|]. split; [exact H1mat|].
  split; [exact stale_bounce1_seed|]. split.
  - change (xyz SecondBounce.point)
      with (add3 (xyz (value StaleHit.bounce1))
                 (smul3 (ray_tmax StaleHit.hit_back) (make_float3 0 0 (-1)))).
    rewrite H1xyz. simpl. lra.
  - unfold SecondBounce.point. cbv zeta.
    cbn [normal set_normal].
    unfold Shader2.barycentric_normal. cbv zeta.
    cbn [normal set_normal set_xyz].
    cbn [StaleHit.wall_vertices].
    unfold make_float3_4. cbn [x4 y4 z4].
    assert (Hc : cross (sub3 (make_float3 1 (-1) (-2))
                             (make_float3 (-1) (-1) (-2)))
                       (sub3 (make_float3 0 1 (-2))
                             (make_float3 (-1) (-1) (-2))) =
                 make_float3 0 0 4).
    { apply float3_eq; simpl; ring. }
    rewrite Hc.
    assert (Hnrm : normalize (make_float3 0 0 4) = make_float3 0 0 1).
    { unfold normalize, dot, mul3_s. cbn [fx fy fz].
      change (f_of_Z 1 / sqrtf (0 * 0 + 0 * 0 + 4 * 4)%f)%f
        with (1 / sqrt (0 * 0 + 0 * 0 + 4 * 4)).
      replace (0 * 0 + 0 * 0 + 4 * 4) with 16 by ring.
      rewrite sqrt_16. apply float3_eq; simpl; field. }
    rewrite Hnrm.
    assert (Hff : faceforward (make_float3 0 0 1)
                    (neg3 (make_float3 0 0 (-1))) (make_float3 0 0 1) =
                  make_float3 0 0 1).
    { unfold faceforward, dot, neg3, mul3_s. cbn [fx fy fz].
      rewrite copysign_one_nonneg by (simpl; lra).
      apply float3_eq; simpl; ring. }
    rewrite Hff.
    unfold mul3_s. cbn [fx fy fz].
    apply float3_eq; cbn [fx fy fz]; simpl; ring.
Qed.

(** From the back wall every probe ends on the wall, which does not
    emit. *)
Lemma second_point_no_emitter (k : nat) :
  probe2_emitter Random.rnd StaleHit.params
    (payload2 Random.rnd StaleHit.params k SecondBounce.point) = None.
Proof.
  destruct second_point_fields as [_ [_ [_ [Hz _]]]].
  unfold probe2_emitter. cbn [handle StaleHit.params].
  rewrite stale_scene_first_hit.
  destruct (payload2_same_path Random.rnd StaleHit.params k
              SecondBounce.point) as [_ [Hx _]].
  rewrite Hx.
  destruct (Rle_dec 0 (fz (xyz SecondBounce.point))) as [Hn|_];
    [exfalso; lra | reflexivity].
Qed.

(** The fourth, fifth and sixth draws from the seed 0. *)
Lemma random_draws3_second :
  fst (draws3 (Random.rnd (F := R)) 3519870697%Z) =
  make_float3 (16339764 / 16777216) (5432579 / 16777216)
              (3065478 / 16777216).
Proof.
  assert (H : Random.lcg 3519870697%Z = (16339764, 2868466484)%Z /\
              Random.lcg 2868466484%Z = (5432579, 1649599747)%Z /\
              Random.lcg 1649599747%Z = (3065478, 2670642822)%Z).
  { vm_compute. repeat split; reflexivity. }
  destruct H as [H1 [H2 H3]].
  unfold draws3.
  rewrite random_rnd_value, H1. cbn [fst snd].
  rewrite random_rnd_value, H2. cbn [fst snd].
  rewrite random_rnd_value, H3. cbn [fst snd].
  reflexivity.
Qed.

(** The direction of the first probe from [SecondBounce.point] is not
    along the wall. *)
Lemma second_point_dot :
  0 < dot (normal SecondBounce.point)
          (probe2_dir Random.rnd SecondBounce.point).
Proof.
  destruct second_point_fields as [_ [_ [Hseed [_ Hn]]]].
  unfold probe2_dir.
  rewrite shader2_hemisphere_draws, rng_draws3. cbn [fst]. cbv zeta.
  rewrite Hseed, Hn, random_draws3_second.
  set (r := signed3 (make_float3 (16339764 / 16777216) (5432579 / 16777216)
                                 (3065478 / 16777216))).
  assert (Hz : fz r < 0).
  { unfold r, signed3, signed. cbn [fx fy fz].
    change (3065478 / 16777216 * 2 - 1 < 0). lra. }
  assert (Hq : 0 < dot r r).
  { unfold dot. destruct r as [a b c]. cbn [fx fy fz] in *.
    change (0 < a * a + b * b + c * c). nra. }
  pose proof (inv_length_pos Hq) as Hu.
  rewrite normalize_faceforward by exact Hq.
  rewrite dot_faceforward.
  apply Rabs_pos_lt.
  rewrite normalize_as_scale, dot_mul3_s_r.
  set (u := 1 / sqrt (dot r r)) in *.
  unfold dot. cbn [fx fy fz].
  intros H.
  assert (H' : fz r * u = 0).
  { transitivity ((0 * fx r + 0 * fy r + 1 * fz r) * u); [ring | exact H]. }
  nra.
Qed.

(** The sampler at [SecondBounce.point] returns the lamp's colour times a
    positive factor. *)
Lemma second_point_light :
  fst (value (Shader2.shoot_ray_to_light Random.rnd StaleHit.params
                SecondBounce.point)) =
    smul3 (clamp (dot (normal SecondBounce.point)
                      (probe2_dir Random.rnd SecondBounce.point))
                 (f_of_Z 0) (f_of_Z 1))
          (emission_color StaleHit.light) /\
  queries (Shader2.shoot_ray_to_light Random.rnd StaleHit.params
             SecondBounce.point) =
    [probe2_query Random.rnd SecondBounce.point].
Proof.
  destruct second_point_fields as [Hhit [Hmat [_ [Hz _]]]].
  assert (Hfirst : forall dir tmin tmax,
             first_hit StaleHit.scene (xyz SecondBounce.point) dir tmin tmax =
             Some StaleHit.hit_back).
  { intros. rewrite stale_scene_first_hit.
    destruct (Rle_dec 0 (fz (xyz SecondBounce.point))) as [Hn|_];
      [exfalso; lra | reflexivity]. }
  assert (Hp : hit (probe2 Random.rnd StaleHit.params SecondBounce.point)
               = true).
  { rewrite probe2_hit. cbn [handle StaleHit.params]. rewrite Hfirst.
    exact Hhit. }
  assert (Hm : material (probe2 Random.rnd StaleHit.params SecondBounce.point)
               = StaleHit.light).
  { rewrite probe2_material. cbn [handle StaleHit.params]. rewrite Hfirst.
    exact Hmat. }
  destruct (@shader2_light_loop_lit R R_float Random.rnd unit StaleHit.params
              Shader2.count SecondBounce.point 0%nat) as [Hl Hlq].
  { unfold Shader2.count; lia. }
  { intros j Hj; lia. }
  { exact Hp. }
  unfold Shader2.shoot_ray_to_light. rewrite Hl, Hlq.
  cbn [fst payload2]. rewrite Hm.
  destruct (probe2_same_path Random.rnd StaleHit.params SecondBounce.point)
    as [Hn _].
  rewrite Hn. split; reflexivity.
Qed.

Lemma clamp_unit_pos (d : R) : 0 < d -> 0 < clamp d (f_of_Z 0) (f_of_Z 1).
Proof.
  intros Hd. unfold clamp. simpl.
  apply Rlt_le_trans with (Rmin d 1).
  - apply Rmin_glb_lt; lra.
  - apply Rmax_r.
Qed.
End SecondBounceRun.

(** The contract at work.  In [shader.cu], from [Lit.point] under the lamp
    and on storage that holds plaster: one probe, and the lamp's colour
    scaled by the clamped cosine.  In [shader2.cu], from [Seen.point] with
    the flag down: the same.  In [shader.cu], from the same point in the
    closed room: seven probes, and black. *)
Lemma light_sampler_contract_lit :
  (fst (value (Shader.shoot_ray_to_light Random.rnd Lit.params Walls.garbage
                 Lit.point)) =
     smul3 (clamp (dot (normal Lit.point) (probe_dir Random.rnd Lit.point 0))
                  (f_of_Z 0) (f_of_Z 1))
           (emission_color Lit.lamp) /\
   queries (Shader.shoot_ray_to_light Random.rnd Lit.params Walls.garbage
              Lit.point) =
     [probe_query Random.rnd Lit.point 0]) /\
  (fst (value (Shader2.shoot_ray_to_light Random.rnd StaleHit.params
                 Seen.point)) =
     smul3 (clamp (dot (normal Seen.point)
                       (probe2_dir Random.rnd Seen.point))
                  (f_of_Z 0) (f_of_Z 1))
           (emission_color StaleHit.light) /\
   queries (Shader2.shoot_ray_to_light Random.rnd StaleHit.params
              Seen.point) =
     [probe2_query Random.rnd Seen.point]) /\
  (fst (value (Shader.shoot_ray_to_light Random.rnd Walls.params Walls.garbage
                 Lit.point)) = make_float3_s (f_of_Z 0) /\
   queries (Shader.shoot_ray_to_light Random.rnd Walls.params Walls.garbage
              Lit.point) =
     map (probe_query Random.rnd Lit.point) (seq 0 7)).
Proof.
  destruct (@light_sampler_contract R R_float Random.rnd unit) as [H1 H2].
  split; [|split].
  - destruct (H1 Lit.params Walls.garbage Lit.point) as [_ [_ [Hlit _]]].
    apply (Hlit 0%nat Lit.lamp).
    + lia.
    + intros j Hj. lia.
    + reflexivity.
  - destruct (H2 StaleHit.params Seen.point) as [_ Hdown].
    destruct (Hdown eq_refl) as [_ [Hlit _]].
    apply (Hlit 0%nat StaleHit.light).
    + lia.
    + intros j Hj. lia.
    + exact seen_point_emitter.
  - destruct (H1 Walls.params Walls.garbage Lit.point) as [_ [_ [_ Hdark]]].
    apply Hdark. intros k Hk. reflexivity.
Defined.

(** C2 as stated fails, in two ways.

    In [shader.cu], a ray straight down on a floor whose vertex normals
    have length two: at the point the closest-hit program hands to the
    sampler the first probe ends on the lamp and [dot(normal, direction)]
    exceeds 1; the sampler returns the lamp's colour times 1, not times
    [max(dot(normal, direction), 0)].

    In [shader2.cu], at the second bounce of [StaleHit] the sampler is
    entered with the flag of the first bounce still up.  No probe from
    there ends on an emitter, none sets the flag, and the sampler returns
    after one probe with the lamp's colour times a positive factor, not
    (0,0,0). *)
Lemma light_sampler_not_max :
  (let r := Shader.shoot_ray_to_light Random.rnd Floor.params Walls.garbage
              Floor.point in
   let d := dot (normal Floor.point) (probe_dir Random.rnd Floor.point 0) in
   Floor.bounce =
     ('(light, intersection) <- r ;;
      ret (set_accum_color
             (add3 (accum_color intersection)
                   (mul3 light (mask_color intersection)))
             intersection))%traced /\
   normal Floor.point = Floor.vertex_normal /\
   probe_emitter Random.rnd Floor.params Floor.point 0 = Some Lit.lamp /\
   hit (probe_temp Random.rnd Floor.params Walls.garbage Floor.point 0)
     = true /\
   (1 < d)%R /\
   fst (value r) = emission_color Lit.lamp /\
   fst (value r) <> smul3 (fmaxf d (f_of_Z 0)) (emission_color Lit.lamp)) /\
  (let r := Shader2.shoot_ray_to_light Random.rnd StaleHit.params
              SecondBounce.point in
   let before k := payload2 Random.rnd StaleHit.params k SecondBounce.point in
   StaleHit.bounce2 =
     ('(light, intersection) <- r ;;
      ret (set_accum_color
             (add3 (accum_color intersection)
                   (mul3 light (mask_color intersection)))
             intersection))%traced /\
   hit SecondBounce.point = true /\
   (forall k, probe2_emitter Random.rnd StaleHit.params (before k) = None) /\
   (forall k, hit (probe2 Random.rnd StaleHit.params (before k)) =
              hit (before k)) /\
   queries r = [probe2_query Random.rnd SecondBounce.point] /\
   fst (value r) <> make_float3_s (f_of_Z 0)).
Proof.
  split.
  - cbv zeta.
    split; [exact floor_bounce_sampler|].
    split; [exact floor_point_normal|]. split; [reflexivity|].
    split; [reflexivity|]. split; [exact floor_point_dot|].
    split; [exact floor_point_light|].
    rewrite floor_point_light.
    pose proof floor_point_dot as Hd.
    set (d := dot (normal Floor.point) (probe_dir Random.rnd Floor.point 0))
      in *.
    unfold smul3. simpl. intros Heq. injection Heq as Hx _ _.
    rewrite Rmax_left in Hx by lra. lra.
  - cbv zeta.
    destruct second_point_fields as [Hhit [_ [_ [Hz _]]]].
    destruct second_point_light as [Hv Hq].
    split; [exact second_bounce_sampler|]. split; [exact Hhit|].
    split; [exact second_point_no_emitter|]. split; [|split].
    + intros k. rewrite probe2_hit. cbn [handle StaleHit.params].
      rewrite stale_scene_first_hit.
      destruct (payload2_same_path Random.rnd StaleHit.params k
                  SecondBounce.point) as [_ [Hx _]].
      rewrite Hx.
      destruct (Rle_dec 0 (fz (xyz SecondBounce.point))) as [Hn|_];
        [exfalso; lra | reflexivity].
    + exact Hq.
    + rewrite Hv.
      pose proof (clamp_unit_pos second_point_dot) as Ht.
      set (t := clamp _ _ _) in *.
      unfold smul3. simpl. intros Heq. injection Heq as Hx _ _. lra.
Qed.
